(** * PropBot orchestration core: a shallow embedding and its properties

    The development follows the Python sources of the backend:
    - [app/llm/client.py]        (module [Client])
    - [app/agent/tools/base.py], [registry.py] (module [Tools])
    - [app/agent/intent.py]      (module [Intent])
    - [app/agent/engine.py]      (module [Engine])

    Python values that cross the JSON boundary are modelled by [JVal];
    exceptions by [Exc]; a computation that may raise, or whose loop may
    run out of the fuel given to it, by [Outcome].  Sets ([set[str]]) are
    stdpp [gset]s, the tool registry is a [gmap]; insertion-ordered
    dictionaries whose order is observable are association lists. *)

From Stdlib Require Import String Ascii List ZArith Lia Bool.
From Stdlib Require DecimalString.
From stdpp Require Import base decidable option gmap strings list.
Import ListNotations.
Open Scope string_scope.
Open Scope list_scope.
Set Warnings "-register-all,-clear-no-such-hyp".
Set Default Proof Using "Type".

(* ================================================================== *)
(** ** Python data shared by all modules *)
(* ================================================================== *)

Module Py.

(** JSON values as [json.loads] builds them.  A float keeps its source
    text: no function modelled here computes with it. *)
Inductive JVal : Type :=
| JNull
| JBool (b : bool)
| JInt (z : Z)
| JFloat (repr : string)
| JStr (s : string)
| JArr (l : list JVal)
| JObj (kv : list (string * JVal)).

(** The error classes of [app/llm/client.py]. *)
Inductive LLMErrorClass := LLMTimeoutError | LLMAuthError | LLMRateLimitError | LLMUnknownError.

Record LLMError := mkLLMError {
  err_class : LLMErrorClass;
  code : Z;
  message : string
}.

(** Exceptions (all subclasses of [Exception]).  [ExcJSONDecode] is
    [json.JSONDecodeError], a subclass of [ValueError]; [ExcTimeout] and
    [ExcConnect] are [httpx.TimeoutException] and [httpx.ConnectError];
    [ExcOther] stands for [TypeError], [AttributeError], [IndexError],
    [KeyError] and any other exception class that no handler of the code
    names.  Each carries the text [str(e)] returns. *)
Inductive Exc :=
| ExcLLM (e : LLMError)
| ExcJSONDecode (msg : string)
| ExcValue (msg : string)
| ExcTimeout (msg : string)
| ExcConnect (msg : string)
| ExcOther (msg : string).

(** [str(e)] *)
Definition str_exc (e : Exc) : string :=
  match e with
  | ExcLLM e => message e
  | ExcJSONDecode m | ExcValue m | ExcTimeout m | ExcConnect m | ExcOther m => m
  end.

(** Result of running a piece of code: a value, a raised exception, or
    [Diverge] when a loop modelled with fuel was not given enough. *)
Inductive Outcome (A : Type) :=
| Ret (a : A)
| Raise (e : Exc)
| Diverge.
Arguments Ret {A} a.
Arguments Raise {A} e.
Arguments Diverge {A}.

#[global] Instance outcome_ret : MRet Outcome := fun A a => Ret a.
#[global] Instance outcome_bind : MBind Outcome := fun A B k m =>
  match m with
  | Ret a => k a
  | Raise e => Raise e
  | Diverge => Diverge
  end.

(** [try: m except Exception as e: h e].  Running out of fuel is not an
    exception and cannot be caught. *)
Definition try_except {A} (m : Outcome A) (h : Exc -> Outcome A) : Outcome A :=
  match m with
  | Raise e => h e
  | _ => m
  end.

(** *** Insertion-ordered dictionaries *)

Definition dict (K V : Type) := list (K * V).

Section Dict.
Context {K V : Type} `{EqDecision K}.

Fixpoint dict_get (d : dict K V) (k : K) : option V :=
  match d with
  | [] => None
  | (k', v) :: r => if decide (k = k') then Some v else dict_get r k
  end.

(** [d[k] = v]: a present key keeps its position, a new one goes last. *)
Fixpoint dict_set (d : dict K V) (k : K) (v : V) : dict K V :=
  match d with
  | [] => [(k, v)]
  | (k', v') :: r =>
      if decide (k = k') then (k', v) :: r else (k', v') :: dict_set r k v
  end.

Definition dict_mem (d : dict K V) (k : K) : bool :=
  match dict_get d k with Some _ => true | None => false end.

Definition dict_keys (d : dict K V) : list K := map fst d.
Definition dict_values (d : dict K V) : list V := map snd d.

(** [d[k]] as an expression: [KeyError] on a missing key. *)
Definition dict_at (d : dict K V) (k : K) : Outcome V :=
  match dict_get d k with
  | Some v => Ret v
  | None => Raise (ExcOther "KeyError")
  end.

End Dict.

(** *** The operations the code applies to parsed JSON *)

(** [v.get(key, default)]: only a dict has [get]. *)
Definition py_get (v : JVal) (key : string) (default : JVal) : Outcome JVal :=
  match v with
  | JObj kv => Ret (match dict_get kv key with Some x => x | None => default end)
  | _ => Raise (ExcOther "AttributeError: object has no attribute 'get'")
  end.

Fixpoint chars (s : string) : list JVal :=
  match s with
  | EmptyString => []
  | String c r => JStr (String c EmptyString) :: chars r
  end.

(** [for x in v]: a list yields its items, a str its characters, a dict
    its keys; nothing else is iterable. *)
Definition py_iter (v : JVal) : Outcome (list JVal) :=
  match v with
  | JArr l => Ret l
  | JStr s => Ret (chars s)
  | JObj kv => Ret (map (fun p => JStr (fst p)) kv)
  | _ => Raise (ExcOther "TypeError: object is not iterable")
  end.

(** [v[0]] *)
Definition py_index0 (v : JVal) : Outcome JVal :=
  match v with
  | JArr (x :: _) => Ret x
  | JArr [] => Raise (ExcOther "IndexError: list index out of range")
  | JStr (String c _) => Ret (JStr (String c EmptyString))
  | JStr EmptyString => Raise (ExcOther "IndexError: string index out of range")
  | JObj _ => Raise (ExcOther "KeyError: 0")
  | _ => Raise (ExcOther "TypeError: object is not subscriptable")
  end.

(** A chat message: [{"role", "content", "tool_calls"?, "tool_call_id"?}]. *)
Record ToolCall := mkToolCall {
  tc_id : string;
  tc_type : string;
  tc_name : string;
  tc_arguments : string
}.

Record Message := mkMessage {
  msg_role : string;
  msg_content : option string;
  msg_tool_calls : option (list ToolCall);
  msg_tool_call_id : option string
}.

Definition plain_message (role content : string) : Message :=
  mkMessage role (Some content) None None.

End Py.
Export Py.

(* ================================================================== *)
(** ** Model client ([app/llm/client.py]) *)
(* ================================================================== *)

Module Client.

(** The exception constructors with their default messages. *)
Definition new_LLMTimeoutError : LLMError :=
  mkLLMError LLMTimeoutError 1001 "服务响应超时，请稍后重试".
Definition new_LLMAuthError : LLMError :=
  mkLLMError LLMAuthError 1002 "服务配置错误，请联系管理员".
Definition new_LLMRateLimitError : LLMError :=
  mkLLMError LLMRateLimitError 1003 "请求过于频繁，请稍后重试".
Definition new_LLMUnknownError (message : string) : LLMError :=
  mkLLMError LLMUnknownError 1099 message.

(** [f"{n}"] for an int. *)
Definition str_of_int (z : Z) : string :=
  DecimalString.NilZero.string_of_int (Z.to_int z).

(** What one HTTP exchange can do: [client.post] raises, or a response
    arrives with a status code and a body; [body] is what
    [response.json()] returns, or the text of the exception it raises. *)
Inductive HttpFailure :=
| TimeoutException (detail : string)
| ConnectError (detail : string)
| OtherException (detail : string).

Definition raise_http {A} (f : HttpFailure) : Outcome A :=
  match f with
  | TimeoutException d => Raise (ExcTimeout d)
  | ConnectError d => Raise (ExcConnect d)
  | OtherException d => Raise (ExcOther d)
  end.

Inductive PostResult :=
| PostFailure (f : HttpFailure)
| PostResponse (status_code : Z) (body : JVal + string).

(** The payload of a request, [_build_payload] without model name and
    temperature. *)
Record Request := mkRequest {
  req_messages : list Message;
  req_tools : option (list JVal);
  req_stream : bool
}.

Section Status.

(** [str(v)] for a JSON value that is not a str. *)
Variable py_str : JVal -> string.

Definition format_value (v : JVal) : string :=
  match v with JStr s => s | _ => py_str v end.

(** [_check_response_status] *)
Definition _check_response_status (status_code : Z) (body : JVal + string)
  : Outcome unit :=
  if (status_code =? 401)%Z then Raise (ExcLLM new_LLMAuthError)
  else if (status_code =? 429)%Z then Raise (ExcLLM new_LLMRateLimitError)
  else if (500 <=? status_code)%Z then
    Raise (ExcLLM (new_LLMUnknownError "DeepSeek 服务暂时不可用，请稍后重试"))
  else if negb (status_code =? 200)%Z then
    let error_msg :=
      match (match body with
             | inl error_data =>
                 err ← py_get error_data "error" (JObj []);
                 py_get err "message" (JStr "未知错误")
             | inr msg => Raise (ExcOther msg)
             end) with
      | Ret m => format_value m
      | _ => "HTTP " +:+ str_of_int status_code
      end in
    Raise (ExcLLM (new_LLMUnknownError ("API 调用失败: " +:+ error_msg)))
  else mret tt.

(** The [except] clauses shared by [chat] and [chat_stream]; [prefix] is
    the text put before [str(e)] in the last clause. *)
Definition translate_exception (prefix : string) (e : Exc) : LLMError :=
  match e with
  | ExcTimeout _ => new_LLMTimeoutError
  | ExcConnect _ => new_LLMUnknownError "无法连接到 DeepSeek 服务，请检查网络"
  | ExcLLM e => e
  | _ => new_LLMUnknownError (prefix +:+ str_exc e)
  end.

(** [chat]: the parsed response body, or an [LLMError]. *)
Definition chat (r : PostResult) : Outcome JVal :=
  let body :=
    match r with
    | PostFailure f => raise_http f
    | PostResponse status_code body =>
        _ ← _check_response_status status_code body;
        match body with
        | inl data => mret data
        | inr msg => Raise (ExcOther msg)
        end
    end in
  match body with
  | Raise e => Raise (ExcLLM (translate_exception "调用 DeepSeek API 时发生错误: " e))
  | r => r
  end.

End Status.

(** *** Streaming *)

Record FunctionDelta := mkFunctionDelta {
  fd_name : option string;
  fd_arguments : option string
}.

(** One entry of [delta.tool_calls]: every key may be absent. *)
Record ToolCallDelta := mkDelta {
  d_index : option Z;
  d_id : option string;
  d_type : option string;
  d_function : option FunctionDelta
}.

Record StreamChunk := mkChunk {
  chunk_content : string;
  chunk_tool_calls : option (list ToolCallDelta);
  chunk_finish_reason : option string
}.

Record StreamResult := mkStreamResult {
  content : string;
  tool_calls : list ToolCall;
  finish_reason : string
}.

(** What a streaming exchange can do: opening it fails, or a response
    with a status code delivers the chunks its frames decode to and then
    ends, normally or with a failure of the transport or of the frame
    handling. *)
Inductive StreamAttempt :=
| StreamFailure (f : HttpFailure)
| StreamResponse (status_code : Z) (chunks : list StreamChunk)
    (ending : option HttpFailure).

(** [chat_stream]: the chunks yielded, then the error raised if any. *)
Definition chat_stream (a : StreamAttempt) : list StreamChunk * option LLMError :=
  let prefix := "流式调用 DeepSeek API 时发生错误: " in
  match a with
  | StreamFailure f =>
      match raise_http (A := unit) f with
      | Raise e => ([], Some (translate_exception prefix e))
      | _ => ([], None)
      end
  | StreamResponse status_code chunks ending =>
      if (status_code =? 401)%Z then ([], Some new_LLMAuthError)
      else if (status_code =? 429)%Z then ([], Some new_LLMRateLimitError)
      else if (500 <=? status_code)%Z then
        ([], Some (new_LLMUnknownError "DeepSeek 服务暂时不可用"))
      else if negb (status_code =? 200)%Z then
        ([], Some (new_LLMUnknownError ("API 调用失败: HTTP " +:+ str_of_int status_code)))
      else
        (chunks,
         match ending with
         | Some f =>
             match raise_http (A := unit) f with
             | Raise e => Some (translate_exception prefix e)
             | _ => None
             end
         | None => None
         end)
  end.

(** [StreamResultCollector] *)
Record Collector := mkCollector {
  c_content : string;
  c_tool_calls : dict Z ToolCall;
  c_finish_reason : string
}.

Definition new_collector : Collector := mkCollector "" [] "".

Definition or_default (o : option string) (d : string) : string :=
  match o with Some s => s | None => d end.

(** One iteration of [for tc in chunk.tool_calls]. *)
Definition add_delta (calls : dict Z ToolCall) (tc : ToolCallDelta) : dict Z ToolCall :=
  let index := match d_index tc with Some i => i | None => 0%Z end in
  match dict_get calls index with
  | None =>
      let f := match d_function tc with
               | Some f => f
               | None => mkFunctionDelta None None
               end in
      dict_set calls index
        (mkToolCall (or_default (d_id tc) "") (or_default (d_type tc) "function")
                    (or_default (fd_name f) "") (or_default (fd_arguments f) ""))
  | Some call =>
      match d_function tc with
      | Some (mkFunctionDelta _ (Some fragment)) =>
          dict_set calls index
            (mkToolCall (tc_id call) (tc_type call) (tc_name call)
                        (tc_arguments call +:+ fragment))
      | _ => calls
      end
  end.

Definition add_chunk (c : Collector) (chunk : StreamChunk) : Collector :=
  let content :=
    if String.eqb (chunk_content chunk) "" then c_content c
    else c_content c +:+ chunk_content chunk in
  let calls :=
    match chunk_tool_calls chunk with
    | Some tcs => fold_left add_delta tcs (c_tool_calls c)
    | None => c_tool_calls c
    end in
  let finish :=
    match chunk_finish_reason chunk with
    | Some r => if String.eqb r "" then c_finish_reason c else r
    | None => c_finish_reason c
    end in
  mkCollector content calls finish.

Definition get_result (c : Collector) : StreamResult :=
  mkStreamResult (c_content c) (dict_values (c_tool_calls c)) (c_finish_reason c).

(** The collector once the generator of [chat_stream_complete] is
    drained over [chunks]. *)
Definition collect (chunks : list StreamChunk) : Collector :=
  fold_left add_chunk chunks new_collector.

(** The text fragments that generator yields. *)
Definition content_deltas (chunks : list StreamChunk) : list string :=
  List.filter (fun d => negb (String.eqb d "")) (map chunk_content chunks).

End Client.

(* ================================================================== *)
(** ** Tool contract and registry ([app/agent/tools]) *)
(* ================================================================== *)

Module Tools.

Record ToolParameter := mkParam {
  p_name : string;
  p_type : string;
  p_description : string;
  p_required : bool;
  p_enum : option (list string)
}.

(** [type(value).__name__] *)
Definition type_name (value : JVal) : string :=
  match value with
  | JNull => "NoneType"
  | JBool _ => "bool"
  | JInt _ => "int"
  | JFloat _ => "float"
  | JStr _ => "str"
  | JArr _ => "list"
  | JObj _ => "dict"
  end.

(** [isinstance(value, str)], [isinstance(value, int)] (a bool is an
    int), [isinstance(value, float)], [isinstance(value, bool)]. *)
Definition is_str (v : JVal) : bool := match v with JStr _ => true | _ => false end.
Definition is_int (v : JVal) : bool :=
  match v with JInt _ | JBool _ => true | _ => false end.
Definition is_float (v : JVal) : bool := match v with JFloat _ => true | _ => false end.
Definition is_bool (v : JVal) : bool := match v with JBool _ => true | _ => false end.

(** [BaseTool._check_type] *)
Definition _check_type (value : JVal) (expected_type : string) : bool :=
  if String.eqb expected_type "string" then is_str value
  else if String.eqb expected_type "number" then is_int value || is_float value
  else if String.eqb expected_type "integer" then is_int value
  else if String.eqb expected_type "boolean" then is_bool value
  else true.

(** [value in param.enum] for an enum of strs: only an equal str is in. *)
Definition in_enum (value : JVal) (enum : list string) : bool :=
  match value with
  | JStr s => existsb (String.eqb s) enum
  | _ => false
  end.

Section Validation.

(** [str(v)], used by the error messages only. *)
Variable py_str : JVal -> string.

(** The checks [validate_params] makes for one parameter. *)
Definition validate_param (kwargs : dict string JVal) (param : ToolParameter)
  : Outcome unit :=
  match dict_get kwargs (p_name param) with
  | None =>
      if p_required param then
        Raise (ExcValue ("缺少必需参数: " +:+ p_name param))
      else mret tt
  | Some value =>
      if negb (_check_type value (p_type param)) then
        Raise (ExcValue ("参数 " +:+ p_name param +:+ " 类型错误: 期望 "
                         +:+ p_type param +:+ ", 实际 " +:+ type_name value))
      else
        match p_enum param with
        | Some (e :: es) =>
            if negb (in_enum value (e :: es)) then
              Raise (ExcValue ("参数 " +:+ p_name param +:+ " 值无效: "
                               +:+ Client.format_value py_str value +:+ ", 允许值: "
                               +:+ py_str (JArr (map JStr (e :: es)))))
            else mret tt
        | _ => mret tt
        end
  end.

(** [BaseTool.validate_params] *)
Fixpoint validate_params (parameters : list ToolParameter)
  (kwargs : dict string JVal) : Outcome unit :=
  match parameters with
  | [] => mret tt
  | param :: rest =>
      _ ← validate_param kwargs param;
      validate_params rest kwargs
  end.

End Validation.

(** A tool: its declaration and its abstract method [execute], called with keyword arguments,
    which returns a result or raises. *)
Record BaseTool := mkTool {
  tool_name : string;
  tool_description : string;
  parameters : list ToolParameter;
  execute : dict string JVal -> JVal + Exc
}.

(** [ToolParameter.to_json_schema] *)
Definition to_json_schema (p : ToolParameter) : JVal :=
  JObj ([("type", JStr (p_type p)); ("description", JStr (p_description p))]
        ++ match p_enum p with
           | Some (e :: es) => [("enum", JArr (map JStr (e :: es)))]
           | _ => []
           end).

(** [BaseTool.to_openai_schema] *)
Definition to_openai_schema (t : BaseTool) : JVal :=
  JObj [("type", JStr "function");
        ("function", JObj [
           ("name", JStr (tool_name t));
           ("description", JStr (tool_description t));
           ("parameters", JObj [
              ("type", JStr "object");
              ("properties",
               JObj (fold_left (fun d p => dict_set d (p_name p) (to_json_schema p))
                               (parameters t) []));
              ("required",
               JArr (map (fun p => JStr (p_name p))
                         (List.filter p_required (parameters t))))])])].

(** [ToolRegistry]: the table [_tools]. *)
Definition register (reg : gmap string BaseTool) (t : BaseTool) : gmap string BaseTool :=
  <[tool_name t := t]> reg.

Definition get (reg : gmap string BaseTool) (name : string) : option BaseTool :=
  reg !! name.

Definition get_by_names (reg : gmap string BaseTool) (names : list string)
  : list BaseTool :=
  omap (fun n => reg !! n) names.

(** [get_schemas(names)] for a list of names. *)
Definition get_schemas (reg : gmap string BaseTool) (names : list string) : list JVal :=
  map to_openai_schema (get_by_names reg names).

End Tools.

(* ================================================================== *)
(** ** Roles ([app/agent/roles.py]) *)
(* ================================================================== *)

Module Roles.

(** The [Role] dataclass, with the fields the role tests list. *)
Record Role := mkRole {
  id : string;
  name : string;
  icon : string;
  system_prompt : string;
  tools : list string;
  trigger_keywords : list string
}.

(** Modelled from the spec: [roles.py] (the table [ROLE_MAP] and the lookup
    [get_role]) is not part of the sources.  The four ids are the ones the
    planner prompt of [intent.py] enumerates and [tests/test_roles.py]
    asserts, the display names are those of the tests; icon, prompt, tool
    list and keywords are left empty as no modelled function inspects
    them.  The functions below take the lookup as a parameter; this table
    instantiates it in examples. *)
Definition ROLE_MAP : dict string Role :=
  [ ("financial_advisor", mkRole "financial_advisor" "财务顾问" "" "" [] []);
    ("policy_expert", mkRole "policy_expert" "政策专家" "" "" [] []);
    ("market_analyst", mkRole "market_analyst" "市场分析师" "" "" [] []);
    ("purchase_consultant", mkRole "purchase_consultant" "购房顾问" "" "" [] []) ].

Definition get_role (role_id : string) : option Role := dict_get ROLE_MAP role_id.

End Roles.
Export Roles.

(* ================================================================== *)
(** ** Planner ([app/agent/intent.py]) *)
(* ================================================================== *)

Module Intent.

Record ExecutionNode := mkNode {
  role_id : string;
  depends_on : list string
}.

Record ExecutionPlan := mkPlan {
  nodes : list ExecutionNode;
  reason : JVal
}.

(** [ExecutionPlan.role_ids] *)
Definition role_ids (plan : ExecutionPlan) : list string := map role_id (nodes plan).

(** [ExecutionPlan.get_ready_nodes] *)
Definition is_ready (completed : gset string) (node : ExecutionNode) : bool :=
  negb (bool_decide (role_id node ∈ completed))
  && forallb (fun dep => bool_decide (dep ∈ completed)) (depends_on node).

Definition get_ready_nodes (plan : ExecutionPlan) (completed : gset string)
  : list ExecutionNode :=
  List.filter (is_ready completed) (nodes plan).

(** The plan every fallback returns. *)
Definition default_plan (why : string) : ExecutionPlan :=
  mkPlan [mkNode "purchase_consultant" []] (JStr why).

(** *** [_validate_dag]: Kahn's algorithm over two dictionaries *)

(** [{node.role_id: v for node in nodes}] *)
Definition init_dict {V} (v : V) (ns : list ExecutionNode) : dict string V :=
  fold_left (fun d n => dict_set d (role_id n) v) ns [].

(** [graph[dep].append(rid); in_degree[rid] += 1] *)
Definition add_edge (rid dep : string)
  (st : dict string (list string) * dict string Z)
  : Outcome (dict string (list string) * dict string Z) :=
  succs ← dict_at st.1 dep;
  deg ← dict_at st.2 rid;
  mret (dict_set st.1 dep (succs ++ [rid]), dict_set st.2 rid (deg + 1)%Z).

(** [for dep in node.depends_on: if dep in role_ids: ...] *)
Fixpoint add_deps (ids : gset string) (rid : string) (deps : list string)
  (st : dict string (list string) * dict string Z)
  : Outcome (dict string (list string) * dict string Z) :=
  match deps with
  | [] => mret st
  | dep :: r =>
      st' ← (if bool_decide (dep ∈ ids) then add_edge rid dep st else mret st);
      add_deps ids rid r st'
  end.

(** [for node in nodes: ...] *)
Fixpoint add_nodes (ids : gset string) (ns : list ExecutionNode)
  (st : dict string (list string) * dict string Z)
  : Outcome (dict string (list string) * dict string Z) :=
  match ns with
  | [] => mret st
  | n :: r => st' ← add_deps ids (role_id n) (depends_on n) st; add_nodes ids r st'
  end.

(** [for neighbor in graph[current]: in_degree[neighbor] -= 1;
     if in_degree[neighbor] == 0: queue.append(neighbor)] *)
Fixpoint relax (neighbors : list string) (in_degree : dict string Z)
  (queue : list string) : Outcome (dict string Z * list string) :=
  match neighbors with
  | [] => mret (in_degree, queue)
  | nb :: r =>
      deg ← dict_at in_degree nb;
      relax r (dict_set in_degree nb (deg - 1)%Z)
              (if (deg - 1 =? 0)%Z then queue ++ [nb] else queue)
  end.

(** [while queue: current = queue.pop(0); visited += 1; ...].  One unit
    of fuel per iteration. *)
Fixpoint topo_loop (fuel : nat) (graph : dict string (list string))
  (in_degree : dict string Z) (queue : list string) (visited : nat)
  : Outcome nat :=
  match queue with
  | [] => mret visited
  | current :: rest =>
      match fuel with
      | O => Diverge
      | S fuel' =>
          neighbors ← dict_at graph current;
          st ← relax neighbors in_degree rest;
          topo_loop fuel' graph st.1 st.2 (S visited)
      end
  end.

(** [[rid for rid, deg in in_degree.items() if deg == 0]] *)
Definition zero_keys (in_degree : dict string Z) : list string :=
  map fst (List.filter (fun p => (snd p =? 0)%Z) in_degree).

(** The number of nodes the loop removes ([visited]). *)
Definition visited_count (ns : list ExecutionNode) : Outcome nat :=
  let ids : gset string := list_to_set (map role_id ns) in
  st ← add_nodes ids ns (init_dict [] ns, init_dict 0%Z ns);
  topo_loop (S (length ns)) st.1 st.2 (zero_keys st.2) 0.

Definition _validate_dag (ns : list ExecutionNode) : Outcome bool :=
  visited ← visited_count ns;
  mret (Nat.eqb visited (length ns)).

(** *** Parsing the planner's reply *)

(** [re.search(r'\{[\s\S]*\}', content)]: from the first opening brace to
    the last closing brace after it. *)
Fixpoint from_open_brace (s : string) : option string :=
  match s with
  | EmptyString => None
  | String c r => if Ascii.eqb c "{"%char then Some s else from_open_brace r
  end.

Fixpoint to_last_close_brace (s : string) : option string :=
  match s with
  | EmptyString => None
  | String c r =>
      match to_last_close_brace r with
      | Some p => Some (String c p)
      | None => if Ascii.eqb c "}"%char then Some (String c EmptyString) else None
      end
  end.

Definition re_search_json (content : string) : option string :=
  match from_open_brace content with
  | Some t => to_last_close_brace t
  | None => None
  end.

(** [node.depends_on = []] for every node *)
Definition clear_depends (ns : list ExecutionNode) : list ExecutionNode :=
  map (fun n => mkNode (role_id n) []) ns.

Section Planner.

(** [get_role] of [app.agent.roles]; [json.loads] (the parsed value or the
    text of the [JSONDecodeError]); [str.strip]; the class constant
    [SYSTEM_PROMPT]; and the awaited [llm_client.chat(messages,
    temperature=0.1)]. *)
Variable get_role : string -> option Role.
Variable json_loads : string -> JVal + string.
Variable strip : string -> string.
Variable SYSTEM_PROMPT : string.
Variable chat : list Message -> Outcome JVal.

(** [get_role(x)] on a value taken from the reply: only a str can be a
    key of the role table. *)
Definition known_role (v : JVal) : option string :=
  match v with
  | JStr s => match get_role s with Some _ => Some s | None => None end
  | _ => None
  end.

(** [[d for d in depends_on if get_role(d)]] *)
Definition valid_depends (depends_on : list JVal) : list string :=
  omap known_role depends_on.

(** One iteration of [for node_data in nodes_data]: the node to append,
    if any. *)
Definition parse_node (node_data : JVal) : Outcome (option ExecutionNode) :=
  rid ← py_get node_data "role_id" (JStr "");
  match known_role rid with
  | Some r =>
      deps ← py_get node_data "depends_on" (JArr []);
      ds ← py_iter deps;
      mret (Some (mkNode r (valid_depends ds)))
  | None => mret None
  end.

Fixpoint parse_nodes (nodes_data : list JVal) : Outcome (list ExecutionNode) :=
  match nodes_data with
  | [] => mret []
  | nd :: r =>
      o ← parse_node nd;
      ns ← parse_nodes r;
      mret (match o with Some n => n :: ns | None => ns end)
  end.

(** The body of [_parse_plan_response] after [json.loads]. *)
Definition _parse_plan_data (data : JVal) : Outcome ExecutionPlan :=
  nodes_data ← py_get data "nodes" (JArr []);
  items ← py_iter nodes_data;
  ns ← parse_nodes items;
  match ns with
  | [] => mret (default_plan "解析结果为空，使用默认角色")
  | _ =>
      ok ← _validate_dag ns;
      why ← py_get data "reason" (JStr "");
      mret (mkPlan (if ok : bool then ns else clear_depends ns) why)
  end.

Definition _parse_plan_response (content : JVal) : Outcome ExecutionPlan :=
  let body :=
    match content with
    | JStr s =>
        match re_search_json s with
        | None => Raise (ExcValue "No JSON found in response")
        | Some m =>
            match json_loads m with
            | inl data => _parse_plan_data data
            | inr msg => Raise (ExcJSONDecode msg)
            end
        end
    | _ => Raise (ExcOther "TypeError: expected string or bytes-like object")
    end in
  match body with
  | Raise (ExcJSONDecode msg) | Raise (ExcValue msg) =>
      mret (default_plan ("解析失败，使用默认角色: " +:+ msg))
  | r => r
  end.

(** The messages of the planning call. *)
Definition plan_messages (user_input : string) : list Message :=
  [ plain_message "system" SYSTEM_PROMPT;
    plain_message "user" ("用户问题：" +:+ user_input) ].

(** [response.get("choices", [{}])[0].get("message", {}).get("content", "")] *)
Definition response_content (response : JVal) : Outcome JVal :=
  choices ← py_get response "choices" (JArr [JObj []]);
  choice ← py_index0 choices;
  msg ← py_get choice "message" (JObj []);
  py_get msg "content" (JStr "").

Definition _plan_with_llm (user_input : string) : Outcome ExecutionPlan :=
  response ← chat (plan_messages user_input);
  content ← response_content response;
  _parse_plan_response content.

Definition plan_execution (user_input : string) : Outcome ExecutionPlan :=
  let user_input := strip user_input in
  if String.eqb user_input "" then
    mret (default_plan "空输入，使用默认角色")
  else
    match _plan_with_llm user_input with
    | Raise (ExcLLM e) =>
        mret (default_plan ("LLM 调用失败，使用默认角色: " +:+ message e))
    | Raise e =>
        mret (default_plan ("规划失败，使用默认角色: " +:+ str_exc e))
    | r => r
    end.

End Planner.

End Intent.

(* ================================================================== *)
(** ** Orchestration engine ([app/agent/engine.py]) *)
(* ================================================================== *)

Module Engine.
Import Client Tools Intent.

(** A text that may be Python's [None] (a model reply whose [content] is
    null). *)
Definition Text := option string.

(** [f"{t}"] *)
Definition render_text (t : Text) : string :=
  match t with Some s => s | None => "None" end.

Record ConversationContext := mkContext {
  session_id : string;
  history : list Message;
  user_info : JVal;
  role_results : dict string Text
}.

(** [ConversationContext.add_message] *)
Definition add_message (c : ConversationContext) (role : string) (content : Text)
  : ConversationContext :=
  mkContext (session_id c) (history c ++ [mkMessage role content None None])
            (user_info c) (role_results c).

(** [ConversationContext.get_recent_history] *)
Definition get_recent_history (c : ConversationContext) (max_turns : nat)
  : list Message :=
  let max_messages := max_turns * 2 in
  if Nat.ltb max_messages (length (history c)) then
    match max_messages with
    | O => history c
    | _ => skipn (length (history c) - max_messages) (history c)
    end
  else history c.

Definition set_role_results (c : ConversationContext) (r : dict string Text)
  : ConversationContext :=
  mkContext (session_id c) (history c) (user_info c) r.

(** [context.role_results[role_id] = content] *)
Definition set_role_result (c : ConversationContext) (role_id : string)
  (content : Text) : ConversationContext :=
  set_role_results c (dict_set (role_results c) role_id content).

Record RoleResult := mkRoleResult {
  rr_role_id : string;
  rr_role_name : string;
  rr_role_icon : string;
  rr_content : Text;
  rr_success : bool;
  rr_error : string
}.

(** The event dictionaries, by their ["type"]; an optional key that is
    only ever [True] when present is a [bool]. *)
Inductive Event :=
| thinking_start
| thinking_step (step_type content : string) (role : option string)
| role_start (role name icon : string) (is_summary : bool)
| tool_call (tool_name tool_args role : string)
| tool_result (tool_name content role : string)
| content_delta (role delta : string) (after_tool : bool)
| role_result (role : string) (content : Text) (is_summary : bool)
| content_complete (role content : string)
| tool_content_complete (role content : string)
| error (code : Z) (message : string)
| done.

Definition is_content_delta (e : Event) : bool :=
  match e with content_delta _ _ _ => true | _ => false end.

Definition is_tool_event (e : Event) : bool :=
  match e with tool_call _ _ _ | tool_result _ _ _ => true | _ => false end.

(** *** Generators over the turn's state

    The state a turn threads: the conversation context and the log of the
    requests sent to the model so far.  A generator run from a state gives
    the events it yields, the state it leaves and how it ends. *)
Record St := mkSt {
  ctx : ConversationContext;
  calls : list Request
}.

Definition Gen (A : Type) : Type := St -> list Event * St * Outcome A.

#[global] Instance gen_ret : MRet Gen := fun A a s => ([], s, Ret a).
#[global] Instance gen_bind : MBind Gen := fun A B k m s =>
  match m s with
  | (ev1, s1, Ret a) =>
      match k a s1 with (ev2, s2, o) => (ev1 ++ ev2, s2, o) end
  | (ev1, s1, Raise e) => (ev1, s1, Raise e)
  | (ev1, s1, Diverge) => (ev1, s1, Diverge)
  end.

Definition yield (e : Event) : Gen unit := fun s => ([e], s, Ret tt).
Definition yield_all (es : list Event) : Gen unit := fun s => (es, s, Ret tt).
Definition raise {A} (e : Exc) : Gen A := fun s => ([], s, Raise e).
Definition diverge {A} : Gen A := fun s => ([], s, Diverge).
Definition get_ctx : Gen ConversationContext := fun s => ([], s, Ret (ctx s)).
Definition modify_ctx (f : ConversationContext -> ConversationContext) : Gen unit :=
  fun s => ([], mkSt (f (ctx s)) (calls s), Ret tt).

(** [try: m except Exception as e: h e] *)
Definition try_gen {A} (m : Gen A) (h : Exc -> Gen A) : Gen A := fun s =>
  match m s with
  | (ev1, s1, Raise e) =>
      match h e s1 with (ev2, s2, o) => (ev1 ++ ev2, s2, o) end
  | r => r
  end.

(** [async for event in m: acc = h acc event]: the consumer [h] sees the
    events of [m] in order and keeps a local value; what [m] yields is
    replaced by what [h] yields.  The producers below read the context
    only before their first event and the consumers only write it, so the
    consumer is run after the producer. *)
Fixpoint consume {L} (h : L -> Event -> Gen L) (acc : L) (es : list Event) : Gen L :=
  match es with
  | [] => mret acc
  | e :: r => acc' ← h acc e; consume h acc' r
  end.

Definition for_events {L} (m : Gen unit) (h : L -> Event -> Gen L) (acc : L) : Gen L :=
  fun s =>
    match m s with
    | (evs, s1, o) =>
        match consume h acc evs s1 with
        | (out, s2, Ret acc') =>
            (out, s2, match o with
                      | Ret _ => Ret acc'
                      | Raise e => Raise e
                      | Diverge => Diverge
                      end)
        | r => r
        end
    end.

(** [asyncio.gather( *tasks, return_exceptions=True)]: every task runs and
    its result or its exception is collected.  The tasks of a round are
    run one after the other. *)
Fixpoint gather {A} (tasks : list (Gen A)) : Gen (list (A + Exc)) :=
  match tasks with
  | [] => mret []
  | t :: r =>
      x ← try_gen (a ← t; mret (inl a)) (fun e => mret (inr e));
      xs ← gather r;
      mret (x :: xs)
  end.

(** The collaborators of a turn: the role table ([get_role]); the tool
    registry; [json.loads] (a value or the text of the
    [JSONDecodeError]), [json.dumps] and [str] on values; [str.strip],
    [len] and the slice [s[:n]] on texts; and the remote model, which
    answers the [n]-th request of the turn with [llm_post n] (one-shot)
    or [llm_stream n] (streaming).  [tool_rounds] bounds how many
    successive tool-calling rounds of one node are followed: the source
    has no bound, a node that asks for more never completes. *)
Record World := mkWorld {
  w_get_role : string -> option Role;
  w_registry : gmap string BaseTool;
  w_json_loads : string -> JVal + string;
  w_json_dumps : JVal -> string;
  w_py_str : JVal -> string;
  w_strip : string -> string;
  w_str_len : string -> nat;
  w_str_take : nat -> string -> string;
  w_llm_post : nat -> Request -> PostResult;
  w_llm_stream : nat -> Request -> StreamAttempt;
  w_tool_rounds : nat
}.

Section Turn.

Variable w : World.

Local Abbreviation get_role := (w_get_role w).
Local Abbreviation registry := (w_registry w).
Local Abbreviation json_loads := (w_json_loads w).
Local Abbreviation json_dumps := (w_json_dumps w).
Local Abbreviation py_str := (w_py_str w).
Local Abbreviation strip := (w_strip w).
Local Abbreviation str_len := (w_str_len w).
Local Abbreviation str_take := (w_str_take w).
Local Abbreviation llm_post := (w_llm_post w).
Local Abbreviation llm_stream := (w_llm_stream w).
Local Abbreviation tool_rounds := (w_tool_rounds w).

Definition nl : string := String (ascii_of_nat 10) EmptyString.

(** [await self.llm_client.chat(...)] *)
Definition chat_call (req : Request) : Gen JVal := fun s =>
  ([], mkSt (ctx s) (calls s ++ [req]),
   Client.chat py_str (llm_post (length (calls s)) req)).

(** Draining [self.llm_client.chat_stream(...)]: the chunks received and
    the error that ended the stream, if any. *)
Definition stream_call (req : Request) : Gen (list StreamChunk * option LLMError) :=
  fun s =>
    ([], mkSt (ctx s) (calls s ++ [req]),
     Ret (Client.chat_stream (llm_stream (length (calls s)) req))).

(** [tools if tools else None] for [tool_registry.get_schemas(role.tools)] *)
Definition tools_of (role : Role) : option (list JVal) :=
  match get_schemas registry (tools role) with
  | [] => None
  | l => Some l
  end.

(** [t.strip()[:100] + "..." if len(t) > 100 else t.strip()] *)
Definition notice (t : string) : string :=
  if Nat.ltb 100 (str_len t) then str_take 100 (strip t) +:+ "..." else strip t.

Definition FORMAT_INSTRUCTIONS : string := "

## 回复格式要求

1. 信息收集：如果用户问题缺少关键信息（如城市、预算、房屋类型、首付比例等），先礼貌地追问，不要直接给出模糊的回答。

2. 推荐问题：在回复结束后，输出 2-3 个相关的后续问题供用户选择，帮助用户深入了解。格式如下：

【推荐问题】
- 问题1
- 问题2
- 问题3

注意：推荐问题要与当前话题相关，具体且有价值，避免过于宽泛。".

(** The rendering of the result map, one entry per known role. *)
Definition render_results (results : dict string Text) : list string :=
  omap (fun p : string * Text =>
          match get_role p.1 with
          | Some other => Some ("【" +:+ name other +:+ "的分析】" +:+ nl +:+ render_text p.2)
          | None => None
          end) results.

(** [_build_role_messages] *)
Definition _build_role_messages (role : Role) (user_input : string)
  (c : ConversationContext) : list Message :=
  let other_results := render_results (role_results c) in
  let system_content :=
    system_prompt role
    +:+ match other_results with
        | [] => ""
        | _ => nl +:+ nl +:+ "以下是其他专家的分析结果，请参考：" +:+ nl
               +:+ String.concat (nl +:+ nl) other_results
        end
    +:+ FORMAT_INSTRUCTIONS in
  let recent_history := get_recent_history c 5 in
  [plain_message "system" system_content] ++ recent_history
  ++ match last recent_history with
     | Some m =>
         if bool_decide (msg_content m = Some user_input) then []
         else [plain_message "user" user_input]
     | None => [plain_message "user" user_input]
     end.

(** *** Tool calls *)

(** [json.loads(tool_args_str)], with [{}] on a [JSONDecodeError] *)
Definition tool_args_of (tool_args_str : string) : JVal :=
  match json_loads tool_args_str with
  | inl v => v
  | inr _ => JObj []
  end.

(** [tool.execute( **tool_args)]: only a mapping can be unpacked. *)
Definition call_execute (tool : BaseTool) (tool_args : JVal) : JVal + Exc :=
  match tool_args with
  | JObj kwargs => execute tool kwargs
  | _ => inr (ExcOther "TypeError: argument after ** must be a mapping")
  end.

(** [json.dumps({"error": msg}, ensure_ascii=False)] *)
Definition error_payload (msg : string) : string :=
  json_dumps (JObj [("error", JStr msg)]).

(** What one requested call comes to: the text of its tool-result
    message, and whether the tool ran to completion. *)
Definition run_tool (tc : ToolCall) : string * bool :=
  match Tools.get registry (tc_name tc) with
  | Some tool =>
      match call_execute tool (tool_args_of (tc_arguments tc)) with
      | inl result => (json_dumps result, true)
      | inr e => (error_payload (str_exc e), false)
      end
  | None => (error_payload ("工具 " +:+ tc_name tc +:+ " 不存在"), false)
  end.

Definition tool_message (tc : ToolCall) : Message :=
  mkMessage "tool" (Some (run_tool tc).1) None (Some (tc_id tc)).

(** The events of one iteration of [for tool_call in tool_calls]. *)
Definition tool_events (role_id : string) (tc : ToolCall) : list Event :=
  tool_call (tc_name tc) (tc_arguments tc) role_id
  :: (if (run_tool tc).2 then
        [tool_result (tc_name tc) ("工具 " +:+ tc_name tc +:+ " 执行完成") role_id]
      else []).

(** [for tool_call in tool_calls: ...; messages.append({"role": "tool", ...})]:
    the events of the loop and the message list it leaves. *)
Fixpoint run_tools (role_id : string) (tcs : list ToolCall) (messages : list Message)
  : list Event * list Message :=
  match tcs with
  | [] => ([], messages)
  | tc :: r =>
      let rest := run_tools role_id r (messages ++ [tool_message tc]) in
      (tool_events role_id tc ++ rest.1, rest.2)
  end.

Definition deltas_events (role_id : string) (after_tool : bool)
  (chunks : list StreamChunk) : list Event :=
  map (fun d => content_delta role_id d after_tool) (content_deltas chunks).

(** [_handle_tool_calls_stream]; one unit of fuel per tool-calling round. *)
Fixpoint _handle_tool_calls_stream (fuel : nat) (tcs : list ToolCall) (role : Role)
  (messages : list Message) (assistant_content : string) : Gen unit :=
  match fuel with
  | O => diverge
  | S fuel' =>
      let assistant_message :=
        mkMessage "assistant"
          (if String.eqb assistant_content "" then None else Some assistant_content)
          (Some tcs) None in
      let ran := run_tools (id role) tcs (messages ++ [assistant_message]) in
      _ ← yield_all ran.1;
      r ← stream_call (mkRequest ran.2 (tools_of role) true);
      _ ← yield_all (deltas_events (id role) true r.1);
      match r.2 with
      | Some e => raise (ExcLLM e)
      | None =>
          let result := get_result (collect r.1) in
          let full_content := String.concat "" (content_deltas r.1) in
          match tool_calls result with
          | [] => yield (tool_content_complete (id role) full_content)
          | more =>
              _ ← (if String.eqb (strip full_content) "" then mret tt
                   else yield (thinking_step "planning" (notice full_content)
                                             (Some (id role))));
              _handle_tool_calls_stream fuel' more role ran.2 (content result)
          end
      end
  end.

(** The loop body of [_execute_role_stream] over the events of
    [_handle_tool_calls_stream]: the completion event sets
    [tool_content], every other event is sent on. *)
Definition keep_tool_content (tool_content : string) (e : Event) : Gen string :=
  match e with
  | tool_content_complete _ c => mret c
  | _ => _ ← yield e; mret tool_content
  end.

(** [_execute_role_stream] *)
Definition _execute_role_stream (role : Role) (user_input : string) : Gen unit :=
  c ← get_ctx;
  let messages := _build_role_messages role user_input c in
  r ← stream_call (mkRequest messages (tools_of role) true);
  _ ← yield_all (deltas_events (id role) false r.1);
  match r.2 with
  | Some e => raise (ExcLLM e)
  | None =>
      let result := get_result (collect r.1) in
      let sent_content := String.concat "" (content_deltas r.1) in
      full_content ←
        match tool_calls result with
        | [] => mret sent_content
        | tcs =>
            _ ← (if String.eqb (strip sent_content) "" then mret tt
                 else yield (thinking_step "planning" (notice sent_content)
                                           (Some (id role))));
            for_events
              (_handle_tool_calls_stream tool_rounds tcs role messages (content result))
              keep_tool_content ""
        end;
      yield (content_complete (id role) full_content)
  end.

(** The loop bodies of [_execute_node] and [_execute_node_silent]:
    [relay] is true when content increments are forwarded. *)
Definition relay_event (relay : bool) (role : Role) (full_content : string)
  (e : Event) : Gen string :=
  match e with
  | content_delta _ _ _ =>
      if relay then (_ ← yield e; mret full_content) else mret full_content
  | content_complete _ c =>
      _ ← modify_ctx (fun x => set_role_result x (id role) (Some c));
      mret c
  | tool_call _ _ _ | tool_result _ _ _ => _ ← yield e; mret full_content
  | _ => mret full_content
  end.

(** [_execute_node] *)
Definition _execute_node (node : ExecutionNode) (user_input : string) : Gen unit :=
  match get_role (role_id node) with
  | None => mret tt
  | Some role =>
      _ ← yield (role_start (id role) (name role) (icon role) false);
      _ ← yield (thinking_step "role_dispatch" (name role +:+ "正在分析...")
                               (Some (id role)));
      try_gen
        (full_content ← for_events (_execute_role_stream role user_input)
                                   (relay_event true role) "";
         yield (role_result (id role) (Some full_content) false))
        (fun e => yield (role_result (id role) (Some ("执行出错: " +:+ str_exc e)) false))
  end.

(** [_execute_node_silent] *)
Definition _execute_node_silent (node : ExecutionNode) (user_input : string)
  : Gen unit :=
  match get_role (role_id node) with
  | None => mret tt
  | Some role =>
      _ ← yield (thinking_step "role_dispatch" (name role +:+ "正在分析...")
                               (Some (id role)));
      try_gen
        (_ ← for_events (_execute_role_stream role user_input)
                        (relay_event false role) "";
         yield (thinking_step "role_complete" (name role +:+ "分析完成")
                              (Some (id role))))
        (fun e => yield (thinking_step "error"
                           (name role +:+ "分析出错: " +:+ str_exc e) (Some (id role))))
  end.

(** *** The one-shot path of parallel rounds *)

Definition lift {A} (o : Outcome A) : Gen A := fun s => ([], s, o).

Definition as_str (v : JVal) : Outcome string :=
  match v with
  | JStr s => Ret s
  | _ => Raise (ExcOther "TypeError: expected a str")
  end.

(** An entry of [message["tool_calls"]] of a one-shot reply, read as the
    loop of [_handle_tool_calls] reads it, for replies in the provider's
    schema, where name, arguments and id are strs.  Outside the schema
    the entry is not decoded and a [TypeError] is reported: the source
    raises one for arguments that are no str ([json.loads]), but goes on
    with a name or an id of another type, looking the name up in the
    registry.  No statement below is about such replies. *)
Definition decode_tool_call (v : JVal) : Outcome ToolCall :=
  f ← py_get v "function" (JObj []);
  n ← py_get f "name" (JStr "");
  n ← as_str n;
  a ← py_get f "arguments" (JStr "{}");
  a ← as_str a;
  i ← py_get v "id" (JStr "");
  i ← as_str i;
  t ← py_get v "type" (JStr "function");
  mret (mkToolCall i (match t with JStr s => s | _ => "function" end) n a).

(** [if tool_calls:] on [message.get("tool_calls")]: a falsy value means
    no call; a list gives its entries. *)
Definition decode_tool_calls (v : JVal) : Outcome (list ToolCall) :=
  match v with
  | JNull | JBool false | JInt 0 | JStr EmptyString | JArr [] | JObj [] => Ret []
  | JArr l => mapM decode_tool_call l
  | _ => Raise (ExcOther "TypeError: tool_calls is not a list of objects")
  end.

(** [message.get("content", "")]: a str or null in the provider's
    schema; a content of another type is outside the model. *)
Definition as_text (v : JVal) : Outcome Text :=
  match v with
  | JStr s => Ret (Some s)
  | JNull => Ret None
  | _ => Raise (ExcOther "TypeError: content is neither a str nor null")
  end.

(** The body of [_process_llm_response_with_events], given the function
    that handles requested calls. *)
Definition process_with
  (handle : list ToolCall -> Role -> list Message -> Text -> bool -> Gen (Text * list Event))
  (response : JVal) (role : Role) (messages : list Message) (emit_events : bool)
  : Gen (Text * list Event) :=
  d ← lift (choices ← py_get response "choices" (JArr [JObj []]);
            choice ← py_index0 choices;
            message ← py_get choice "message" (JObj []);
            tcv ← py_get message "tool_calls" JNull;
            tcs ← decode_tool_calls tcv;
            cv ← py_get message "content" (JStr "");
            content ← as_text cv;
            mret (tcs, content));
  match d.1 with
  | [] => mret (d.2, [])
  | tcs => handle tcs role messages d.2 emit_events
  end.

(** [_handle_tool_calls]; one unit of fuel per tool-calling round. *)
Fixpoint _handle_tool_calls (fuel : nat) (tcs : list ToolCall) (role : Role)
  (messages : list Message) (assistant_content : Text) (emit_events : bool)
  : Gen (Text * list Event) :=
  match fuel with
  | O => diverge
  | S fuel' =>
      let thinking :=
        match assistant_content with
        | Some t =>
            if negb (String.eqb t "") && negb (String.eqb (strip t) "") && emit_events
            then [thinking_step "planning" (notice t) (Some (id role))]
            else []
        | None => []
        end in
      let assistant_message := mkMessage "assistant" assistant_content (Some tcs) None in
      let ran := run_tools (id role) tcs (messages ++ [assistant_message]) in
      response ← chat_call (mkRequest ran.2 (tools_of role) false);
      r ← process_with (_handle_tool_calls fuel') response role ran.2 emit_events;
      mret (r.1, thinking ++ (if emit_events then ran.1 else []) ++ r.2)
  end.

Definition _process_llm_response_with_events (response : JVal) (role : Role)
  (messages : list Message) (emit_events : bool) : Gen (Text * list Event) :=
  process_with (_handle_tool_calls tool_rounds) response role messages emit_events.

(** [_execute_role] *)
Definition _execute_role (role : Role) (user_input : string) (emit_events : bool)
  : Gen (Text * list Event) :=
  c ← get_ctx;
  let messages := _build_role_messages role user_input c in
  response ← chat_call (mkRequest messages (tools_of role) false);
  _process_llm_response_with_events response role messages emit_events.

(** [_execute_role_async] *)
Definition _execute_role_async (node : ExecutionNode) (user_input : string)
  : Gen (RoleResult * list Event) :=
  match get_role (role_id node) with
  | None =>
      mret (mkRoleResult (role_id node) "未知角色" "❓" (Some "角色不存在") false
                         "角色不存在", [])
  | Some role =>
      try_gen
        (r ← _execute_role role user_input true;
         mret (mkRoleResult (id role) (name role) (icon role) r.1 true "", r.2))
        (fun e =>
           mret (mkRoleResult (id role) (name role) (icon role)
                              (Some ("执行出错: " +:+ str_exc e)) false (str_exc e), []))
  end.

(** *** DAG scheduling ([_process_dag_mode]) *)

(** The [role_start] and [thinking_step] events sent before a parallel
    round. *)
Definition dispatch_events (ready_nodes : list ExecutionNode) : list Event :=
  flat_map (fun node =>
              match get_role (role_id node) with
              | Some role =>
                  [ role_start (id role) (name role) (icon role) false;
                    thinking_step "role_dispatch" (name role +:+ "正在分析...")
                                  (Some (id role)) ]
              | None => []
              end) ready_nodes.

(** [for node, result in zip(ready_nodes, results)] *)
Fixpoint publish_results
  (pairs : list (ExecutionNode * ((RoleResult * list Event) + Exc))) : Gen unit :=
  match pairs with
  | [] => mret tt
  | (node, result) :: rest =>
      _ ← match result with
          | inr e =>
              yield (role_result (role_id node) (Some ("执行出错: " +:+ str_exc e)) false)
          | inl (res, events) =>
              _ ← modify_ctx (fun x => set_role_result x (role_id node) (rr_content res));
              _ ← yield_all events;
              yield (role_result (rr_role_id res) (rr_content res) false)
          end;
      publish_results rest
  end.

(** How a round is run. *)
Inductive RoundMode := Silent | Live | Parallel.

Definition round_mode (plan : ExecutionPlan) (completed : gset string)
  (ready_nodes : list ExecutionNode) : RoundMode :=
  let total_nodes := length (nodes plan) in
  let is_multi_expert := Nat.ltb 1 total_nodes in
  let is_last_batch := Nat.eqb (size completed + length ready_nodes) total_nodes in
  match ready_nodes with
  | [_] => if is_multi_expert && negb is_last_batch then Silent else Live
  | _ => Parallel
  end.

(** One iteration of [while True] for a non-empty ready list: the
    completed set it leaves. *)
Definition run_round (plan : ExecutionPlan) (user_input : string)
  (completed : gset string) (ready_nodes : list ExecutionNode) : Gen (gset string) :=
  match ready_nodes with
  | [node] =>
      _ ← match round_mode plan completed ready_nodes with
          | Silent => _execute_node_silent node user_input
          | _ => _execute_node node user_input
          end;
      mret (completed ∪ {[ role_id node ]})
  | _ =>
      _ ← yield_all (dispatch_events ready_nodes);
      results ← gather (map (fun node => _execute_role_async node user_input) ready_nodes);
      _ ← publish_results (zip ready_nodes results);
      mret (completed ∪ list_to_set (map role_id ready_nodes))
  end.

(** A scheduling round as run: its ready nodes, its mode and the events
    it sent. *)
Record Round := mkRound {
  round_nodes : list ExecutionNode;
  round_kind : RoundMode;
  round_events : list Event
}.

(** The [while True] loop, round by round; one unit of fuel per round. *)
Fixpoint dag_rounds (fuel : nat) (plan : ExecutionPlan) (user_input : string)
  (completed : gset string) (s : St) : list Round * St * Outcome unit :=
  match get_ready_nodes plan completed with
  | [] => ([], s, Ret tt)
  | ready_nodes =>
      match fuel with
      | O => ([], s, Diverge)
      | S fuel' =>
          let kind := round_mode plan completed ready_nodes in
          match run_round plan user_input completed ready_nodes s with
          | (evs, s1, Ret completed') =>
              match dag_rounds fuel' plan user_input completed' s1 with
              | (rs, s2, o) => (mkRound ready_nodes kind evs :: rs, s2, o)
              end
          | (evs, s1, Raise e) => ([mkRound ready_nodes kind evs], s1, Raise e)
          | (evs, s1, Diverge) => ([mkRound ready_nodes kind evs], s1, Diverge)
          end
      end
  end.

(** The rounds of a plan: no plan needs more rounds than it has nodes. *)
Definition plan_rounds (plan : ExecutionPlan) (user_input : string) (s : St)
  : list Round * St * Outcome unit :=
  dag_rounds (S (length (nodes plan))) plan user_input ∅ s.

Definition dag_loop (plan : ExecutionPlan) (user_input : string) : Gen unit :=
  fun s =>
    match plan_rounds plan user_input s with
    | (rs, s', o) => (concat (map round_events rs), s', o)
    end.

(** The [synthesis_prompt] of [_synthesize_results], over the rendered
    results. *)
Definition synthesis_prompt (user_input : string) (results_text : list string) : string :=
    "基于以下各专家的分析，为用户提供简洁的综合建议。

用户问题：" +:+ user_input +:+ "

各专家分析：
" +:+ String.concat nl results_text +:+ "

请综合以上信息，给出：
1. 核心结论（一句话总结）
2. 关键要点（3-5条）
3. 建议下一步行动

注意：不要重复专家已经说过的详细内容，只做提炼和整合。

最后，在回复结束后输出 2-3 个相关的后续问题供用户选择，格式如下：

【推荐问题】
- 问题1
- 问题2
- 问题3".

(** [_synthesize_results] *)
Definition _synthesize_results (user_input : string) : Gen unit :=
  c ← get_ctx;
  let results_text := render_results (role_results c) in
  match get_role "purchase_consultant" with
  | None => raise (ExcOther "AttributeError: 'NoneType' object has no attribute 'system_prompt'")
  | Some consultant =>
      r ← stream_call (mkRequest [ plain_message "system" (system_prompt consultant);
                                   plain_message "user"
                                     (synthesis_prompt user_input results_text) ]
                                 None true);
      _ ← yield_all (deltas_events (id consultant) false r.1);
      match r.2 with
      | Some e => raise (ExcLLM e)
      | None =>
          yield (content_complete (id consultant)
                                  (String.concat "" (content_deltas r.1)))
      end
  end.

(** The loop body of [_process_dag_mode] over the events of
    [_synthesize_results]: increments are sent on, the completion event
    sets [summary]. *)
Definition keep_summary (summary : string) (e : Event) : Gen string :=
  match e with
  | content_delta _ _ _ => _ ← yield e; mret summary
  | content_complete _ c => mret c
  | _ => mret summary
  end.

(** The synthesis step of [_process_dag_mode]. *)
Definition synthesize_if_needed (user_input : string) : Gen unit :=
  c ← get_ctx;
  if Nat.ltb 1 (length (role_results c))
     && negb (dict_mem (role_results c) "purchase_consultant")
  then
    _ ← yield (thinking_step "synthesizing" "正在整合各专家意见，生成综合建议..." None);
    match get_role "purchase_consultant" with
    | None => raise (ExcOther "AttributeError: 'NoneType' object has no attribute 'id'")
    | Some consultant =>
        _ ← yield (role_start (id consultant) (name consultant) (icon consultant) true);
        summary ← for_events (_synthesize_results user_input) keep_summary "";
        _ ← modify_ctx (fun x => set_role_result x "purchase_consultant" (Some summary));
        yield (role_result (id consultant) (Some summary) true)
    end
  else mret tt.

(** The result saved to the history: the synthesizer's, or the last value
    of the result map. *)
Definition final_result (results : dict string Text) : option Text :=
  match results with
  | [] => None
  | _ =>
      match dict_get results "purchase_consultant" with
      | Some r => Some r
      | None => last (dict_values results)
      end
  end.

Definition save_final_result : Gen unit :=
  c ← get_ctx;
  match final_result (role_results c) with
  | Some r => modify_ctx (fun x => add_message x "assistant" r)
  | None => mret tt
  end.

(** [_process_dag_mode] *)
Definition _process_dag_mode (user_input : string) (plan : ExecutionPlan) : Gen unit :=
  _ ← modify_ctx (fun x => set_role_results x []);
  _ ← dag_loop plan user_input;
  _ ← synthesize_if_needed user_input;
  save_final_result.

End Turn.

End Engine.

(* ================================================================== *)
(** ** More of the tool registry ([app/agent/tools/registry.py]) *)
(* ================================================================== *)

Module Registry.
Import Tools.

(** [ToolRegistry.exists]: [name in self._tools] *)
Definition exists_ (reg : gmap string BaseTool) (name : string) : bool :=
  bool_decide (is_Some (reg !! name)).

(** [ToolRegistry.clear] *)
Definition clear (reg : gmap string BaseTool) : gmap string BaseTool := ∅.

End Registry.

(* ================================================================== *)
(** ** Sample turns *)
(* ================================================================== *)

(** Concrete collaborators for examples: the role table above, an empty
    tool registry, and a model whose [n]-th exchange of the turn is
    [post n] when one-shot and [stream n] when streaming. *)
Module Samples.
Import Client Tools Intent Engine.

Definition chunk (t : string) : StreamChunk := mkChunk t None None.

Definition reply (t : string) : JVal :=
  JObj [("choices", JArr [JObj [("message", JObj [("content", JStr t)])]])].

Definition world_with (post : nat -> PostResult) (stream : nat -> StreamAttempt) : World :=
  mkWorld Roles.get_role ∅ (fun _ => inr "Expecting value") (fun _ => "{}") (fun _ => "")
          (fun t => t) String.length (fun n t => substring 0 n t)
          (fun n _ => post n) (fun n _ => stream n) 3.

(** Every one-shot exchange is answered with the text [whole]. *)
Definition whole (n : nat) : PostResult := PostResponse 200 (inl (reply "whole")).

(** The first one-shot exchange of the turn times out. *)
Definition first_post_times_out (n : nat) : PostResult :=
  match n with
  | O => PostFailure (TimeoutException "timed out")
  | _ => whole n
  end.

Definition world (stream : nat -> StreamAttempt) : World := world_with whole stream.

(** Every streaming exchange delivers the text [partial] in two chunks. *)
Definition steady (n : nat) : StreamAttempt :=
  StreamResponse 200 [chunk "par"; chunk "tial"] None.

(** The first streaming exchange of the turn times out. *)
Definition first_times_out (n : nat) : StreamAttempt :=
  match n with
  | O => StreamFailure (TimeoutException "timed out")
  | _ => steady n
  end.

Definition fresh : St := mkSt (mkContext "session" [] JNull []) [].

(** Two specialists without dependencies. *)
Definition independent_plan : ExecutionPlan :=
  mkPlan [mkNode "policy_expert" []; mkNode "financial_advisor" []] JNull.

(** The second specialist depends on the first. *)
Definition chain_plan : ExecutionPlan :=
  mkPlan [mkNode "policy_expert" []; mkNode "financial_advisor" ["policy_expert"]] JNull.

End Samples.

(* ================================================================== *)
(** * Properties *)
(* ================================================================== *)

(** ** Texts *)

Lemma string_app_nil_r (a : string) : a +:+ "" = a.
Proof.
  induction a as [|c a IH]; [done|].
  change (String c a +:+ "") with (String c (a +:+ "")). by rewrite IH.
Qed.

Lemma string_app_assoc (a b c : string) : (a +:+ b) +:+ c = a +:+ (b +:+ c).
Proof.
  induction a as [|x a IH]; [done|].
  change (String x ((a +:+ b) +:+ c) = String x (a +:+ (b +:+ c))). by rewrite IH.
Qed.

(** ** Dictionaries *)

Section DictFacts.
Context {K V : Type} `{EqDecision K}.
Implicit Types (d : dict K V) (k : K) (v : V).

Lemma dict_get_set_eq d k v : dict_get (dict_set d k v) k = Some v.
Proof.
  induction d as [|[k' v'] d IH]; simpl.
  - by rewrite decide_True.
  - destruct (decide (k = k')) as [->|Hne]; simpl.
    + by rewrite decide_True.
    + by rewrite decide_False.
Qed.

Lemma dict_get_set_ne d k k' v : k ≠ k' -> dict_get (dict_set d k v) k' = dict_get d k'.
Proof.
  intros Hne. induction d as [|[k0 v0] d IH]; simpl.
  - by rewrite decide_False.
  - destruct (decide (k = k0)) as [->|Hne0]; simpl.
    + by rewrite !decide_False.
    + destruct (decide (k' = k0)); done.
Qed.

Lemma dict_get_set d k k' v :
  dict_get (dict_set d k v) k' = if decide (k = k') then Some v else dict_get d k'.
Proof.
  destruct (decide (k = k')) as [->|Hne].
  - apply dict_get_set_eq.
  - by apply dict_get_set_ne.
Qed.

Lemma dict_get_Some_keys d k v : dict_get d k = Some v -> k ∈ dict_keys d.
Proof.
  induction d as [|[k' v'] d IH]; simpl; [done|].
  destruct (decide (k = k')) as [->|Hne]; intros Hg.
  - apply list_elem_of_here.
  - apply list_elem_of_further. by apply IH.
Qed.

Lemma dict_get_None_keys d k : dict_get d k = None <-> k ∉ dict_keys d.
Proof.
  induction d as [|[k' v'] d IH]; simpl.
  - split; [intros _ Hin; by apply not_elem_of_nil in Hin | done].
  - destruct (decide (k = k')) as [->|Hne].
    + split; [done|]. intros Hn. exfalso. apply Hn, list_elem_of_here.
    + rewrite IH. unfold dict_keys. simpl. rewrite not_elem_of_cons.
      split; [by split | by intros [_ ?]].
Qed.

Lemma dict_keys_get d k : k ∈ dict_keys d -> is_Some (dict_get d k).
Proof.
  intros Hin. destruct (dict_get d k) eqn:E; [eauto|].
  by apply dict_get_None_keys in E.
Qed.

(** Assigning to a present key changes neither the keys nor their order. *)
Lemma dict_keys_set_present d k v :
  k ∈ dict_keys d -> dict_keys (dict_set d k v) = dict_keys d.
Proof.
  induction d as [|[k' v'] d IH]; simpl.
  - intros Hin. by apply not_elem_of_nil in Hin.
  - intros Hin. destruct (decide (k = k')) as [->|Hne]; simpl; [done|].
    unfold dict_keys in *. simpl in *. f_equal. apply IH.
    apply elem_of_cons in Hin as [?|?]; done.
Qed.

(** Assigning to a new key appends it. *)
Lemma dict_set_absent d k v :
  k ∉ dict_keys d -> dict_set d k v = d ++ [(k, v)].
Proof.
  induction d as [|[k' v'] d IH]; simpl; [done|].
  unfold dict_keys. simpl. rewrite not_elem_of_cons. intros [Hne Hn].
  rewrite decide_False by done. f_equal. by apply IH.
Qed.

Lemma dict_keys_set d k v :
  dict_keys (dict_set d k v) = if decide (k ∈ dict_keys d) then dict_keys d else dict_keys d ++ [k].
Proof.
  case_decide as Hin.
  - by apply dict_keys_set_present.
  - rewrite dict_set_absent by done. unfold dict_keys. by rewrite map_app.
Qed.

Lemma dict_mem_keys d k : dict_mem d k = true <-> k ∈ dict_keys d.
Proof.
  unfold dict_mem. split.
  - destruct (dict_get d k) eqn:E; [|done]. intros _. by eapply dict_get_Some_keys.
  - intros Hin. by destruct (dict_keys_get d k Hin) as [v ->].
Qed.

End DictFacts.

(** ** The streamed result accumulator *)

Section CollectorFacts.
Import Client.

(** The fields a delta carries, as [add_chunk] reads them. *)
Definition delta_index (tc : ToolCallDelta) : Z :=
  match d_index tc with Some i => i | None => 0%Z end.
Definition delta_name (tc : ToolCallDelta) : option string :=
  match d_function tc with Some f => fd_name f | None => None end.
Definition delta_arguments (tc : ToolCallDelta) : option string :=
  match d_function tc with Some f => fd_arguments f | None => None end.

Lemma add_delta_first calls tc :
  dict_get calls (delta_index tc) = None ->
  add_delta calls tc =
    dict_set calls (delta_index tc)
      (mkToolCall (or_default (d_id tc) "") (or_default (d_type tc) "function")
                  (or_default (delta_name tc) "") (or_default (delta_arguments tc) "")).
Proof.
  unfold add_delta, delta_index, delta_name, delta_arguments. intros ->.
  by destruct (d_function tc).
Qed.

Lemma add_delta_later calls tc call :
  dict_get calls (delta_index tc) = Some call ->
  dict_get (add_delta calls tc) (delta_index tc) =
    Some (mkToolCall (tc_id call) (tc_type call) (tc_name call)
                     (tc_arguments call +:+ or_default (delta_arguments tc) ""))
  /\ dict_keys (add_delta calls tc) = dict_keys calls.
Proof.
  unfold add_delta, delta_index, delta_arguments. intros Hg.
  assert (Hid : mkToolCall (tc_id call) (tc_type call) (tc_name call)
                  (tc_arguments call +:+ "") = call).
  { destruct call as [i t n a]; simpl. f_equal. apply string_app_nil_r. }
  rewrite Hg.
  destruct (d_function tc) as [[n [frag|]]|]; simpl; rewrite ?Hid; try done.
  split; [apply dict_get_set_eq|].
  apply dict_keys_set_present. by eapply dict_get_Some_keys.
Qed.

Lemma add_delta_other calls tc j :
  j ≠ delta_index tc -> dict_get (add_delta calls tc) j = dict_get calls j.
Proof.
  unfold add_delta. fold (delta_index tc). intros Hne.
  destruct (dict_get calls (delta_index tc)) as [call|].
  - destruct (d_function tc) as [[n [frag|]]|]; try done.
    by apply dict_get_set_ne.
  - by apply dict_get_set_ne.
Qed.

(** The double quote, which a string literal cannot hold here. *)
Definition dq : string := String (ascii_of_nat 34) EmptyString.

(** The deltas [{index:0, name:"f", arguments:"{\"a\":"}] and
    [{index:0, arguments:"1}"}], one per chunk. *)
Definition first_delta : ToolCallDelta :=
  mkDelta (Some 0%Z) None None
          (Some (mkFunctionDelta (Some "f") (Some ("{" +:+ dq +:+ "a" +:+ dq +:+ ":")))).
Definition second_delta : ToolCallDelta :=
  mkDelta (Some 0%Z) None None (Some (mkFunctionDelta None (Some "1}"))).

(** C4.  In the accumulator the first delta at an index creates the
    tool-call record from that delta's id, type, name and arguments (a
    missing field being the empty string, a missing type ["function"]);
    every later delta at that index appends its arguments fragment, if it
    has one, and changes nothing else: neither the record's other fields,
    nor the other records, nor the order of the records.  The two deltas
    of the specification's example give one call named f whose argument
    string is the JSON text of an object mapping a to 1. *)
Theorem collector_reassembles_tool_calls :
  (forall calls tc,
      dict_get calls (delta_index tc) = None ->
      dict_get (add_delta calls tc) (delta_index tc) =
        Some (mkToolCall (or_default (d_id tc) "") (or_default (d_type tc) "function")
                         (or_default (delta_name tc) "")
                         (or_default (delta_arguments tc) "")))
  /\ (forall calls tc call,
      dict_get calls (delta_index tc) = Some call ->
      dict_get (add_delta calls tc) (delta_index tc) =
        Some (mkToolCall (tc_id call) (tc_type call) (tc_name call)
                         (tc_arguments call +:+ or_default (delta_arguments tc) ""))
      /\ dict_keys (add_delta calls tc) = dict_keys calls)
  /\ (forall calls tc j,
      j ≠ delta_index tc -> dict_get (add_delta calls tc) j = dict_get calls j)
  /\ tool_calls (get_result (collect [ mkChunk "" (Some [first_delta]) None;
                                       mkChunk "" (Some [second_delta]) (Some "tool_calls") ]))
     = [ mkToolCall "" "function" "f" ("{" +:+ dq +:+ "a" +:+ dq +:+ ":1}") ].
Proof.
  split; [|split; [|split]].
  - intros calls tc Hnone. rewrite add_delta_first by done. apply dict_get_set_eq.
  - apply add_delta_later.
  - apply add_delta_other.
  - reflexivity.
Qed.

End CollectorFacts.

(** ** The failure taxonomy of the model client *)

Section ClientFacts.
Import Client.

(** The classes with their codes. *)
Definition taxonomy : list (LLMErrorClass * Z) :=
  [ (LLMTimeoutError, 1001%Z); (LLMAuthError, 1002%Z);
    (LLMRateLimitError, 1003%Z); (LLMUnknownError, 1099%Z) ].

Definition in_taxonomy (e : LLMError) : Prop := (err_class e, code e) ∈ taxonomy.

Lemma unknown_in_taxonomy m : in_taxonomy (new_LLMUnknownError m).
Proof. unfold in_taxonomy, taxonomy. simpl. set_solver. Qed.

Lemma translate_in_taxonomy prefix e :
  (forall e', e = ExcLLM e' -> in_taxonomy e') -> in_taxonomy (translate_exception prefix e).
Proof.
  intros H. destruct e; simpl; try apply unknown_in_taxonomy.
  - by apply H.
  - unfold in_taxonomy, taxonomy. simpl. set_solver.
Qed.

Lemma check_status_raises py_str status body exc :
  _check_response_status py_str status body = Raise exc ->
  exists e, exc = ExcLLM e /\ in_taxonomy e.
Proof.
  unfold _check_response_status.
  repeat case_match; intros [= <-]; eexists; (split; [reflexivity|]);
    try apply unknown_in_taxonomy; unfold in_taxonomy, taxonomy; simpl; set_solver.
Qed.

Lemma check_status_no_diverge py_str status body :
  _check_response_status py_str status body ≠ Diverge.
Proof. unfold _check_response_status. by repeat case_match. Qed.

(** Two exchanges that differ at most in text that comes from the
    provider or the transport: the same failure class, or the same status
    code. *)
Definition same_shape (r r' : PostResult) : Prop :=
  match r, r' with
  | PostFailure (TimeoutException _), PostFailure (TimeoutException _)
  | PostFailure (ConnectError _), PostFailure (ConnectError _)
  | PostFailure (OtherException _), PostFailure (OtherException _) => True
  | PostResponse s _, PostResponse s' _ => s = s'
  | _, _ => False
  end.

(** The last part of the claim: the message of a raised error does not
    depend on such text. *)
Definition message_free_of_provider_text : Prop :=
  forall py_str r r' e e',
    same_shape r r' ->
    chat py_str r = Raise (ExcLLM e) -> chat py_str r' = Raise (ExcLLM e') ->
    message e = message e'.

(** An HTTP 400 reply whose body carries the provider's error message. *)
Definition bad_request (provider_message : string) : PostResult :=
  PostResponse 400 (inl (JObj [("error", JObj [("message", JStr provider_message)])])).

Example chat_bad_request py_str m :
  chat py_str (bad_request m) = Raise (ExcLLM (new_LLMUnknownError ("API 调用失败: " +:+ m))).
Proof. reflexivity. Qed.

(** C7, counterexample.  The message of the error raised for an HTTP 400
    reply embeds the error message of the provider's response body: two
    such replies with different bodies give different messages. *)
Lemma message_embeds_provider_text : ~ message_free_of_provider_text.
Proof.
  intros H.
  specialize (H (fun _ => "") (bad_request "invalid key sk-1") (bad_request "quota") _ _
                eq_refl (chat_bad_request _ _) (chat_bad_request _ _)).
  discriminate H.
Qed.

(** A status code that no branch of the status check names: below 500
    and none of 200, 401 and 429. *)
Definition other_status (status : Z) : Prop :=
  (status < 500)%Z /\ status ≠ 200%Z /\ status ≠ 401%Z /\ status ≠ 429%Z.

Lemma other_status_tests status :
  other_status status ->
  (status =? 401)%Z = false /\ (status =? 429)%Z = false
  /\ (500 <=? status)%Z = false /\ (status =? 200)%Z = false.
Proof.
  intros (Hlt & H200 & H401 & H429).
  repeat split; first [by apply Z.eqb_neq | by apply Z.leb_gt].
Qed.

(** What [chat] raises for such a status, by the text its message ends
    with. *)
Lemma chat_other_status py_str status body :
  other_status status ->
  chat py_str (PostResponse status body)
  = Raise (ExcLLM (new_LLMUnknownError
       ("API 调用失败: "
        +:+ match (match body with
                   | inl error_data =>
                       err ← py_get error_data "error" (JObj []);
                       py_get err "message" (JStr "未知错误")
                   | inr msg => Raise (ExcOther msg)
                   end) with
            | Ret m => format_value py_str m
            | _ => "HTTP " +:+ str_of_int status
            end))).
Proof.
  intros (E1 & E2 & E3 & E4)%other_status_tests.
  unfold chat, _check_response_status. by rewrite E1, E2, E3, E4.
Qed.

(** C7, as amended.  Every error [chat] or [chat_stream] raises is an
    [LLMError] of one of the four classes with its code.  A transport
    timeout gives the timeout error; a connection failure, HTTP 401,
    HTTP 429 and HTTP >= 500 give the unknown, auth, rate-limit and
    unknown errors, each with a fixed message.  The message is not fixed
    in the other cases.  For any other status than 200, [chat] puts
    after a fixed prefix the [message] of the [error] object of the
    response body; the fixed text [未知错误] when the body is an object
    without [error], or its [error] object has no [message]; and the
    status code when the body is not JSON, is not an object, or its
    [error] is not an object.  [chat_stream] does not read the body: it
    puts the status code after the prefix.  For a malformed payload or
    any other exception the message is a fixed prefix followed by the
    text of that exception. *)
Theorem client_error_taxonomy (py_str : JVal -> string) :
  (forall r, chat py_str r ≠ Diverge
             /\ forall exc, chat py_str r = Raise exc ->
                            exists e, exc = ExcLLM e /\ in_taxonomy e)
  /\ (forall a e, (chat_stream a).2 = Some e -> in_taxonomy e)
  /\ (forall d, chat py_str (PostFailure (TimeoutException d))
                = Raise (ExcLLM (mkLLMError LLMTimeoutError 1001 "服务响应超时，请稍后重试")))
  /\ (forall d, chat py_str (PostFailure (ConnectError d))
                = Raise (ExcLLM (mkLLMError LLMUnknownError 1099
                                            "无法连接到 DeepSeek 服务，请检查网络")))
  /\ (forall body, chat py_str (PostResponse 401 body)
                   = Raise (ExcLLM (mkLLMError LLMAuthError 1002 "服务配置错误，请联系管理员")))
  /\ (forall body, chat py_str (PostResponse 429 body)
                   = Raise (ExcLLM (mkLLMError LLMRateLimitError 1003
                                               "请求过于频繁，请稍后重试")))
  /\ (forall status body, (500 <= status)%Z ->
        chat py_str (PostResponse status body)
        = Raise (ExcLLM (mkLLMError LLMUnknownError 1099
                                    "DeepSeek 服务暂时不可用，请稍后重试")))
  /\ (forall data, chat py_str (PostResponse 200 (inl data)) = Ret data)
  /\ (forall msg, chat py_str (PostResponse 200 (inr msg))
                  = Raise (ExcLLM (mkLLMError LLMUnknownError 1099
                                     ("调用 DeepSeek API 时发生错误: " +:+ msg))))
  /\ (forall d, chat py_str (PostFailure (OtherException d))
                = Raise (ExcLLM (mkLLMError LLMUnknownError 1099
                                   ("调用 DeepSeek API 时发生错误: " +:+ d))))
  /\ (forall status kv ekv v, other_status status ->
        dict_get kv "error" = Some (JObj ekv) ->
        dict_get ekv "message" = Some v ->
        chat py_str (PostResponse status (inl (JObj kv)))
        = Raise (ExcLLM (mkLLMError LLMUnknownError 1099
                           ("API 调用失败: "
                            +:+ match v with JStr m => m | _ => py_str v end))))
  /\ (forall status kv, other_status status ->
        dict_get kv "error" = None
        \/ (exists ekv, dict_get kv "error" = Some (JObj ekv)
                        /\ dict_get ekv "message" = None) ->
        chat py_str (PostResponse status (inl (JObj kv)))
        = Raise (ExcLLM (mkLLMError LLMUnknownError 1099 "API 调用失败: 未知错误")))
  /\ (forall status body, other_status status ->
        (exists msg, body = inr msg)
        \/ (exists v, body = inl v /\ forall kv, v ≠ JObj kv)
        \/ (exists kv e, body = inl (JObj kv) /\ dict_get kv "error" = Some e
                         /\ forall ekv, e ≠ JObj ekv) ->
        chat py_str (PostResponse status body)
        = Raise (ExcLLM (mkLLMError LLMUnknownError 1099
                           ("API 调用失败: HTTP " +:+ str_of_int status))))
  /\ (forall d, chat_stream (StreamFailure (TimeoutException d))
                = ([], Some (mkLLMError LLMTimeoutError 1001 "服务响应超时，请稍后重试")))
  /\ (forall d, chat_stream (StreamFailure (ConnectError d))
                = ([], Some (mkLLMError LLMUnknownError 1099
                                        "无法连接到 DeepSeek 服务，请检查网络")))
  /\ (forall d, chat_stream (StreamFailure (OtherException d))
                = ([], Some (mkLLMError LLMUnknownError 1099
                               ("流式调用 DeepSeek API 时发生错误: " +:+ d))))
  /\ (forall chunks ending,
        chat_stream (StreamResponse 401 chunks ending)
        = ([], Some (mkLLMError LLMAuthError 1002 "服务配置错误，请联系管理员"))
        /\ chat_stream (StreamResponse 429 chunks ending)
           = ([], Some (mkLLMError LLMRateLimitError 1003 "请求过于频繁，请稍后重试")))
  /\ (forall status chunks ending, (500 <= status)%Z ->
        chat_stream (StreamResponse status chunks ending)
        = ([], Some (mkLLMError LLMUnknownError 1099 "DeepSeek 服务暂时不可用")))
  /\ (forall status chunks ending, other_status status ->
        chat_stream (StreamResponse status chunks ending)
        = ([], Some (mkLLMError LLMUnknownError 1099
                       ("API 调用失败: HTTP " +:+ str_of_int status))))
  /\ (forall chunks ending,
        chat_stream (StreamResponse 200 chunks ending)
        = (chunks,
           match ending with
           | None => None
           | Some (TimeoutException _) =>
               Some (mkLLMError LLMTimeoutError 1001 "服务响应超时，请稍后重试")
           | Some (ConnectError _) =>
               Some (mkLLMError LLMUnknownError 1099 "无法连接到 DeepSeek 服务，请检查网络")
           | Some (OtherException d) =>
               Some (mkLLMError LLMUnknownError 1099
                       ("流式调用 DeepSeek API 时发生错误: " +:+ d))
           end)).
Proof.
  assert (Hhigh : forall status, (500 <= status)%Z ->
            (status =? 401)%Z = false /\ (status =? 429)%Z = false
            /\ (500 <=? status)%Z = true).
  { intros status Hge. repeat split; first [apply Z.eqb_neq; lia | apply Z.leb_le; lia]. }
  split; [|split]; [| |repeat apply conj].
  - intros r. split.
    + destruct r as [[]|status body]; try done.
      unfold chat.
      destruct (_check_response_status py_str status body) eqn:E; simpl; try done.
      * by destruct body.
      * by apply check_status_no_diverge in E.
    + intros exc. destruct r as [[]|status body].
      * intros [= <-]. eexists; split; [done|]. unfold in_taxonomy, taxonomy. simpl. set_solver.
      * intros [= <-]. eexists; split; [done|]. apply unknown_in_taxonomy.
      * intros [= <-]. eexists; split; [done|]. apply unknown_in_taxonomy.
      * unfold chat.
        destruct (_check_response_status py_str status body) eqn:E; simpl.
        -- destruct body; simpl; [done|]. intros [= <-].
           eexists; split; [done|]. apply unknown_in_taxonomy.
        -- intros [= <-]. eexists; split; [done|].
           apply check_status_raises in E as (e' & -> & He'). by simpl.
        -- done.
  - intros a e. destruct a as [[]|status chunks ending]; simpl.
    + intros [= <-]. unfold in_taxonomy, taxonomy. simpl. set_solver.
    + intros [= <-]. apply unknown_in_taxonomy.
    + intros [= <-]. apply unknown_in_taxonomy.
    + destruct (status =? 401)%Z; simpl.
      { intros [= <-]. unfold in_taxonomy, taxonomy. simpl. set_solver. }
      destruct (status =? 429)%Z; simpl.
      { intros [= <-]. unfold in_taxonomy, taxonomy. simpl. set_solver. }
      destruct (500 <=? status)%Z; simpl.
      { intros [= <-]. apply unknown_in_taxonomy. }
      destruct (negb (status =? 200)%Z); simpl.
      { intros [= <-]. apply unknown_in_taxonomy. }
      destruct ending as [[]|]; simpl; [| | |done]; intros [= <-];
        try apply unknown_in_taxonomy.
      unfold in_taxonomy, taxonomy. simpl. set_solver.
  - done.
  - done.
  - done.
  - done.
  - intros status body (E1 & E2 & E3)%Hhigh. unfold chat, _check_response_status.
    by rewrite E1, E2, E3.
  - done.
  - done.
  - done.
  - intros status kv ekv v Hother Herr Hmsg. rewrite chat_other_status by done.
    simpl. rewrite Herr. simpl. rewrite Hmsg. by destruct v.
  - intros status kv Hother Hcase. rewrite chat_other_status by done.
    simpl. destruct Hcase as [Herr|(ekv & Herr & Hmsg)]; rewrite Herr; simpl; [done|].
    by rewrite Hmsg.
  - intros status body Hother Hcase. rewrite chat_other_status by done.
    destruct Hcase as [[msg ->]|[(v & -> & Hv)|(kv & e & -> & Herr & He)]]; [done| |].
    + destruct v; try done. by destruct (Hv kv).
    + simpl. rewrite Herr. simpl. destruct e; try done. by destruct (He kv0).
  - done.
  - done.
  - done.
  - done.
  - intros status chunks ending (E1 & E2 & E3)%Hhigh. unfold chat_stream.
    by rewrite E1, E2, E3.
  - intros status chunks ending (E1 & E2 & E3 & E4)%other_status_tests.
    unfold chat_stream. by rewrite E1, E2, E3, E4.
  - intros chunks ending. by destruct ending as [[]|].
Qed.

End ClientFacts.

(** ** Tool parameter validation *)

Section ToolFacts.
Import Tools.

Definition declared_types : list string := ["string"; "number"; "integer"; "boolean"].

(** The three reasons for which a parameter is refused. *)
Definition missing_required (kwargs : dict string JVal) (p : ToolParameter) : Prop :=
  p_required p = true /\ dict_get kwargs (p_name p) = None.

Definition type_mismatch (kwargs : dict string JVal) (p : ToolParameter) : Prop :=
  exists v, dict_get kwargs (p_name p) = Some v /\ _check_type v (p_type p) = false.

Definition outside_enum (kwargs : dict string JVal) (p : ToolParameter) : Prop :=
  exists v e es, dict_get kwargs (p_name p) = Some v
                 /\ p_enum p = Some (e :: es) /\ in_enum v (e :: es) = false.

Definition refused (kwargs : dict string JVal) (p : ToolParameter) : Prop :=
  missing_required kwargs p \/ type_mismatch kwargs p \/ outside_enum kwargs p.

Lemma check_type_unknown v t : t ∉ declared_types -> _check_type v t = true.
Proof.
  unfold declared_types, _check_type. intros Hn.
  repeat (case_match; [match goal with H : (_ =? _)%string = true |- _ =>
                         apply String.eqb_eq in H; subst; exfalso; apply Hn; set_solver
                       end|]).
  done.
Qed.

Lemma validate_param_spec py_str kwargs p :
  (validate_param py_str kwargs p = Ret tt /\ ~ refused kwargs p)
  \/ (exists msg, validate_param py_str kwargs p = Raise (ExcValue msg) /\ refused kwargs p).
Proof.
  unfold validate_param, refused, missing_required, type_mismatch, outside_enum.
  destruct (dict_get kwargs (p_name p)) as [v|] eqn:Hg.
  - destruct (_check_type v (p_type p)) eqn:Ht; simpl.
    + destruct (p_enum p) as [[|e es]|] eqn:He.
      * left. split; [done|]. intros [[? ?]|[(v' & ? & ?)|(v' & e & es & ? & ? & ?)]]; congruence.
      * destruct (in_enum v (e :: es)) eqn:Hin; simpl.
        -- left. split; [done|].
           intros [[? ?]|[(v' & ? & ?)|(v' & e' & es' & ? & ? & ?)]]; congruence.
        -- right. eexists. split; [done|]. right. right. by exists v, e, es.
      * left. split; [done|]. intros [[? ?]|[(v' & ? & ?)|(v' & e & es & ? & ? & ?)]]; congruence.
    + right. eexists. split; [done|]. right. left. by exists v.
  - destruct (p_required p) eqn:Hr.
    + right. eexists. split; [done|]. by left.
    + left. split; [done|].
      intros [[? ?]|[(v' & ? & ?)|(v' & e & es & ? & ? & ?)]]; congruence.
Qed.

(** C10.  Validation accepts a boolean for a parameter declared
    ["integer"] or ["number"], and any value for a parameter whose
    declared type is none of the four known ones.  [validate_params]
    always returns or raises; when it raises, it raises a [ValueError] for
    a declared parameter that is required and missing, or whose value has
    the wrong type under this mapping, or whose value is outside its
    non-empty enum; and it returns exactly when no declared parameter is
    in one of these three cases. *)
Theorem validate_params_characterised (py_str : JVal -> string) :
  (forall b t, t = "integer" \/ t = "number" -> _check_type (JBool b) t = true)
  /\ (forall v t, t ∉ declared_types -> _check_type v t = true)
  /\ (forall params kwargs, validate_params py_str params kwargs ≠ Diverge)
  /\ (forall params kwargs exc,
        validate_params py_str params kwargs = Raise exc ->
        exists p msg, p ∈ params /\ exc = ExcValue msg /\ refused kwargs p)
  /\ (forall params kwargs,
        validate_params py_str params kwargs = Ret tt <->
        forall p, p ∈ params -> ~ refused kwargs p).
Proof.
  repeat apply conj.
  - by intros b t [-> | ->].
  - apply check_type_unknown.
  - intros params kwargs. induction params as [|p ps IH]; simpl; [done|].
    destruct (validate_param_spec py_str kwargs p) as [[-> _]|(msg & -> & _)]; done.
  - intros params kwargs exc. induction params as [|p ps IH]; simpl; [done|].
    destruct (validate_param_spec py_str kwargs p) as [[-> _]|(msg & -> & Hr)]; simpl.
    + intros H. destruct (IH H) as (q & m & Hq & -> & Hrq).
      exists q, m. split; [by apply list_elem_of_further | done].
    + intros [= <-]. exists p, msg. split; [apply list_elem_of_here | done].
  - intros params kwargs. induction params as [|p ps IH]; simpl.
    + split; [|done]. intros _ p Hp. by apply not_elem_of_nil in Hp.
    + destruct (validate_param_spec py_str kwargs p) as [[-> Hok]|(msg & -> & Hr)]; simpl.
      * rewrite IH. split.
        -- intros H q Hq. apply elem_of_cons in Hq as [->|Hq]; [done | by apply H].
        -- intros H q Hq. apply H. by apply list_elem_of_further.
      * split; [done|]. intros H. exfalso. apply (H p); [apply list_elem_of_here | done].
Qed.

End ToolFacts.

(** ** Cycle detection in the planner *)

Section InitDict.
Import Intent.
Context {V : Type} (v : V).

Let step := fun (d : dict string V) (n : ExecutionNode) => dict_set d (role_id n) v.

Lemma fold_init_keys_NoDup (l : list ExecutionNode) (d : dict string V) :
  NoDup (dict_keys d) -> NoDup (dict_keys (fold_left step l d)).
Proof.
  revert d. induction l as [|n l IH]; intros d Hd; simpl; [done|].
  apply IH. unfold step. rewrite dict_keys_set. case_decide; [done|].
  apply NoDup_app. split; [done|]. split.
  - intros x Hx Hx'. apply list_elem_of_singleton in Hx'. by subst.
  - apply NoDup_singleton.
Qed.

Lemma fold_init_keys (l : list ExecutionNode) (d : dict string V) k :
  k ∈ dict_keys (fold_left step l d) <-> k ∈ dict_keys d \/ k ∈ map role_id l.
Proof.
  revert d. induction l as [|n l IH]; intros d; simpl.
  - split; [by left|]. intros [?|Hin]; [done|]. by apply not_elem_of_nil in Hin.
  - rewrite IH. unfold step. rewrite dict_keys_set, elem_of_cons.
    case_decide as Hn.
    + split; [intros [?|?]; auto|]. intros [?|[->|?]]; auto.
    + rewrite elem_of_app, list_elem_of_singleton. split.
      * intros [[?|?]|?]; auto.
      * intros [?|[?|?]]; auto.
Qed.

Lemma fold_init_values (l : list ExecutionNode) (d : dict string V) k x :
  (forall k x, dict_get d k = Some x -> x = v) ->
  dict_get (fold_left step l d) k = Some x -> x = v.
Proof.
  revert d. induction l as [|n l IH]; intros d Hd; simpl; [apply Hd|].
  apply IH. intros k' x'. unfold step. rewrite dict_get_set.
  case_decide; [by intros [= <-] | apply Hd].
Qed.

Lemma init_dict_keys_NoDup ns : NoDup (dict_keys (init_dict v ns)).
Proof. apply fold_init_keys_NoDup. apply NoDup_nil_2. Qed.

Lemma init_dict_keys ns k : k ∈ dict_keys (init_dict v ns) <-> k ∈ map role_id ns.
Proof.
  destruct (fold_init_keys ns [] k) as [H1 H2]. split.
  - intros Hin. destruct (H1 Hin) as [Hnil|?]; [|done]. by apply not_elem_of_nil in Hnil.
  - intros Hin. apply H2. by right.
Qed.

Lemma init_dict_get ns k :
  k ∈ map role_id ns -> dict_get (init_dict v ns) k = Some v.
Proof.
  intros Hin. apply init_dict_keys in Hin.
  destruct (dict_keys_get _ _ Hin) as [x Hx]. rewrite Hx. f_equal.
  eapply fold_init_values; [|exact Hx]. done.
Qed.

End InitDict.

Section KahnBuild.
Import Intent.

(** The edges the two nested loops of [_validate_dag] record, in the
    order they record them: one (dependency, dependent) pair for every
    entry of a [depends_on] list that names a node of the plan. *)
Definition dep_edges (I : gset string) (rid : string) (deps : list string)
  : list (string * string) :=
  (fun dep => (dep, rid)) <$> filter (fun dep => dep ∈ I) deps.

Definition edges_in (I : gset string) (ns : list ExecutionNode) : list (string * string) :=
  flat_map (fun n => dep_edges I (role_id n) (depends_on n)) ns.

Definition plan_ids (ns : list ExecutionNode) : gset string :=
  list_to_set (map role_id ns).

Definition plan_edges (ns : list ExecutionNode) : list (string * string) :=
  edges_in (plan_ids ns) ns.

(** Successors of a node, with multiplicity, and number of incoming
    edges. *)
Definition succs (E : list (string * string)) (k : string) : list string :=
  (filter (fun e => e.1 = k) E).*2.

Definition indeg (E : list (string * string)) (k : string) : nat :=
  length (filter (fun e => e.2 = k) E).

(** The two dictionaries hold the adjacency lists and in-degrees of [E]. *)
Definition tracks (I : gset string) (E : list (string * string))
  (st : dict string (list string) * dict string Z) : Prop :=
  forall k, k ∈ I ->
    dict_get st.1 k = Some (succs E k) /\ dict_get st.2 k = Some (Z.of_nat (indeg E k)).

Lemma succs_snoc E a b k :
  succs (E ++ [(a, b)]) k = succs E k ++ (if decide (a = k) then [b] else []).
Proof.
  unfold succs. rewrite filter_app, fmap_app. f_equal.
  rewrite filter_cons, filter_nil. simpl. by case_decide.
Qed.

Lemma indeg_snoc E a b k :
  indeg (E ++ [(a, b)]) k = indeg E k + (if decide (b = k) then 1 else 0).
Proof.
  unfold indeg. rewrite filter_app, length_app. f_equal.
  rewrite filter_cons, filter_nil. simpl. by case_decide.
Qed.

Lemma add_edge_tracks I E st rid dep :
  tracks I E st -> rid ∈ I -> dep ∈ I ->
  exists st', add_edge rid dep st = Ret st'
              /\ tracks I (E ++ [(dep, rid)]) st'
              /\ dict_keys st'.2 = dict_keys st.2.
Proof.
  intros Ht Hrid Hdep. unfold add_edge, dict_at.
  destruct (Ht dep Hdep) as [Hg _]. destruct (Ht rid Hrid) as [_ Hd].
  rewrite Hg. simpl. rewrite Hd. simpl. eexists. split; [reflexivity|]. split.
  - intros k Hk. destruct (Ht k Hk) as [Hgk Hdk]. simpl. split.
    + rewrite dict_get_set, succs_snoc. case_decide; [by subst|].
      by rewrite Hgk, app_nil_r.
    + rewrite dict_get_set, indeg_snoc. case_decide.
      * subst. f_equal. lia.
      * rewrite Hdk. f_equal. lia.
  - simpl. apply dict_keys_set_present. by eapply dict_get_Some_keys.
Qed.

Lemma dep_edges_cons I rid dep r :
  dep_edges I rid (dep :: r)
  = (if decide (dep ∈ I) then [(dep, rid)] else []) ++ dep_edges I rid r.
Proof. unfold dep_edges. rewrite filter_cons. by case_decide. Qed.

Lemma add_deps_tracks I rid deps : forall E st,
  tracks I E st -> rid ∈ I ->
  exists st', add_deps I rid deps st = Ret st'
              /\ tracks I (E ++ dep_edges I rid deps) st'
              /\ dict_keys st'.2 = dict_keys st.2.
Proof.
  induction deps as [|dep r IH]; intros E st Ht Hrid; simpl.
  - exists st. unfold dep_edges. rewrite filter_nil. simpl. by rewrite app_nil_r.
  - rewrite dep_edges_cons. case_bool_decide as Hdep.
    + destruct (add_edge_tracks I E st rid dep Ht Hrid Hdep) as (st1 & -> & Ht1 & Hk1).
      simpl. destruct (IH _ _ Ht1 Hrid) as (st' & -> & Ht' & Hk').
      exists st'. rewrite decide_True by done. rewrite app_assoc.
      split; [done|]. split; [done|]. congruence.
    + simpl. destruct (IH _ _ Ht Hrid) as (st' & -> & Ht' & Hk').
      exists st'. by rewrite decide_False by done.
Qed.

Lemma add_nodes_tracks I l : forall E st,
  tracks I E st -> (forall n, n ∈ l -> role_id n ∈ I) ->
  exists st', add_nodes I l st = Ret st'
              /\ tracks I (E ++ edges_in I l) st'
              /\ dict_keys st'.2 = dict_keys st.2.
Proof.
  induction l as [|n l IH]; intros E st Ht Hl; simpl.
  - exists st. by rewrite app_nil_r.
  - destruct (add_deps_tracks I (role_id n) (depends_on n) E st Ht) as (st1 & -> & Ht1 & Hk1).
    { apply Hl, list_elem_of_here. }
    simpl. destruct (IH _ _ Ht1) as (st' & -> & Ht' & Hk').
    { intros m Hm. by apply Hl, list_elem_of_further. }
    exists st'. rewrite app_assoc. split; [done|]. split; [done|]. congruence.
Qed.

(** The dictionaries [_validate_dag] builds: no [KeyError], and they hold
    the edges of the plan. *)
Lemma build_tracks ns :
  exists st, add_nodes (plan_ids ns) ns (init_dict [] ns, init_dict 0%Z ns) = Ret st
             /\ tracks (plan_ids ns) (plan_edges ns) st
             /\ dict_keys st.2 = dict_keys (init_dict 0%Z ns).
Proof.
  destruct (add_nodes_tracks (plan_ids ns) ns [] (init_dict [] ns, init_dict 0%Z ns))
    as (st & Hst & Ht & Hk).
  - intros k Hk. apply elem_of_list_to_set in Hk. simpl.
    by rewrite !init_dict_get.
  - intros n Hn. apply elem_of_list_to_set. apply list_elem_of_fmap. eauto.
  - exists st. done.
Qed.

End KahnBuild.

Section KahnCounting.

Implicit Types (E : list (string * string)) (P : list string) (k : string).

(** Incoming edges of [k] whose source is not in [P]. *)
Definition rem E P k : nat :=
  length (filter (fun e => e.2 = k /\ e.1 ∉ P) E).

(** Occurrences of [k] in a list. *)
Definition cnt k (l : list string) : nat := length (filter (fun x => x = k) l).

Lemma rem_cons e E P k :
  rem (e :: E) P k = (if decide (e.2 = k /\ e.1 ∉ P) then 1 else 0) + rem E P k.
Proof. unfold rem. rewrite filter_cons. by case_decide. Qed.

Lemma cnt_cons k x l : cnt k (x :: l) = (if decide (x = k) then 1 else 0) + cnt k l.
Proof. unfold cnt. rewrite filter_cons. by case_decide. Qed.

Lemma succs_cons e E c :
  succs (e :: E) c = (if decide (e.1 = c) then [e.2] else []) ++ succs E c.
Proof. unfold succs. rewrite filter_cons. by case_decide. Qed.

Lemma cnt_pos k l : 0 < cnt k l <-> k ∈ l.
Proof.
  induction l as [|x l IH].
  - unfold cnt. rewrite filter_nil. simpl. split; [lia|]. intros H. by apply not_elem_of_nil in H.
  - rewrite cnt_cons, elem_of_cons. destruct (decide (x = k)) as [->|Hne].
    + split; [auto | lia].
    + simpl. rewrite IH. split; [auto|]. intros [->|?]; done.
Qed.

Lemma cnt_zero k l : cnt k l = 0 <-> k ∉ l.
Proof. rewrite <- cnt_pos. lia. Qed.

Lemma succs_elem E c x : x ∈ succs E c <-> (c, x) ∈ E.
Proof.
  unfold succs. rewrite list_elem_of_fmap. split.
  - intros ([a b] & -> & Hin). apply list_elem_of_filter in Hin as [Ha Hin].
    simpl in *. by subst.
  - intros Hin. exists (c, x). split; [done|]. by apply list_elem_of_filter.
Qed.

Lemma indeg_rem E k : indeg E k = rem E [] k.
Proof.
  induction E as [|e E IH]; [done|].
  rewrite rem_cons, <- IH. unfold indeg. rewrite filter_cons.
  case_decide as H1; case_decide as H2; simpl; try lia.
  - exfalso. apply H2. split; [done|]. apply not_elem_of_nil.
  - by destruct H2.
Qed.

(** Moving [c] into the processed nodes removes the edges from [c]. *)
Lemma rem_snoc E P c k :
  c ∉ P -> rem E P k = rem E (P ++ [c]) k + cnt k (succs E c).
Proof.
  intros Hc. induction E as [|[a b] E IH]; [done|].
  rewrite !rem_cons, succs_cons, IH. simpl.
  assert (Hcnt : forall l1 l2, cnt k (l1 ++ l2) = cnt k l1 + cnt k l2).
  { intros l1 l2. unfold cnt. by rewrite filter_app, length_app. }
  rewrite Hcnt.
  destruct (decide (a = c)) as [->|Hac].
  - rewrite cnt_cons. unfold cnt at 2. rewrite filter_nil. simpl.
    destruct (decide (b = k)) as [->|Hbk].
    + rewrite decide_True by done. rewrite decide_False; [lia|].
      intros [_ Hn]. apply Hn, elem_of_app. right. apply list_elem_of_here.
    + rewrite !decide_False by (by intros [? _]). lia.
  - unfold cnt at 2. rewrite filter_nil. simpl.
    destruct (decide (b = k /\ a ∉ P)) as [[-> Ha]|Hn].
    + rewrite decide_True; [lia|]. split; [done|].
      rewrite elem_of_app, list_elem_of_singleton. by intros [?|?].
    + rewrite decide_False; [lia|]. intros [-> Ha]. apply Hn. split; [done|].
      intros Hin. apply Ha, elem_of_app. by left.
Qed.

Lemma rem_zero E P k : rem E P k = 0 <-> forall a, (a, k) ∈ E -> a ∈ P.
Proof.
  induction E as [|[a b] E IH].
  - split; [|done]. intros _ a Ha. by apply not_elem_of_nil in Ha.
  - rewrite rem_cons. simpl. case_decide as Hd.
    + split; [lia|]. intros H. destruct Hd as [-> Ha]. exfalso.
      apply Ha, H, list_elem_of_here.
    + simpl. rewrite IH. split.
      * intros H x Hx. apply elem_of_cons in Hx as [Heq|Hx]; [|by apply H].
        assert (x = a /\ k = b) as [-> ->] by (by injection Heq).
        destruct (decide (a ∈ P)); [done|]. exfalso. by apply Hd.
      * intros H x Hx. by apply H, list_elem_of_further.
Qed.

Lemma rem_mono E P c k : rem E (P ++ [c]) k <= rem E P k.
Proof.
  induction E as [|e E IH]; [done|]. rewrite !rem_cons.
  case_decide as H1; case_decide as H2; try lia.
  exfalso. apply H2. destruct H1 as [? Hn]. split; [done|].
  intros Hin. apply Hn, elem_of_app. by left.
Qed.

End KahnCounting.

Section KahnLoop.
Import Intent.
Variable I : gset string.

(** The inner loop of [_validate_dag]: every in-degree goes down by the
    number of edges from the current node, and the nodes whose in-degree
    reaches zero are appended to the queue, once each. *)
Lemma relax_spec nbrs : forall (in_degree : dict string Z) queue (f : string -> nat),
  (forall k, k ∈ I -> dict_get in_degree k = Some (Z.of_nat (f k))) ->
  (forall k, k ∈ nbrs -> k ∈ I) ->
  (forall k, cnt k nbrs <= f k) ->
  exists in_degree' added,
    relax nbrs in_degree queue = Ret (in_degree', queue ++ added)
    /\ (forall k, k ∈ I -> dict_get in_degree' k = Some (Z.of_nat (f k - cnt k nbrs)))
    /\ NoDup added
    /\ (forall a, a ∈ added <-> a ∈ nbrs /\ f a = cnt a nbrs).
Proof.
  induction nbrs as [|nb r IH]; intros in_degree queue f Hd Hin Hle.
  - exists in_degree, []. simpl. rewrite app_nil_r. split; [done|]. split.
    { intros k Hk. rewrite Hd by done. do 2 f_equal. unfold cnt. rewrite filter_nil. simpl. lia. }
    split; [apply NoDup_nil_2|].
    intros a. split; [intros Ha | intros [Ha _]]; by apply not_elem_of_nil in Ha.
  - assert (Hnb : 1 <= f nb).
    { specialize (Hle nb). rewrite cnt_cons, decide_True in Hle by done. lia. }
    simpl. unfold dict_at. rewrite (Hd nb) by (apply Hin, list_elem_of_here). simpl.
    set (f1 := fun k => if decide (k = nb) then f nb - 1 else f k).
    set (queue1 := if (Z.of_nat (f nb) - 1 =? 0)%Z then queue ++ [nb] else queue).
    destruct (IH (dict_set in_degree nb (Z.of_nat (f nb) - 1)%Z) queue1 f1)
      as (in_degree' & added & Hrun & Hd' & Hnd & Hadded).
    { intros k Hk. rewrite dict_get_set. unfold f1. destruct (decide (nb = k)) as [<-|Hne].
      - rewrite decide_True by done. f_equal. lia.
      - rewrite decide_False by done. by apply Hd. }
    { intros k Hk. by apply Hin, list_elem_of_further. }
    { intros k. specialize (Hle k). rewrite cnt_cons in Hle. unfold f1.
      destruct (decide (k = nb)) as [->|Hne].
      - rewrite decide_True in Hle by done. lia.
      - rewrite decide_False in Hle by done. simpl in Hle. lia. }
    assert (Hd'' : forall k, k ∈ I ->
              dict_get in_degree' k = Some (Z.of_nat (f k - cnt k (nb :: r)))).
    { intros k Hk. rewrite Hd' by done. do 2 f_equal. rewrite cnt_cons. unfold f1.
      destruct (decide (k = nb)) as [->|Hne].
      - rewrite decide_True by done. lia.
      - rewrite decide_False by done. simpl. lia. }
    destruct (decide (f nb = 1)) as [H1|H1].
    + exists in_degree', (nb :: added). rewrite Hrun. unfold queue1.
      replace (Z.of_nat (f nb) - 1 =? 0)%Z with true by (symmetry; apply Z.eqb_eq; lia).
      rewrite <- app_assoc. simpl. split; [done|]. split; [done|].
      assert (Hr : nb ∉ r).
      { apply cnt_zero. specialize (Hle nb). rewrite cnt_cons, decide_True in Hle by done. lia. }
      split.
      * apply NoDup_cons. split; [|done]. intros Ha. apply Hadded in Ha as [? _]. done.
      * intros a. rewrite !elem_of_cons, Hadded, cnt_cons. unfold f1.
        destruct (decide (a = nb)) as [->|Hne].
        -- rewrite decide_True by done. apply cnt_zero in Hr. split; [intros _|by left].
           split; [by left | lia].
        -- rewrite decide_False by done. simpl. split.
           ++ intros [?|[? ?]]; [done|]. split; [by right | lia].
           ++ intros [[?|?] ?]; [done|]. right. split; [done | lia].
    + exists in_degree', added. rewrite Hrun. unfold queue1.
      replace (Z.of_nat (f nb) - 1 =? 0)%Z with false by (symmetry; apply Z.eqb_neq; lia).
      split; [done|]. split; [done|]. split; [done|].
      intros a. rewrite elem_of_cons, Hadded, cnt_cons. unfold f1.
      destruct (decide (a = nb)) as [->|Hne].
      * rewrite decide_True by done. split.
        -- intros [? ?]. split; [by left | lia].
        -- intros [_ ?]. assert (0 < cnt nb r) as Hpos by lia. apply cnt_pos in Hpos.
           split; [done | lia].
      * rewrite decide_False by done. simpl. split.
        -- intros [? ?]. split; [by right | lia].
        -- intros [[?|?] ?]; [done|]. split; [done | lia].
Qed.

Variable E : list (string * string).
Variable graph : dict string (list string).
Hypothesis HG : forall k, k ∈ I -> dict_get graph k = Some (succs E k).
Hypothesis HE : forall a b, (a, b) ∈ E -> a ∈ I /\ b ∈ I.

(** [edge a b]: node [b] depends on node [a]. *)
Definition edge (a b : string) : Prop := (a, b) ∈ E.

(** The state of the [while] loop, with [P] the nodes removed so far in
    the order of their removal: the in-degrees count the edges from nodes
    not yet removed; no node is removed or queued twice; the removed and
    queued nodes are exactly those without such an edge; and none of them
    lies on a cycle. *)
Record Inv (P : list string) (in_degree : dict string Z) (Q : list string) : Prop := {
  inv_deg : forall k, k ∈ I -> dict_get in_degree k = Some (Z.of_nat (rem E P k));
  inv_nodup : NoDup (P ++ Q);
  inv_ids : forall x, x ∈ P ++ Q -> x ∈ I;
  inv_zero : forall k, k ∈ I -> (rem E P k = 0 <-> k ∈ P ++ Q);
  inv_acyclic : forall k, k ∈ P ++ Q -> ~ tc edge k k
}.

(** What holds of the removed nodes when the loop ends. *)
Record Final (P : list string) : Prop := {
  fin_nodup : NoDup P;
  fin_ids : forall x, x ∈ P -> x ∈ I;
  fin_zero : forall k, k ∈ I -> (rem E P k = 0 <-> k ∈ P);
  fin_acyclic : forall k, k ∈ P -> ~ tc edge k k
}.

Lemma length_le_size (l : list string) :
  NoDup l -> (forall x, x ∈ l -> x ∈ I) -> length l <= size I.
Proof.
  intros Hnd Hin. rewrite <- (size_list_to_set (C := gset string) l) by done.
  apply subseteq_size. intros x Hx. apply elem_of_list_to_set in Hx. by apply Hin.
Qed.

Lemma tc_last {A} (R : relation A) x y : tc R x y -> exists b, rtc R x b /\ R b y.
Proof.
  induction 1 as [x y H|x y z H _ (b & Hb & Hby)].
  - exists x. split; [apply rtc_refl | done].
  - exists b. split; [by eapply rtc_l | done].
Qed.

Lemma cycle_pred k : tc edge k k -> exists b, edge b k /\ tc edge b b.
Proof.
  intros Hk. destruct (tc_last _ _ _ Hk) as (b & Hkb & Hbk).
  exists b. split; [done|]. eapply tc_rtc_r; [by apply tc_once | done].
Qed.

Lemma inv_step P in_degree current rest :
  Inv P in_degree (current :: rest) ->
  exists in_degree' added,
    relax (succs E current) in_degree rest = Ret (in_degree', rest ++ added)
    /\ Inv (P ++ [current]) in_degree' (rest ++ added).
Proof using HG HE.
  intros [Hdeg Hnd Hids Hzero Hacy].
  assert (HcP : current ∉ P).
  { apply NoDup_app in Hnd as (_ & Hdisj & _). intros Hin.
    apply (Hdisj _ Hin), list_elem_of_here. }
  destruct (relax_spec (succs E current) in_degree rest (rem E P))
    as (in_degree' & added & Hrun & Hdeg' & Hnda & Hadded).
  { done. }
  { intros k Hk. apply succs_elem in Hk. by apply HE in Hk as [_ ?]. }
  { intros k. rewrite (rem_snoc E P current k HcP). lia. }
  assert (Hrem : forall k, rem E (P ++ [current]) k = rem E P k - cnt k (succs E current)).
  { intros k. rewrite (rem_snoc E P current k HcP). lia. }
  assert (Hold : forall x, x ∈ P ++ current :: rest -> x ∈ (P ++ [current]) ++ rest ++ added).
  { intros x. set_solver. }
  assert (Hnew : forall x, x ∈ (P ++ [current]) ++ rest ++ added ->
                           x ∈ P ++ current :: rest \/ x ∈ added).
  { intros x. set_solver. }
  assert (Hfresh : forall a, a ∈ added -> a ∉ P ++ current :: rest).
  { intros a Ha Hin. apply Hadded in Ha as [Hsucc Heq].
    assert (a ∈ I) as HaI by (by apply Hids).
    apply (Hzero a HaI) in Hin. apply cnt_pos in Hsucc. lia. }
  exists in_degree', added. split; [done|]. constructor.
  - intros k Hk. rewrite Hrem. by apply Hdeg'.
  - replace ((P ++ [current]) ++ rest ++ added) with ((P ++ current :: rest) ++ added)
      by (by rewrite <- !app_assoc).
    apply NoDup_app. split; [done|]. split; [|done].
    intros x Hx Ha. by apply (Hfresh x Ha).
  - intros x Hx. apply Hnew in Hx as [Hx|Hx]; [by apply Hids|].
    apply Hadded in Hx as [Hx _]. apply succs_elem in Hx. by apply HE in Hx as [_ ?].
  - intros k Hk. rewrite Hrem. split.
    + intros H0. destruct (decide (k ∈ succs E current)) as [Hs|Hs].
      * assert (k ∈ added) as Ha.
        { apply Hadded. split; [done|].
          pose proof (rem_snoc E P current k HcP). lia. }
        rewrite !elem_of_app. auto.
      * apply cnt_zero in Hs. apply Hold, (Hzero k Hk). lia.
    + intros Hin. apply Hnew in Hin as [Hin|Hin].
      * apply (Hzero k Hk) in Hin. lia.
      * apply Hadded in Hin as [_ ->]. lia.
  - intros k Hk. apply Hnew in Hk as [Hk|Hk]; [by apply Hacy|].
    intros Hcyc. destruct (cycle_pred k Hcyc) as (b & Hbk & Hb).
    assert (rem E (P ++ [current]) k = 0) as H0.
    { rewrite Hrem. apply Hadded in Hk as [_ ->]. lia. }
    assert (b ∈ P ++ [current]) as HbP by (by eapply rem_zero).
    apply (Hacy b); [|done].
    clear -HbP. set_solver.
Qed.

(** The loop ends before its fuel does, and returns the number of nodes
    it removed. *)
Lemma topo_loop_spec fuel : forall P in_degree Q,
  Inv P in_degree Q -> size I < fuel + length P ->
  exists Pf, topo_loop fuel graph in_degree Q (length P) = Ret (length Pf) /\ Final Pf.
Proof using HG HE.
  induction fuel as [|fuel IH]; intros P in_degree Q HI Hfuel.
  - exfalso. destruct HI as [_ Hnd Hids _ _].
    pose proof (length_le_size (P ++ Q) Hnd Hids) as Hlen.
    rewrite length_app in Hlen. simpl in Hfuel. lia.
  - destruct Q as [|current rest].
    + exists P. split; [done|]. destruct HI as [_ Hnd Hids Hzero Hacy].
      rewrite app_nil_r in *. by constructor.
    + destruct (inv_step P in_degree current rest HI) as (in_degree' & added & Hrun & HI').
      simpl. unfold dict_at. rewrite HG.
      2:{ apply (inv_ids _ _ _ HI), elem_of_app. right. apply list_elem_of_here. }
      simpl. rewrite Hrun. simpl.
      destruct (IH (P ++ [current]) in_degree' (rest ++ added) HI') as (Pf & Hrun' & HF).
      * rewrite length_app. simpl. lia.
      * exists Pf. split; [|done]. rewrite <- Hrun'. f_equal. rewrite length_app. simpl. lia.
Qed.

End KahnLoop.

Section KahnResult.
Import Intent.

Lemma size_list_to_set_le (l : list string) :
  size (list_to_set (C := gset string) l) <= length l.
Proof.
  induction l as [|a l IH].
  - by rewrite list_to_set_nil, size_empty.
  - rewrite list_to_set_cons, size_union_alt, size_singleton. simpl length.
    assert (size (list_to_set (C := gset string) l ∖ {[a]}) <= size (list_to_set (C := gset string) l)).
    { apply subseteq_size. set_solver. }
    lia.
Qed.

Lemma zero_keys_elem (d : dict string Z) k :
  NoDup (dict_keys d) -> (k ∈ zero_keys d <-> dict_get d k = Some 0%Z).
Proof.
  unfold zero_keys, dict_keys. induction d as [|[k' z] d IH]; simpl; intros Hnd.
  - split; [intros H; by apply not_elem_of_nil in H | done].
  - apply NoDup_cons in Hnd as [Hk' Hnd]. specialize (IH Hnd).
    destruct (decide (k = k')) as [->|Hne].
    + destruct (z =? 0)%Z eqn:Ez; simpl.
      * apply Z.eqb_eq in Ez as ->. split; [done|]. intros _. apply list_elem_of_here.
      * apply Z.eqb_neq in Ez. split; [|by intros [= ?]].
        intros Hin. exfalso. apply Hk'.
        apply list_elem_of_fmap in Hin as (p & -> & Hp).
        apply list_elem_of_fmap. exists p. split; [done|].
        apply list_elem_of_In, filter_In in Hp as [Hp _]. by apply list_elem_of_In.
    + destruct (z =? 0)%Z; simpl; rewrite ?elem_of_cons; rewrite <- IH; [|done].
      split; [by intros [?|?] | by right].
Qed.

Lemma zero_keys_NoDup (d : dict string Z) : NoDup (dict_keys d) -> NoDup (zero_keys d).
Proof.
  unfold zero_keys, dict_keys. induction d as [|[k z] d IH]; simpl; intros Hnd.
  - apply NoDup_nil_2.
  - apply NoDup_cons in Hnd as [Hk Hnd]. destruct (z =? 0)%Z; simpl; [|by apply IH].
    apply NoDup_cons. split; [|by apply IH]. intros Hin. apply Hk.
    apply list_elem_of_fmap in Hin as (p & -> & Hp).
    apply list_elem_of_fmap. exists p. split; [done|].
    apply list_elem_of_In, filter_In in Hp as [Hp _]. by apply list_elem_of_In.
Qed.

Lemma plan_edges_ids ns a b :
  (a, b) ∈ plan_edges ns -> a ∈ plan_ids ns /\ b ∈ plan_ids ns.
Proof.
  unfold plan_edges, edges_in. intros Hin.
  apply list_elem_of_In, in_flat_map in Hin as (n & Hn & Hin).
  apply list_elem_of_In in Hn, Hin. unfold dep_edges in Hin.
  apply list_elem_of_fmap in Hin as (dep & [= -> ->] & Hdep).
  apply list_elem_of_filter in Hdep as [Hdep _]. split; [done|].
  apply elem_of_list_to_set, list_elem_of_fmap. eauto.
Qed.

(** [_validate_dag] counts without a [KeyError] and within its fuel; the
    nodes it removes are described by [Final]. *)
Lemma visited_count_spec ns :
  exists Pf, visited_count ns = Ret (length Pf)
             /\ Final (plan_ids ns) (plan_edges ns) Pf.
Proof.
  destruct (build_tracks ns) as (st & Hst & Ht & Hk).
  assert (Hrun : visited_count ns
                 = topo_loop (S (length ns)) st.1 st.2 (zero_keys st.2) 0).
  { unfold visited_count. fold (plan_ids ns). by rewrite Hst. }
  rewrite Hrun. clear Hrun.
  assert (Hnd : NoDup (dict_keys st.2)).
  { rewrite Hk. apply init_dict_keys_NoDup. }
  apply (topo_loop_spec (plan_ids ns) (plan_edges ns) st.1) with (P := []).
  - intros k Hk'. by apply Ht.
  - apply plan_edges_ids.
  - constructor; simpl.
    + intros k Hk'. destruct (Ht k Hk') as [_ ->]. by rewrite indeg_rem.
    + by apply zero_keys_NoDup.
    + intros x Hx. apply zero_keys_elem in Hx; [|done].
      apply dict_get_Some_keys in Hx. rewrite Hk in Hx.
      apply init_dict_keys in Hx. by apply elem_of_list_to_set.
    + intros k Hk'. rewrite zero_keys_elem by done.
      destruct (Ht k Hk') as [_ ->]. rewrite indeg_rem. split.
      * by intros ->.
      * intros [= H]. lia.
    + intros k Hk' Hcyc. apply zero_keys_elem in Hk'; [|done].
      destruct (cycle_pred _ _ Hcyc) as (b & Hb & _).
      pose proof (plan_edges_ids _ _ _ Hb) as [_ HkI].
      destruct (Ht k HkI) as [_ Hd]. rewrite Hd in Hk'. injection Hk' as H0.
      rewrite indeg_rem in H0. assert (rem (plan_edges ns) [] k = 0) as Hz by lia.
      pose proof (proj1 (rem_zero _ _ _) Hz b Hb) as Hin. by apply not_elem_of_nil in Hin.
  - simpl. pose proof (size_list_to_set_le (map role_id ns)) as Hle.
    rewrite length_map in Hle. unfold plan_ids. lia.
Qed.

End KahnResult.

Section CycleFacts.
Import Intent.

(** [depends_edge ns a b]: a node of the plan with role id [b] lists [a]
    in its [depends_on], and [a] is the role id of a node of the plan. *)
Definition depends_edge (ns : list ExecutionNode) (a b : string) : Prop :=
  exists n, n ∈ ns /\ role_id n = b /\ a ∈ depends_on n /\ a ∈ map role_id ns.

(** The dependency graph of the plan has a cycle. *)
Definition has_cycle (ns : list ExecutionNode) : Prop :=
  exists x, tc (depends_edge ns) x x.

Lemma plan_edges_depends ns a b : (a, b) ∈ plan_edges ns <-> depends_edge ns a b.
Proof.
  unfold plan_edges, edges_in, depends_edge. split.
  - intros Hin. apply list_elem_of_In, in_flat_map in Hin as (n & Hn & Hin).
    apply list_elem_of_In in Hn, Hin. unfold dep_edges in Hin.
    apply list_elem_of_fmap in Hin as (dep & [= -> ->] & Hdep).
    apply list_elem_of_filter in Hdep as [HI Hdep].
    exists n. split; [done|]. split; [done|]. split; [done|].
    by apply elem_of_list_to_set in HI.
  - intros (n & Hn & <- & Ha & HI). apply list_elem_of_In, in_flat_map.
    exists n. split; [by apply list_elem_of_In|]. apply list_elem_of_In.
    unfold dep_edges. apply list_elem_of_fmap. exists a. split; [done|].
    apply list_elem_of_filter. split; [|done]. by apply elem_of_list_to_set.
Qed.

Lemma tc_ext {A} (R R' : relation A) x y :
  (forall a b, R a b -> R' a b) -> tc R x y -> tc R' x y.
Proof.
  intros H. induction 1 as [x y Hxy|x y z Hxy _ IH].
  - apply tc_once. by apply H.
  - eapply tc_l; [by apply H | done].
Qed.

Lemma tc_flip {A} (R : relation A) x y : tc (flip R) x y -> tc R y x.
Proof.
  induction 1 as [x y Hxy|x y z Hxy _ IH].
  - by apply tc_once.
  - eapply tc_r; [exact IH | exact Hxy].
Qed.

Lemma cycle_edges ns x : tc (depends_edge ns) x x -> tc (edge (plan_edges ns)) x x.
Proof. apply tc_ext. intros a b. apply plan_edges_depends. Qed.

(** A node on a cycle is never removed: the count stays below the number
    of nodes. *)
Lemma cycle_count_lt ns :
  has_cycle ns -> exists v, visited_count ns = Ret v /\ v < length ns.
Proof.
  intros [x Hx%cycle_edges]. destruct (visited_count_spec ns) as (Pf & Hrun & HF).
  exists (length Pf). split; [done|].
  destruct HF as [Hnd Hids _ Hacy].
  destruct (cycle_pred _ _ Hx) as (b & Hb & _).
  apply plan_edges_ids in Hb as [_ HxI].
  assert (Hsub : list_to_set (C := gset string) Pf ⊂ plan_ids ns).
  { split.
    - intros k Hk. apply elem_of_list_to_set in Hk. by apply Hids.
    - intros Hsup. specialize (Hsup x HxI). apply elem_of_list_to_set in Hsup.
      by apply (Hacy x). }
  apply subset_size in Hsub. rewrite size_list_to_set in Hsub by done.
  pose proof (size_list_to_set_le (map role_id ns)) as Hle.
  rewrite length_map in Hle. unfold plan_ids in Hsub. lia.
Qed.





End CycleFacts.

(** ** The planner *)

Section PlannerFacts.
Import Intent.

Variable get_role : string -> option Role.

Lemma validate_dag_total ns :
  exists v, visited_count ns = Ret v /\ _validate_dag ns = Ret (Nat.eqb v (length ns)).
Proof.
  destruct (visited_count_spec ns) as (Pf & Hrun & _).
  exists (length Pf). split; [done|]. unfold _validate_dag. by rewrite Hrun.
Qed.


Lemma clear_depends_ids ns : map role_id (clear_depends ns) = map role_id ns.
Proof. unfold clear_depends. rewrite map_map. by apply map_ext. Qed.

Lemma clear_depends_empty ns n : n ∈ clear_depends ns -> depends_on n = [].
Proof.
  unfold clear_depends. intros Hn. by apply list_elem_of_fmap in Hn as (m & -> & _).
Qed.

Lemma clear_depends_no_edge ns a b : ~ depends_edge (clear_depends ns) a b.
Proof.
  intros (n & Hn & _ & Ha & _). rewrite (clear_depends_empty _ _ Hn) in Ha.
  by apply not_elem_of_nil in Ha.
Qed.



(** *** What the parser keeps *)

Lemma known_role_spec v r : known_role get_role v = Some r -> v = JStr r /\ is_Some (get_role r).
Proof.
  unfold known_role. destruct v as [| | | |s| |]; try done.
  destruct (get_role s) eqn:E; [|done]. intros [= <-]. split; [done|]. by rewrite E.
Qed.

Lemma valid_depends_known ds d : d ∈ valid_depends get_role ds -> is_Some (get_role d).
Proof.
  unfold valid_depends. intros Hd. apply list_elem_of_omap in Hd as (v & _ & Hv).
  by apply known_role_spec in Hv as [_ ?].
Qed.

(** The role id an entry of ["nodes"] contributes, if any. *)
Definition role_of (node_data : JVal) : option string :=
  match py_get node_data "role_id" (JStr "") with
  | Ret v => known_role get_role v
  | _ => None
  end.

Definition names_known_roles (n : ExecutionNode) : Prop :=
  is_Some (get_role (role_id n)) /\ forall d, d ∈ depends_on n -> is_Some (get_role d).

Lemma parse_node_spec nd o :
  parse_node get_role nd = Ret o ->
  match o with
  | Some n => role_of nd = Some (role_id n) /\ names_known_roles n
  | None => role_of nd = None
  end.
Proof.
  unfold parse_node, role_of.
  destruct (py_get nd "role_id" (JStr "")) as [rid| |]; simpl; try done.
  destruct (known_role get_role rid) as [r|] eqn:Hr; [|by intros [= <-]].
  destruct (py_get nd "depends_on" (JArr [])) as [deps| |]; simpl; try done.
  destruct (py_iter deps) as [ds| |]; simpl; try done.
  intros [= <-]. simpl. split; [done|]. split.
  - by apply known_role_spec in Hr as [_ ?].
  - apply valid_depends_known.
Qed.

Lemma parse_nodes_spec items : forall ns,
  parse_nodes get_role items = Ret ns ->
  map role_id ns = omap role_of items /\ forall n, n ∈ ns -> names_known_roles n.
Proof.
  induction items as [|nd items IH]; intros ns; simpl.
  - intros [= <-]. split; [done|]. intros n Hn. by apply not_elem_of_nil in Hn.
  - destruct (parse_node get_role nd) as [o| |] eqn:Hnd; simpl; try done.
    destruct (parse_nodes get_role items) as [ns'| |]; simpl; try done.
    intros [= <-]. destruct (IH ns' eq_refl) as [Hids Hall].
    apply parse_node_spec in Hnd. destruct o as [n|].
    + destruct Hnd as [-> Hn]. simpl. rewrite Hids. split; [done|].
      intros m Hm. apply elem_of_cons in Hm as [->|Hm]; [done | by apply Hall].
    + rewrite Hnd. done.
Qed.

(** The dependencies an entry of ["nodes"] contributes: those of its
    ["depends_on"] list that name a known specialist. *)
Definition deps_of (node_data : JVal) : list string :=
  match py_get node_data "depends_on" (JArr []) with
  | Ret deps =>
      match py_iter deps with
      | Ret ds => valid_depends get_role ds
      | _ => []
      end
  | _ => []
  end.

(** The node an entry contributes, if its role id is known. *)
Definition node_of (node_data : JVal) : option ExecutionNode :=
  match role_of node_data with
  | Some r => Some (mkNode r (deps_of node_data))
  | None => None
  end.

Lemma parse_nodes_entries items : forall ns,
  parse_nodes get_role items = Ret ns -> ns = omap node_of items.
Proof.
  induction items as [|nd items IH]; intros ns Hp; [by injection Hp as <-|].
  change (omap node_of (nd :: items))
    with (match node_of nd with
          | Some n => n :: omap node_of items
          | None => omap node_of items
          end).
  simpl in Hp.
  destruct (parse_node get_role nd) as [o| |] eqn:Hnd; simpl in Hp; try done.
  destruct (parse_nodes get_role items) as [ns'| |]; simpl in Hp; try done.
  injection Hp as <-. rewrite <- (IH ns' eq_refl).
  assert (node_of nd = o) as ->; [|done].
  unfold parse_node in Hnd. unfold node_of, role_of, deps_of.
  destruct (py_get nd "role_id" (JStr "")) as [rid| |]; simpl in Hnd; try done.
  destruct (known_role get_role rid) as [r|]; [|by injection Hnd as <-].
  destruct (py_get nd "depends_on" (JArr [])) as [deps| |]; simpl in Hnd; try done.
  destruct (py_iter deps) as [ds| |]; simpl in Hnd; try done.
  by injection Hnd as <-.
Qed.

(** The claim of C6 as stated: after parsing, every dependency names a
    node of the plan. *)
Definition edges_name_plan_nodes (role_table : string -> option Role) : Prop :=
  forall data plan,
    _parse_plan_data role_table data = Ret plan ->
    forall n, n ∈ nodes plan -> forall d, d ∈ depends_on n -> d ∈ role_ids plan.

(** C6, the part that holds.  Parsing drops every entry whose role id
    is not a known specialist and every dependency that is not the id
    of a known specialist: unless it is the one-node default plan, the
    plan has exactly the entries of the reply with a known role id, in
    order, and every role id and every dependency left in it names a
    known specialist.  No dependency is compared with the nodes of the
    plan: when the node list passes [_validate_dag] each node has all
    the dependencies of its entry that name a known specialist, and
    when it does not each node has none. *)
Theorem parsed_plan_names_known_roles (data : JVal) (plan : ExecutionPlan) :
  _parse_plan_data get_role data = Ret plan ->
  nodes plan = [mkNode "purchase_consultant" []]
  \/ (exists nodes_data items ok,
        py_get data "nodes" (JArr []) = Ret nodes_data
        /\ py_iter nodes_data = Ret items
        /\ role_ids plan = omap role_of items
        /\ (forall n, n ∈ nodes plan -> names_known_roles n)
        /\ _validate_dag (omap node_of items) = Ret ok
        /\ nodes plan = if ok then omap node_of items
                        else clear_depends (omap node_of items)).
Proof.
  unfold _parse_plan_data.
  destruct (py_get data "nodes" (JArr [])) as [nodes_data| |] eqn:Hget; simpl; try done.
  destruct (py_iter nodes_data) as [items| |] eqn:Hiter; simpl; try done.
  destruct (parse_nodes get_role items) as [ns| |] eqn:Hparse; simpl; try done.
  destruct ns as [|n0 ns0]; [intros [= <-]; by left|].
  destruct (validate_dag_total (n0 :: ns0)) as (v & _ & Hval). rewrite Hval. simpl.
  destruct (py_get data "reason" (JStr "")) as [why| |]; simpl; try done.
  intros [= <-]. right. exists nodes_data, items, (Nat.eqb v (length (n0 :: ns0))).
  split; [done|]. split; [done|].
  pose proof (parse_nodes_entries _ _ Hparse) as Hentries.
  apply parse_nodes_spec in Hparse as [Hids Hall].
  rewrite <- Hentries, Hval. unfold role_ids. simpl nodes.
  destruct (Nat.eqb _ _).
  - split; [exact Hids|]. split; [exact Hall|]. done.
  - change (mkNode (role_id n0) [] :: clear_depends ns0) with (clear_depends (n0 :: ns0)).
    rewrite clear_depends_ids. split; [done|]. split; [|done]. intros n Hn.
    pose proof (clear_depends_empty _ _ Hn) as Hd.
    unfold clear_depends in Hn. apply list_elem_of_fmap in Hn as (m & -> & Hm).
    destruct (Hall m Hm) as [Hm1 _]. split; [exact Hm1|].
    simpl. intros d Hin. by apply not_elem_of_nil in Hin.
Qed.

End PlannerFacts.

(** A reply that names [financial_advisor] twice, each time depending on
    [policy_expert]: its dependency graph has no cycle. *)
Definition repeated_items : list JVal :=
  [ JObj [ ("role_id", JStr "policy_expert"); ("depends_on", JArr []) ];
    JObj [ ("role_id", JStr "financial_advisor");
           ("depends_on", JArr [JStr "policy_expert"]) ];
    JObj [ ("role_id", JStr "financial_advisor");
           ("depends_on", JArr [JStr "policy_expert"]) ] ].

Definition repeated_reply : JVal :=
  JObj [ ("nodes", JArr repeated_items); ("reason", JStr "") ].

Definition repeated_nodes : list Intent.ExecutionNode :=
  [ Intent.mkNode "policy_expert" [];
    Intent.mkNode "financial_advisor" ["policy_expert"];
    Intent.mkNode "financial_advisor" ["policy_expert"] ].

(** Two role ids are removed, for three nodes, and the parser clears
    the dependencies: the two [financial_advisor] nodes no longer wait
    for [policy_expert]. *)
Example parse_repeated_reply :
  Intent.parse_nodes Roles.get_role repeated_items = Ret repeated_nodes
  /\ Intent.visited_count repeated_nodes = Ret 2
  /\ Intent._parse_plan_data Roles.get_role repeated_reply
     = Ret (Intent.mkPlan [ Intent.mkNode "policy_expert" [];
                            Intent.mkNode "financial_advisor" [];
                            Intent.mkNode "financial_advisor" [] ] (JStr "")).
Proof. repeat split; reflexivity. Qed.



(** A reply whose only node depends on a known specialist that the plan
    does not contain. *)
Definition dangling_reply : JVal :=
  JObj [ ("nodes", JArr [ JObj [ ("role_id", JStr "financial_advisor");
                                 ("depends_on", JArr [JStr "policy_expert"]) ] ]);
         ("reason", JStr "") ].

Definition dangling_plan : Intent.ExecutionPlan :=
  Intent.mkPlan [Intent.mkNode "financial_advisor" ["policy_expert"]] (JStr "").

Example parse_dangling_reply :
  Intent._parse_plan_data Roles.get_role dangling_reply = Ret dangling_plan.
Proof. reflexivity. Qed.

(** The plan passes [_validate_dag], which skips a dependency that is
    not a node of the plan. *)
Example dangling_plan_is_valid : Intent._validate_dag (Intent.nodes dangling_plan) = Ret true.
Proof. reflexivity. Qed.

(** The node of that plan is never ready: the scheduler runs nothing. *)
Example dangling_plan_stalls : Intent.get_ready_nodes dangling_plan ∅ = [].
Proof. reflexivity. Qed.

(** So the turn run on that plan ends at once: no event is sent, no
    request goes to the model, nothing is stored. *)
Example dangling_plan_runs_nothing :
  Engine._process_dag_mode (Samples.world Samples.steady) "q" dangling_plan Samples.fresh
  = ([], Samples.fresh, Ret tt).
Proof. reflexivity. Qed.

(** C6, counterexample.  The parser keeps the dependency of
    [financial_advisor] on [policy_expert] although the plan has no
    [policy_expert] node. *)
Lemma dependency_on_absent_node_is_kept : ~ edges_name_plan_nodes Roles.get_role.
Proof.
  intros H.
  specialize (H dangling_reply dangling_plan parse_dangling_reply
                (Intent.mkNode "financial_advisor" ["policy_expert"])
                (list_elem_of_here _ _) "policy_expert" (list_elem_of_here _ _)).
  unfold Intent.role_ids in H. simpl in H.
  apply list_elem_of_singleton in H. discriminate H.
Qed.

(** C6, witness: the statement at that reply. *)
Lemma parsed_plan_names_known_roles_witness :
  Intent.nodes dangling_plan = [Intent.mkNode "purchase_consultant" []]
  \/ (exists nodes_data items ok,
        py_get dangling_reply "nodes" (JArr []) = Ret nodes_data
        /\ py_iter nodes_data = Ret items
        /\ Intent.role_ids dangling_plan = omap (role_of Roles.get_role) items
        /\ (forall n, n ∈ Intent.nodes dangling_plan -> names_known_roles Roles.get_role n)
        /\ Intent._validate_dag (omap (node_of Roles.get_role) items) = Ret ok
        /\ Intent.nodes dangling_plan
           = if ok then omap (node_of Roles.get_role) items
             else Intent.clear_depends (omap (node_of Roles.get_role) items)).
Proof.
  apply (parsed_plan_names_known_roles Roles.get_role dangling_reply dangling_plan).
  reflexivity.
Defined.

(** *** [plan_execution] *)

Section PlanExecutionFacts.
Import Intent.

Variable get_role : string -> option Role.
Variable json_loads : string -> JVal + string.
Variable strip : string -> string.
Variable SYSTEM_PROMPT : string.
Variable chat : list Message -> Outcome JVal.

Lemma py_get_no_diverge v k d : py_get v k d ≠ Diverge.
Proof. by destruct v. Qed.

Lemma py_iter_no_diverge v : py_iter v ≠ Diverge.
Proof. by destruct v. Qed.

Lemma py_index0_no_diverge v : py_index0 v ≠ Diverge.
Proof. destruct v as [| | | |[|]|[|]|]; done. Qed.

Lemma parse_node_no_diverge nd : parse_node get_role nd ≠ Diverge.
Proof.
  unfold parse_node.
  destruct (py_get nd "role_id" (JStr "")) as [rid| |] eqn:E1; simpl; try done.
  - destruct (known_role get_role rid); [|done].
    destruct (py_get nd "depends_on" (JArr [])) as [deps| |] eqn:E2; simpl; try done.
    + destruct (py_iter deps) eqn:E3; simpl; try done. by apply py_iter_no_diverge in E3.
    + by apply py_get_no_diverge in E2.
  - by apply py_get_no_diverge in E1.
Qed.

Lemma parse_nodes_no_diverge items : parse_nodes get_role items ≠ Diverge.
Proof.
  induction items as [|nd items IH]; simpl; [done|].
  destruct (parse_node get_role nd) eqn:E; simpl; try done.
  - by destruct (parse_nodes get_role items).
  - by apply parse_node_no_diverge in E.
Qed.

Lemma parse_plan_data_no_diverge data : _parse_plan_data get_role data ≠ Diverge.
Proof.
  unfold _parse_plan_data.
  destruct (py_get data "nodes" (JArr [])) as [nodes_data| |] eqn:E1; simpl; try done.
  2:{ by apply py_get_no_diverge in E1. }
  destruct (py_iter nodes_data) as [items| |] eqn:E2; simpl; try done.
  2:{ by apply py_iter_no_diverge in E2. }
  destruct (parse_nodes get_role items) as [ns| |] eqn:E3; simpl; try done.
  2:{ by apply parse_nodes_no_diverge in E3. }
  destruct ns as [|n0 ns0]; [done|].
  destruct (validate_dag_total (n0 :: ns0)) as (v & _ & ->). simpl.
  destruct (py_get data "reason" (JStr "")) eqn:E4; simpl; try done.
  by apply py_get_no_diverge in E4.
Qed.

Lemma parse_plan_response_no_diverge content :
  _parse_plan_response get_role json_loads content ≠ Diverge.
Proof.
  unfold _parse_plan_response. destruct content as [| | | |s| |]; try done.
  destruct (re_search_json s) as [m|]; [|done].
  destruct (json_loads m) as [data|msg]; [|done].
  destruct (_parse_plan_data get_role data) as [p|[]|] eqn:E; try done.
  by apply parse_plan_data_no_diverge in E.
Qed.

Lemma response_content_no_diverge response : response_content response ≠ Diverge.
Proof.
  unfold response_content.
  destruct (py_get response "choices" (JArr [JObj []])) as [choices| |] eqn:E1; simpl; try done.
  2:{ by apply py_get_no_diverge in E1. }
  destruct (py_index0 choices) as [choice| |] eqn:E2; simpl; try done.
  2:{ by apply py_index0_no_diverge in E2. }
  destruct (py_get choice "message" (JObj [])) as [msg| |] eqn:E3; simpl; try done.
  - apply py_get_no_diverge.
  - by apply py_get_no_diverge in E3.
Qed.

Lemma plan_with_llm_diverge user_input :
  _plan_with_llm get_role json_loads SYSTEM_PROMPT chat user_input = Diverge ->
  chat (plan_messages SYSTEM_PROMPT user_input) = Diverge.
Proof.
  unfold _plan_with_llm.
  destruct (chat (plan_messages SYSTEM_PROMPT user_input)) as [response| |]; simpl; try done.
  destruct (response_content response) as [content| |] eqn:E; simpl; try done.
  - intros H. by apply parse_plan_response_no_diverge in H.
  - by apply response_content_no_diverge in E.
Qed.

(** C5.  [plan_execution] never raises, and returns a plan whenever the
    model call itself returns or raises.  A whitespace-only input gives
    the one-node plan of the synthesizer with no dependency; so does a
    failed model call, with the message of the [LLMError] (or the text of
    any other exception) in the rationale; so does a reply without JSON,
    or whose JSON does not parse, with the text of the parse failure in
    the rationale. *)
Theorem plan_execution_never_raises :
  let plan_execution := plan_execution get_role json_loads strip SYSTEM_PROMPT chat in
  let call := fun user_input => chat (plan_messages SYSTEM_PROMPT (strip user_input)) in
  (forall why, nodes (default_plan why) = [mkNode "purchase_consultant" []]
               /\ reason (default_plan why) = JStr why)
  /\ (forall user_input e, plan_execution user_input ≠ Raise e)
  /\ (forall user_input, call user_input ≠ Diverge ->
        exists plan, plan_execution user_input = Ret plan)
  /\ (forall user_input, strip user_input = "" ->
        plan_execution user_input = Ret (default_plan "空输入，使用默认角色"))
  /\ (forall user_input e, strip user_input ≠ "" ->
        call user_input = Raise (ExcLLM e) ->
        plan_execution user_input
        = Ret (default_plan ("LLM 调用失败，使用默认角色: " +:+ message e)))
  /\ (forall user_input e, strip user_input ≠ "" ->
        call user_input = Raise e -> (forall e', e ≠ ExcLLM e') ->
        plan_execution user_input
        = Ret (default_plan ("规划失败，使用默认角色: " +:+ str_exc e)))
  /\ (forall user_input response s, strip user_input ≠ "" ->
        call user_input = Ret response ->
        response_content response = Ret (JStr s) ->
        re_search_json s = None ->
        plan_execution user_input
        = Ret (default_plan "解析失败，使用默认角色: No JSON found in response"))
  /\ (forall user_input response s m msg, strip user_input ≠ "" ->
        call user_input = Ret response ->
        response_content response = Ret (JStr s) ->
        re_search_json s = Some m -> json_loads m = inr msg ->
        plan_execution user_input
        = Ret (default_plan ("解析失败，使用默认角色: " +:+ msg))).
Proof.
  intros plan_execution call. unfold plan_execution, call, Intent.plan_execution.
  repeat apply conj.
  - done.
  - intros user_input e. destruct (String.eqb (strip user_input) ""); [done|].
    destruct (_plan_with_llm _ _ _ _ _) as [p|[]|]; done.
  - intros user_input Hcall. destruct (String.eqb (strip user_input) ""); [by eexists|].
    destruct (_plan_with_llm _ _ _ _ _) as [p|[]|] eqn:E; try by eexists.
    by apply plan_with_llm_diverge in E.
  - intros user_input ->. done.
  - intros user_input e Hne Hcall. apply String.eqb_neq in Hne. rewrite Hne.
    unfold _plan_with_llm. by rewrite Hcall.
  - intros user_input e Hne Hcall Hnot. apply String.eqb_neq in Hne. rewrite Hne.
    unfold _plan_with_llm. rewrite Hcall. simpl.
    destruct e; try done. by specialize (Hnot e).
  - intros user_input response s Hne Hcall Hcontent Hsearch.
    apply String.eqb_neq in Hne. rewrite Hne.
    unfold _plan_with_llm. rewrite Hcall. simpl. rewrite Hcontent. simpl.
    unfold _parse_plan_response. by rewrite Hsearch.
  - intros user_input response s m msg Hne Hcall Hcontent Hsearch Hloads.
    apply String.eqb_neq in Hne. rewrite Hne.
    unfold _plan_with_llm. rewrite Hcall. simpl. rewrite Hcontent. simpl.
    unfold _parse_plan_response. by rewrite Hsearch, Hloads.
Qed.

End PlanExecutionFacts.


(** ** Generators *)

Section GenFacts.
Import Client Engine.

(** The parts of a run. *)
Definition events_of {A} (r : list Event * St * Outcome A) : list Event := r.1.1.
Definition state_of {A} (r : list Event * St * Outcome A) : St := r.1.2.
Definition outcome_of {A} (r : list Event * St * Outcome A) : Outcome A := r.2.

Lemma events_of_run {A} evs s (o : Outcome A) : events_of (evs, s, o) = evs.
Proof. done. Qed.
Lemma state_of_run {A} evs s (o : Outcome A) : state_of (evs, s, o) = s.
Proof. done. Qed.
Lemma outcome_of_run {A} evs s (o : Outcome A) : outcome_of (evs, s, o) = o.
Proof. done. Qed.

Lemma run_eta {A} (r : list Event * St * Outcome A) :
  (events_of r, state_of r, outcome_of r) = r.
Proof. by destruct r as [[? ?] ?]. Qed.

Lemma run_bind {A B} (m : Gen A) (k : A -> Gen B) s :
  (m ≫= k) s =
    match outcome_of (m s) with
    | Ret a =>
        (events_of (m s) ++ events_of (k a (state_of (m s))),
         state_of (k a (state_of (m s))), outcome_of (k a (state_of (m s))))
    | Raise e => (events_of (m s), state_of (m s), Raise e)
    | Diverge => (events_of (m s), state_of (m s), Diverge)
    end.
Proof.
  unfold mbind, gen_bind, events_of, state_of, outcome_of.
  destruct (m s) as [[ev1 s1] [a|e|]]; simpl; try done.
  by destruct (k a s1) as [[ev2 s2] o].
Qed.

Lemma run_bind_yield_all {B} es (k : unit -> Gen B) s :
  (yield_all es ≫= k) s
  = (es ++ events_of (k tt s), state_of (k tt s), outcome_of (k tt s)).
Proof. by rewrite run_bind. Qed.

Lemma run_bind_yield {B} e (k : unit -> Gen B) s :
  (yield e ≫= k) s
  = (e :: events_of (k tt s), state_of (k tt s), outcome_of (k tt s)).
Proof. by rewrite run_bind. Qed.

Lemma run_bind_ret {A B} (a : A) (k : A -> Gen B) s : (mret a ≫= k) s = k a s.
Proof. rewrite run_bind. simpl. apply run_eta. Qed.

Lemma run_bind_get_ctx {B} (k : ConversationContext -> Gen B) s :
  (get_ctx ≫= k) s = k (ctx s) s.
Proof. rewrite run_bind. simpl. apply run_eta. Qed.

Lemma run_bind_modify_ctx {B} f (k : unit -> Gen B) s :
  (modify_ctx f ≫= k) s = k tt (mkSt (f (ctx s)) (calls s)).
Proof. rewrite run_bind. simpl. apply run_eta. Qed.

Lemma run_bind_stream_call {B} w req
  (k : list StreamChunk * option LLMError -> Gen B) s :
  (stream_call w req ≫= k) s
  = k (chat_stream (w_llm_stream w (length (calls s)) req))
      (mkSt (ctx s) (calls s ++ [req])).
Proof. rewrite run_bind. simpl. apply run_eta. Qed.

Lemma run_bind_chat_call {B} w req (k : JVal -> Gen B) s :
  (chat_call w req ≫= k) s
  = match Client.chat (w_py_str w) (w_llm_post w (length (calls s)) req) with
    | Ret a => k a (mkSt (ctx s) (calls s ++ [req]))
    | Raise e => ([], mkSt (ctx s) (calls s ++ [req]), Raise e)
    | Diverge => ([], mkSt (ctx s) (calls s ++ [req]), Diverge)
    end.
Proof.
  rewrite run_bind. unfold chat_call, events_of, state_of, outcome_of. simpl.
  destruct (Client.chat _ _); simpl; try done. apply run_eta.
Qed.

Lemma run_bind_lift {A B} (o : Outcome A) (k : A -> Gen B) s :
  (lift o ≫= k) s =
    match o with
    | Ret a => k a s
    | Raise e => ([], s, Raise e)
    | Diverge => ([], s, Diverge)
    end.
Proof. rewrite run_bind. destruct o; simpl; try done. apply run_eta. Qed.

Lemma run_try_gen {A} (m : Gen A) (h : Exc -> Gen A) s :
  try_gen m h s =
    match outcome_of (m s) with
    | Raise e =>
        (events_of (m s) ++ events_of (h e (state_of (m s))),
         state_of (h e (state_of (m s))), outcome_of (h e (state_of (m s))))
    | _ => m s
    end.
Proof.
  unfold try_gen, events_of, state_of, outcome_of.
  destruct (m s) as [[ev1 s1] [a|e|]]; simpl; try done.
  by destruct (h e s1) as [[ev2 s2] o].
Qed.

Lemma run_for_events {L} (m : Gen unit) (h : L -> Event -> Gen L) acc s :
  for_events m h acc s =
    let c := consume h acc (events_of (m s)) (state_of (m s)) in
    match outcome_of c with
    | Ret acc' =>
        (events_of c, state_of c,
         match outcome_of (m s) with
         | Ret _ => Ret acc'
         | Raise e => Raise e
         | Diverge => Diverge
         end)
    | _ => c
    end.
Proof.
  unfold for_events, events_of, state_of, outcome_of.
  destruct (m s) as [[evs s1] o]; simpl.
  by destruct (consume h acc evs s1) as [[out s2] [a|e|]].
Qed.

(** A computation only appends to the log of model calls. *)
Definition extends {A} (m : Gen A) : Prop :=
  forall s, exists rest, calls (state_of (m s)) = calls s ++ rest.

(** Every event a computation yields satisfies [P]. *)
Definition emits (P : Event -> Prop) {A} (m : Gen A) : Prop :=
  forall s, Forall P (events_of (m s)).

(** A computation never ends with an exception. *)
Definition no_raise {A} (m : Gen A) : Prop :=
  forall s e, outcome_of (m s) ≠ Raise e.

Lemma extends_bind {A B} (m : Gen A) (k : A -> Gen B) :
  extends m -> (forall a, extends (k a)) -> extends (m ≫= k).
Proof.
  intros Hm Hk s. rewrite run_bind. destruct (Hm s) as [r1 H1].
  destruct (outcome_of (m s)) as [a| |]; [|by exists r1..].
  destruct (Hk a (state_of (m s))) as [r2 H2]. exists (r1 ++ r2).
  unfold state_of at 1. simpl. by rewrite H2, H1, app_assoc.
Qed.

Lemma emits_bind P {A B} (m : Gen A) (k : A -> Gen B) :
  emits P m -> (forall a, emits P (k a)) -> emits P (m ≫= k).
Proof.
  intros Hm Hk s. rewrite run_bind. specialize (Hm s).
  destruct (outcome_of (m s)) as [a| |]; [|done..].
  unfold events_of at 1. simpl. apply Forall_app. split; [done | apply Hk].
Qed.

Lemma no_raise_bind {A B} (m : Gen A) (k : A -> Gen B) :
  no_raise m -> (forall a, no_raise (k a)) -> no_raise (m ≫= k).
Proof.
  intros Hm Hk s e. rewrite run_bind. specialize (Hm s).
  destruct (outcome_of (m s)) as [a|e'|]; [apply Hk | by destruct (Hm e') | done].
Qed.

Lemma extends_try {A} (m : Gen A) h :
  extends m -> (forall e, extends (h e)) -> extends (try_gen m h).
Proof.
  intros Hm Hh s. rewrite run_try_gen. destruct (Hm s) as [r1 H1].
  destruct (outcome_of (m s)) as [a|e|]; [by exists r1| |by exists r1].
  destruct (Hh e (state_of (m s))) as [r2 H2]. exists (r1 ++ r2).
  unfold state_of at 1. simpl. by rewrite H2, H1, app_assoc.
Qed.

Lemma emits_try P {A} (m : Gen A) h :
  emits P m -> (forall e, emits P (h e)) -> emits P (try_gen m h).
Proof.
  intros Hm Hh s. rewrite run_try_gen. specialize (Hm s).
  destruct (outcome_of (m s)) as [a|e|]; [done| |done].
  unfold events_of at 1. simpl. apply Forall_app. split; [done | apply Hh].
Qed.

Lemma no_raise_try {A} (m : Gen A) h :
  (forall e, no_raise (h e)) -> no_raise (try_gen m h).
Proof.
  intros Hh s e. rewrite run_try_gen.
  destruct (outcome_of (m s)) as [a|e'|] eqn:E; [by rewrite E | apply Hh | by rewrite E].
Qed.

Lemma extends_ret {A} (a : A) : extends (mret a).
Proof. intros s. exists []. simpl. by rewrite app_nil_r. Qed.
Lemma extends_yield e : extends (yield e).
Proof. intros s. exists []. simpl. by rewrite app_nil_r. Qed.
Lemma extends_yield_all es : extends (yield_all es).
Proof. intros s. exists []. simpl. by rewrite app_nil_r. Qed.
Lemma extends_raise {A} e : extends (raise (A := A) e).
Proof. intros s. exists []. simpl. by rewrite app_nil_r. Qed.
Lemma extends_diverge {A} : extends (diverge (A := A)).
Proof. intros s. exists []. simpl. by rewrite app_nil_r. Qed.
Lemma extends_lift {A} (o : Outcome A) : extends (lift o).
Proof. intros s. exists []. simpl. by rewrite app_nil_r. Qed.
Lemma extends_get_ctx : extends get_ctx.
Proof. intros s. exists []. simpl. by rewrite app_nil_r. Qed.
Lemma extends_modify_ctx f : extends (modify_ctx f).
Proof. intros s. exists []. simpl. by rewrite app_nil_r. Qed.
Lemma extends_chat_call w req : extends (chat_call w req).
Proof. intros s. by exists [req]. Qed.
Lemma extends_stream_call w req : extends (stream_call w req).
Proof. intros s. by exists [req]. Qed.

Lemma emits_ret P {A} (a : A) : emits P (mret a).
Proof. intros s. apply Forall_nil_2. Qed.
Lemma emits_yield (P : Event -> Prop) e : P e -> emits P (yield e).
Proof. intros H s. by apply Forall_singleton. Qed.
Lemma emits_yield_all (P : Event -> Prop) es : Forall P es -> emits P (yield_all es).
Proof. by intros H s. Qed.
Lemma emits_raise P {A} e : emits P (raise (A := A) e).
Proof. intros s. apply Forall_nil_2. Qed.
Lemma emits_diverge P {A} : emits P (diverge (A := A)).
Proof. intros s. apply Forall_nil_2. Qed.
Lemma emits_lift P {A} (o : Outcome A) : emits P (lift o).
Proof. intros s. apply Forall_nil_2. Qed.
Lemma emits_get_ctx P : emits P get_ctx.
Proof. intros s. apply Forall_nil_2. Qed.
Lemma emits_modify_ctx P f : emits P (modify_ctx f).
Proof. intros s. apply Forall_nil_2. Qed.
Lemma emits_chat_call P w req : emits P (chat_call w req).
Proof. intros s. apply Forall_nil_2. Qed.
Lemma emits_stream_call P w req : emits P (stream_call w req).
Proof. intros s. apply Forall_nil_2. Qed.

Lemma no_raise_ret {A} (a : A) : no_raise (mret a).
Proof. by intros s e. Qed.
Lemma no_raise_yield e : no_raise (yield e).
Proof. by intros s e'. Qed.
Lemma no_raise_yield_all es : no_raise (yield_all es).
Proof. by intros s e'. Qed.
Lemma no_raise_modify_ctx f : no_raise (modify_ctx f).
Proof. by intros s e'. Qed.
Lemma no_raise_get_ctx : no_raise get_ctx.
Proof. by intros s e'. Qed.

End GenFacts.

(** ** The engine *)

Section EngineFacts.
Import Client Tools Intent Engine.

Variable w : World.

Local Abbreviation get_role := (w_get_role w).
Local Abbreviation registry := (w_registry w).
Local Abbreviation json_loads := (w_json_loads w).
Local Abbreviation json_dumps := (w_json_dumps w).
Local Abbreviation llm_post := (w_llm_post w).
Local Abbreviation llm_stream := (w_llm_stream w).

(** *** Tool calls *)

Lemma run_tools_messages role_id tcs : forall messages,
  (run_tools w role_id tcs messages).2 = messages ++ map (tool_message w) tcs.
Proof.
  induction tcs as [|tc tcs IH]; intros messages; simpl.
  - by rewrite app_nil_r.
  - rewrite IH. by rewrite <- app_assoc.
Qed.

Lemma run_tools_events role_id tcs : forall messages,
  (run_tools w role_id tcs messages).1 = flat_map (tool_events w role_id) tcs.
Proof.
  induction tcs as [|tc tcs IH]; intros messages; simpl; [done|]. by rewrite IH.
Qed.

(** The message list sent back to the model after a round of tool calls. *)
Definition fed_back (messages : list Message) (assistant_content : Text)
  (tcs : list ToolCall) : list Message :=
  messages ++ [mkMessage "assistant" assistant_content (Some tcs) None]
  ++ map (tool_message w) tcs.

Definition stream_assistant_content (text : string) : option string :=
  if String.eqb text "" then None else Some text.

(** One step of [_handle_tool_calls_stream]. *)
Lemma handle_stream_step fuel tcs role messages text s :
  let req := mkRequest (fed_back messages (stream_assistant_content text) tcs)
                       (tools_of w role) true in
  let r := chat_stream (llm_stream (length (calls s)) req) in
  let s1 := mkSt (ctx s) (calls s ++ [req]) in
  let evs := flat_map (tool_events w (id role)) tcs ++ deltas_events (id role) true r.1 in
  _handle_tool_calls_stream w (S fuel) tcs role messages text s =
    match r.2 with
    | Some e => (evs, s1, Raise (ExcLLM e))
    | None =>
        match tool_calls (get_result (collect r.1)) with
        | [] => (evs ++ [tool_content_complete (id role) (String.concat "" (content_deltas r.1))],
                 s1, Ret tt)
        | more =>
            let notice_events :=
              if String.eqb (w_strip w (String.concat "" (content_deltas r.1))) "" then []
              else [thinking_step "planning" (notice w (String.concat "" (content_deltas r.1)))
                                  (Some (id role))] in
            let rest := _handle_tool_calls_stream w fuel more role req.(req_messages)
                          (content (get_result (collect r.1))) s1 in
            (evs ++ notice_events ++ events_of rest, state_of rest, outcome_of rest)
        end
    end.
Proof.
  intros req r s1 evs.
  assert (Hmsgs : (run_tools w (id role) tcs
                     (messages ++ [mkMessage "assistant" (stream_assistant_content text)
                                             (Some tcs) None])).2 = req_messages req).
  { rewrite run_tools_messages. unfold req, fed_back. simpl. by rewrite <- app_assoc. }
  assert (Hevs : (run_tools w (id role) tcs
                     (messages ++ [mkMessage "assistant" (stream_assistant_content text)
                                             (Some tcs) None])).1
                 = flat_map (tool_events w (id role)) tcs) by apply run_tools_events.
  unfold _handle_tool_calls_stream; fold _handle_tool_calls_stream.
  unfold stream_assistant_content in *.
  cbv zeta. rewrite Hmsgs, Hevs.
  change (mkRequest (req_messages req) (tools_of w role) true) with req.
  rewrite run_bind_yield_all, run_bind_stream_call. fold s1. fold r.
  rewrite run_bind_yield_all. unfold evs.
  destruct r.2 as [e|].
  { unfold raise, events_of, state_of, outcome_of. simpl. by rewrite app_nil_r. }
  destruct (tool_calls (get_result (collect r.1))) as [|tc more].
  { unfold yield, events_of, state_of, outcome_of. simpl. by rewrite <- app_assoc. }
  destruct (String.eqb (w_strip w _) "").
  - rewrite run_bind_ret. unfold events_of at 1 2, state_of at 1 2, outcome_of at 1 2. simpl.
    by rewrite <- app_assoc.
  - rewrite run_bind_yield. unfold events_of at 1 2, state_of at 1 2, outcome_of at 1 2. simpl.
    by rewrite <- app_assoc.
Qed.

(** The streaming handler only appends to the log of model calls, and the
    only exception it can end with is the model client's. *)
Lemma handle_stream_calls fuel : forall tcs role messages text s,
  exists rest,
    calls (state_of (_handle_tool_calls_stream w fuel tcs role messages text s))
    = calls s ++ rest.
Proof.
  induction fuel as [|fuel IH]; intros tcs role messages text s.
  - exists []. simpl. by rewrite app_nil_r.
  - rewrite handle_stream_step. cbv zeta.
    destruct (chat_stream _).2; [by eexists|].
    destruct (tool_calls _) as [|tc more]; [by eexists|].
    unfold state_of at 1. simpl.
    edestruct IH as [rest Hrest]. rewrite Hrest. simpl.
    rewrite <- app_assoc. by eexists.
Qed.

Lemma handle_stream_raises fuel : forall tcs role messages text s e,
  outcome_of (_handle_tool_calls_stream w fuel tcs role messages text s) = Raise e ->
  exists le, e = ExcLLM le.
Proof.
  induction fuel as [|fuel IH]; intros tcs role messages text s e.
  - done.
  - rewrite handle_stream_step. cbv zeta.
    destruct (chat_stream _).2 as [le|]; [intros [= <-]; by eexists|].
    destruct (tool_calls _) as [|tc more]; [done|].
    unfold outcome_of at 1. simpl. apply IH.
Qed.

Lemma process_with_extends handle response role messages emit :
  (forall tcs role messages text emit, extends (handle tcs role messages text emit)) ->
  extends (process_with handle response role messages emit).
Proof.
  intros Hh. unfold process_with. apply extends_bind; [apply extends_lift|].
  intros d. destruct d.1; [apply extends_ret | apply Hh].
Qed.

Lemma handle_calls_extends fuel : forall tcs role messages (text : Text) emit,
  extends (_handle_tool_calls w fuel tcs role messages text emit).
Proof.
  induction fuel as [|fuel IH]; intros tcs role messages text emit.
  - apply extends_diverge.
  - unfold _handle_tool_calls; fold _handle_tool_calls. cbv zeta.
    apply extends_bind; [apply extends_chat_call|]. intros response.
    apply extends_bind; [by apply process_with_extends|]. intros r. apply extends_ret.
Qed.

(** One step of [_handle_tool_calls]: the request it sends. *)
Lemma handle_calls_first fuel tcs role messages (text : Text) emit s :
  exists rest,
    calls (state_of (_handle_tool_calls w (S fuel) tcs role messages text emit s))
    = calls s ++ mkRequest (fed_back messages text tcs) (tools_of w role) false :: rest.
Proof.
  unfold _handle_tool_calls; fold _handle_tool_calls. cbv zeta.
  rewrite run_tools_messages, <- app_assoc.
  change (messages ++ [mkMessage "assistant" text (Some tcs) None] ++ map (tool_message w) tcs)
    with (fed_back messages text tcs).
  rewrite run_bind_chat_call.
  destruct (Client.chat _ _) as [response| |]; [|by eexists..].
  match goal with
  | |- context [state_of (?m ?s1)] =>
      assert (extends m) as Hext
  end.
  { apply extends_bind; [apply process_with_extends, handle_calls_extends|].
    intros r. apply extends_ret. }
  edestruct Hext as [rest Hrest]. rewrite Hrest. simpl. rewrite <- app_assoc. by eexists.
Qed.

(** C8.  For every tool call the model requests: an argument string that
    is not JSON is read as the empty argument map; a name absent from the
    registry, and a tool whose execution raises (its parameter validation
    included, which runs inside [execute]), each give the tool-result text
    [json.dumps({"error": message})].  The loop over the calls cannot
    raise: it appends exactly one tool message per call, in order, and the
    next request to the model carries the messages so far, the assistant
    message with the calls and these tool messages, on the streaming path
    and on the one-shot path.  The only exception the streaming handler
    can end with is an [LLMError] of the model client. *)
Theorem tool_failures_are_fed_back :
  (forall tc msg, json_loads (tc_arguments tc) = inr msg ->
                  tool_args_of w (tc_arguments tc) = JObj [])
  /\ (forall tc, registry !! tc_name tc = None ->
        run_tool w tc
        = (json_dumps (JObj [("error", JStr ("工具 " +:+ tc_name tc +:+ " 不存在"))]), false))
  /\ (forall tc tool e, registry !! tc_name tc = Some tool ->
        call_execute tool (tool_args_of w (tc_arguments tc)) = inr e ->
        run_tool w tc = (json_dumps (JObj [("error", JStr (str_exc e))]), false))
  /\ (forall role_id tcs messages,
        (run_tools w role_id tcs messages).2
        = messages ++ map (fun tc => mkMessage "tool" (Some (run_tool w tc).1) None
                                               (Some (tc_id tc))) tcs)
  /\ (forall fuel tcs role messages text s,
        exists rest,
          calls (state_of (_handle_tool_calls_stream w (S fuel) tcs role messages text s))
          = calls s ++ mkRequest (fed_back messages (stream_assistant_content text) tcs)
                                 (tools_of w role) true :: rest)
  /\ (forall fuel tcs role messages text emit s,
        exists rest,
          calls (state_of (_handle_tool_calls w (S fuel) tcs role messages text emit s))
          = calls s ++ mkRequest (fed_back messages text tcs) (tools_of w role) false :: rest)
  /\ (forall fuel tcs role messages text s e,
        outcome_of (_handle_tool_calls_stream w fuel tcs role messages text s) = Raise e ->
        exists le, e = ExcLLM le).
Proof.
  repeat apply conj.
  - intros tc msg H. unfold tool_args_of. by rewrite H.
  - intros tc H. unfold run_tool, Tools.get. by rewrite H.
  - intros tc tool e H He. unfold run_tool, Tools.get. by rewrite H, He.
  - apply run_tools_messages.
  - intros fuel tcs role messages text s. rewrite handle_stream_step. cbv zeta.
    destruct (chat_stream _).2; [by eexists|].
    destruct (tool_calls _) as [|tc more]; [by eexists|].
    unfold state_of at 1. simpl.
    edestruct handle_stream_calls as [rest Hrest]. rewrite Hrest. simpl.
    rewrite <- app_assoc. by eexists.
  - apply handle_calls_first.
  - apply handle_stream_raises.
Qed.

End EngineFacts.

(** *** What a node relays *)

Section RelayFacts.
Import Client Tools Intent Engine.

Variable w : World.

Local Abbreviation get_role := (w_get_role w).

(** A computation that returns, returns a value satisfying [Q]. *)
Definition returns {A} (Q : A -> Prop) (m : Gen A) : Prop :=
  forall s a, outcome_of (m s) = Ret a -> Q a.

Lemma returns_bind {A B} (Q' : A -> Prop) (Q : B -> Prop) (m : Gen A) (k : A -> Gen B) :
  returns Q' m -> (forall a, Q' a -> returns Q (k a)) -> returns Q (m ≫= k).
Proof.
  intros Hm Hk s b. rewrite run_bind. specialize (Hm s).
  destruct (outcome_of (m s)) as [a| |]; [|done..].
  unfold outcome_of at 1. simpl. apply Hk. by apply Hm.
Qed.

Lemma returns_try {A} (Q : A -> Prop) (m : Gen A) h :
  returns Q m -> (forall e, returns Q (h e)) -> returns Q (try_gen m h).
Proof.
  intros Hm Hh s a. rewrite run_try_gen. specialize (Hm s).
  destruct (outcome_of (m s)) as [a'|e|] eqn:E.
  - rewrite E. intros [= <-]. by apply Hm.
  - unfold outcome_of at 1. simpl. apply Hh.
  - by rewrite E.
Qed.

Lemma returns_ret {A} (Q : A -> Prop) a : Q a -> returns Q (mret a).
Proof. intros H s a'. by intros [= <-]. Qed.

Lemma returns_True {A} (m : Gen A) : returns (fun _ => True) m.
Proof. done. Qed.

(** With a postcondition for the first computation. *)
Lemma emits_bind_returns P {A B} (Q : A -> Prop) (m : Gen A) (k : A -> Gen B) :
  emits P m -> returns Q m -> (forall a, Q a -> emits P (k a)) -> emits P (m ≫= k).
Proof.
  intros Hm Hq Hk s. rewrite run_bind. specialize (Hm s). specialize (Hq s).
  destruct (outcome_of (m s)) as [a| |]; [|done..].
  unfold events_of at 1. simpl. apply Forall_app. split; [done|]. by apply Hk, Hq.
Qed.

Lemma emits_consume P {L} (h : L -> Event -> Gen L) evs : forall acc,
  (forall acc e, emits P (h acc e)) -> emits P (consume h acc evs).
Proof.
  induction evs as [|e evs IH]; intros acc Hh; simpl.
  - apply emits_ret.
  - apply emits_bind; [apply Hh|]. intros acc'. by apply IH.
Qed.

Lemma emits_for_events P {L} (m : Gen unit) (h : L -> Event -> Gen L) acc :
  (forall acc e, emits P (h acc e)) -> emits P (for_events m h acc).
Proof.
  intros Hh s. rewrite run_for_events. cbv zeta.
  pose proof (emits_consume P h (events_of (m s)) acc Hh (state_of (m s))) as Hc.
  by destruct (outcome_of (consume h acc (events_of (m s)) (state_of (m s)))).
Qed.

Lemma extends_consume {L} (h : L -> Event -> Gen L) evs : forall acc,
  (forall acc e, extends (h acc e)) -> extends (consume h acc evs).
Proof.
  induction evs as [|e evs IH]; intros acc Hh; simpl.
  - apply extends_ret.
  - apply extends_bind; [apply Hh|]. intros acc'. by apply IH.
Qed.

(** Not a content increment. *)
Definition quiet (e : Event) : Prop := is_content_delta e = false.

(** The events a consumer with [relay_event] lets through. *)
Definition relayed (relay : bool) (e : Event) : bool :=
  is_tool_event e || (relay && is_content_delta e).

Lemma consume_relay relay role evs : forall acc s,
  events_of (consume (relay_event relay role) acc evs s) = List.filter (relayed relay) evs
  /\ calls (state_of (consume (relay_event relay role) acc evs s)) = calls s
  /\ exists acc', outcome_of (consume (relay_event relay role) acc evs s) = Ret acc'.
Proof.
  induction evs as [|e evs IH]; intros acc s; simpl.
  - split; [done|]. split; [done|]. by eexists.
  - rewrite run_bind.
    assert (Hstep : exists acc1 s1,
               relay_event relay role acc e s
               = (if relayed relay e then [e] else [], s1, Ret acc1)
               /\ calls s1 = calls s).
    { destruct e, relay; simpl; by eexists _, _. }
    destruct Hstep as (acc1 & s1 & Hstep & Hcalls). rewrite Hstep.
    rewrite !outcome_of_run, !state_of_run, !events_of_run.
    destruct (IH acc1 s1) as (Hev & Hst & Hout).
    rewrite Hev, Hst, Hcalls.
    split; [by destruct (relayed relay e)|]. split; [done|]. done.
Qed.

Lemma filter_filter_tool relay evs :
  List.filter is_tool_event (List.filter (relayed relay) evs) = List.filter is_tool_event evs.
Proof.
  induction evs as [|e evs IH]; simpl; [done|]. unfold relayed at 1.
  destruct (is_tool_event e) eqn:E; simpl.
  - rewrite E. by f_equal.
  - destruct (relay && is_content_delta e); simpl; [by rewrite E|done].
Qed.

Lemma filter_filter_delta_live evs :
  List.filter is_content_delta (List.filter (relayed true) evs)
  = List.filter is_content_delta evs.
Proof.
  induction evs as [|e evs IH]; simpl; [done|]. unfold relayed at 1.
  by destruct e; simpl; rewrite ?IH.
Qed.

Lemma filter_delta_silent evs :
  List.filter is_content_delta (List.filter (relayed false) evs) = [].
Proof.
  induction evs as [|e evs IH]; simpl; [done|]. unfold relayed at 1.
  by destruct e; simpl; rewrite ?IH.
Qed.

(** The run of [for_events] with [relay_event]. *)
Lemma run_relay relay role (m : Gen unit) s :
  exists full s',
    calls s' = calls (state_of (m s))
    /\ for_events m (relay_event relay role) "" s
       = (List.filter (relayed relay) (events_of (m s)), s',
          match outcome_of (m s) with
          | Ret _ => Ret full
          | Raise e => Raise e
          | Diverge => Diverge
          end).
Proof.
  rewrite run_for_events. cbv zeta.
  destruct (consume_relay relay role (events_of (m s)) "" (state_of (m s)))
    as (Hev & Hst & full & Hout).
  rewrite Hout, Hev. by eexists _, _.
Qed.

(** The events of a node run silently: the dispatch notice, the tool
    events of the role's run, and a closing notice. *)
Lemma silent_node_events node user_input s role :
  get_role (role_id node) = Some role ->
  events_of (_execute_node_silent w node user_input s)
  = thinking_step "role_dispatch" (name role +:+ "正在分析...") (Some (id role))
    :: List.filter (relayed false) (events_of (_execute_role_stream w role user_input s))
    ++ match outcome_of (_execute_role_stream w role user_input s) with
       | Ret _ => [thinking_step "role_complete" (name role +:+ "分析完成") (Some (id role))]
       | Raise e => [thinking_step "error" (name role +:+ "分析出错: " +:+ str_exc e)
                                   (Some (id role))]
       | Diverge => []
       end.
Proof.
  intros Hrole. unfold _execute_node_silent. rewrite Hrole.
  rewrite run_bind_yield, events_of_run. f_equal.
  rewrite run_try_gen, run_bind.
  destruct (run_relay false role (_execute_role_stream w role user_input) s)
    as (full & s' & _ & ->).
  rewrite !outcome_of_run, !events_of_run, !state_of_run.
  destruct (outcome_of (_execute_role_stream w role user_input s)) as [[]|e|];
    rewrite ?outcome_of_run, ?events_of_run; simpl; rewrite ?events_of_run;
    by rewrite ?app_nil_r.
Qed.

(** The events of a node run live: the start and dispatch events, the
    content increments and tool events of the role's run, and the
    result. *)
Lemma live_node_events node user_input s role :
  get_role (role_id node) = Some role ->
  exists full,
  events_of (_execute_node w node user_input s)
  = role_start (id role) (name role) (icon role) false
    :: thinking_step "role_dispatch" (name role +:+ "正在分析...") (Some (id role))
    :: List.filter (relayed true) (events_of (_execute_role_stream w role user_input s))
    ++ match outcome_of (_execute_role_stream w role user_input s) with
       | Ret _ => [role_result (id role) (Some full) false]
       | Raise e => [role_result (id role) (Some ("执行出错: " +:+ str_exc e)) false]
       | Diverge => []
       end.
Proof.
  intros Hrole. unfold _execute_node. rewrite Hrole.
  destruct (run_relay true role (_execute_role_stream w role user_input) s)
    as (full & s' & _ & Hrun).
  exists full.
  rewrite run_bind_yield, events_of_run. f_equal.
  rewrite run_bind_yield, events_of_run. f_equal.
  rewrite run_try_gen, run_bind. rewrite Hrun.
  rewrite !outcome_of_run, !events_of_run, !state_of_run.
  destruct (outcome_of (_execute_role_stream w role user_input s)) as [[]|e|];
    rewrite ?outcome_of_run, ?events_of_run; simpl; rewrite ?events_of_run;
    by rewrite ?app_nil_r.
Qed.

End RelayFacts.

(** *** Rounds *)

Section RoundFacts.
Import Client Tools Intent Engine.

Variable w : World.

Local Abbreviation get_role := (w_get_role w).

Lemma emits_weaken (P Q : Event -> Prop) {A} (m : Gen A) :
  (forall e, P e -> Q e) -> emits P m -> emits Q m.
Proof. intros H Hm s. eapply Forall_impl; [apply Hm | done]. Qed.

(** Yields nothing. *)
Definition mute {A} (m : Gen A) : Prop := emits (fun _ => False) m.

Lemma mute_emits P {A} (m : Gen A) : mute m -> emits P m.
Proof. apply emits_weaken. done. Qed.

Lemma quiet_filter_silent evs : Forall quiet (List.filter (relayed false) evs).
Proof.
  apply Forall_forall. intros e He. apply list_elem_of_In, filter_In in He as [_ He].
  unfold relayed in He. by destruct e.
Qed.

Lemma silent_node_quiet node user_input : emits quiet (_execute_node_silent w node user_input).
Proof.
  intros s. destruct (get_role (role_id node)) as [role|] eqn:Hrole.
  - rewrite (silent_node_events w node user_input s role Hrole).
    apply Forall_cons. split; [done|]. apply Forall_app. split; [apply quiet_filter_silent|].
    destruct (outcome_of _); by repeat constructor.
  - unfold _execute_node_silent. rewrite Hrole. apply Forall_nil_2.
Qed.

Lemma tool_events_quiet rid tcs : Forall quiet (flat_map (tool_events w rid) tcs).
Proof.
  induction tcs as [|tc tcs IH]; simpl; [apply Forall_nil_2|].
  apply Forall_cons. split; [done|].
  apply Forall_app. split; [|done].
  destruct (run_tool w tc).2; by repeat constructor.
Qed.

Lemma process_with_mute handle response role messages emit :
  (forall tcs role messages text emit, mute (handle tcs role messages text emit)) ->
  mute (process_with handle response role messages emit).
Proof.
  intros Hh. unfold process_with. apply emits_bind; [apply emits_lift|].
  intros d. destruct d.1; [apply emits_ret | apply Hh].
Qed.

Lemma process_with_quiet handle response role messages emit :
  (forall tcs role messages text emit,
      returns (fun r => Forall quiet r.2) (handle tcs role messages text emit)) ->
  returns (fun r => Forall quiet r.2) (process_with handle response role messages emit).
Proof.
  intros Hh. unfold process_with. eapply returns_bind; [apply returns_True|].
  intros d _. destruct d.1; [|apply Hh]. apply returns_ret. apply Forall_nil_2.
Qed.

Lemma handle_calls_mute fuel : forall tcs role messages (text : Text) emit,
  mute (_handle_tool_calls w fuel tcs role messages text emit).
Proof.
  induction fuel as [|fuel IH]; intros tcs role messages text emit.
  - apply emits_diverge.
  - unfold _handle_tool_calls; fold _handle_tool_calls. cbv zeta.
    apply emits_bind; [apply emits_chat_call|]. intros response.
    apply emits_bind; [by apply process_with_mute|]. intros r. apply emits_ret.
Qed.

Lemma handle_calls_quiet fuel : forall tcs role messages (text : Text) emit,
  returns (fun r => Forall quiet r.2) (_handle_tool_calls w fuel tcs role messages text emit).
Proof.
  induction fuel as [|fuel IH]; intros tcs role messages text emit.
  - done.
  - unfold _handle_tool_calls; fold _handle_tool_calls. cbv zeta.
    eapply returns_bind; [apply returns_True|]. intros response _.
    eapply returns_bind; [by apply process_with_quiet|]. intros r Hr.
    apply returns_ret. simpl. apply Forall_app. split.
    { destruct text as [t|]; [|apply Forall_nil_2].
      destruct (_ && _); by repeat constructor. }
    apply Forall_app. split; [|done].
    destruct emit; [|apply Forall_nil_2]. rewrite run_tools_events. apply tool_events_quiet.
Qed.

Lemma execute_role_async_mute node user_input : mute (_execute_role_async w node user_input).
Proof.
  unfold _execute_role_async. destruct (get_role (role_id node)) as [role|]; [|apply emits_ret].
  apply emits_try; [|intros e; apply emits_ret].
  apply emits_bind; [|intros r; apply emits_ret].
  unfold _execute_role. apply emits_bind; [apply emits_get_ctx|]. intros c.
  apply emits_bind; [apply emits_chat_call|]. intros response.
  apply process_with_mute, handle_calls_mute.
Qed.

Lemma execute_role_async_quiet node user_input :
  returns (fun p => Forall quiet p.2) (_execute_role_async w node user_input).
Proof.
  unfold _execute_role_async. destruct (get_role (role_id node)) as [role|].
  2:{ apply returns_ret. apply Forall_nil_2. }
  apply returns_try; [|intros e; apply returns_ret; apply Forall_nil_2].
  eapply returns_bind; [|intros r Hr; apply returns_ret; exact Hr].
  unfold _execute_role. eapply returns_bind; [apply returns_True|]. intros c _.
  eapply returns_bind; [apply returns_True|]. intros response _.
  apply process_with_quiet, handle_calls_quiet.
Qed.

(** A failure never leaves [_execute_role_async]: it is turned into the
    node's result. *)
Lemma execute_role_async_no_raise node user_input :
  no_raise (_execute_role_async w node user_input).
Proof.
  unfold _execute_role_async. destruct (get_role (role_id node)) as [role|];
    [|apply no_raise_ret].
  apply no_raise_try. intros e. apply no_raise_ret.
Qed.

Definition quiet_result (x : (RoleResult * list Event) + Exc) : Prop :=
  match x with
  | inl p => Forall quiet p.2
  | inr _ => True
  end.

Lemma gather_mute {A} (tasks : list (Gen A)) :
  Forall (fun t => mute t) tasks -> mute (gather tasks).
Proof.
  induction tasks as [|t tasks IH]; intros Ht; simpl; [apply emits_ret|].
  apply Forall_cons in Ht as [Ht Hts].
  apply emits_bind.
  { apply emits_try; [|intros e; apply emits_ret].
    apply emits_bind; [done | intros a; apply emits_ret]. }
  intros x. apply emits_bind; [by apply IH|]. intros xs. apply emits_ret.
Qed.

Lemma gather_quiet (tasks : list (Gen (RoleResult * list Event))) :
  Forall (fun t => returns (fun p => Forall quiet p.2) t) tasks ->
  returns (Forall quiet_result) (gather tasks).
Proof.
  induction tasks as [|t tasks IH]; intros Ht; simpl.
  { apply returns_ret. apply Forall_nil_2. }
  apply Forall_cons in Ht as [Ht Hts].
  eapply (returns_bind quiet_result).
  { apply returns_try.
    - eapply returns_bind; [exact Ht|]. intros a Ha. by apply returns_ret.
    - intros e. by apply returns_ret. }
  intros x Hx. eapply returns_bind; [by apply IH|]. intros xs Hxs.
  apply returns_ret. by apply Forall_cons.
Qed.

Lemma publish_results_quiet pairs :
  Forall (fun p => quiet_result p.2) pairs -> emits quiet (publish_results pairs).
Proof.
  induction pairs as [|[node result] pairs IH]; intros Hp; simpl; [apply emits_ret|].
  apply Forall_cons in Hp as [Hr Hps]. simpl in Hr.
  apply emits_bind; [|intros _; by apply IH].
  destruct result as [[res events]|e]; [|by apply emits_yield].
  apply emits_bind; [apply emits_modify_ctx|]. intros _.
  apply emits_bind; [by apply emits_yield_all|]. intros _. by apply emits_yield.
Qed.

Lemma dispatch_events_quiet ready : Forall quiet (dispatch_events w ready).
Proof.
  unfold dispatch_events. induction ready as [|n ready IH]; simpl; [apply Forall_nil_2|].
  apply Forall_app. split; [|done].
  destruct (get_role (role_id n)); by repeat constructor.
Qed.

(** The events of a round that is not run live hold no content
    increment. *)
Lemma round_quiet plan user_input completed ready :
  round_mode plan completed ready ≠ Live ->
  emits quiet (run_round w plan user_input completed ready).
Proof.
  intros Hmode.
  assert (Hpar : emits quiet
            (_ ← yield_all (dispatch_events w ready);
             results ← gather (map (fun node => _execute_role_async w node user_input) ready);
             _ ← publish_results (zip ready results);
             mret (completed ∪ list_to_set (map role_id ready)))).
  { apply emits_bind; [apply emits_yield_all, dispatch_events_quiet|]. intros _.
    eapply (emits_bind_returns _ (Forall quiet_result)).
    - apply mute_emits, gather_mute. apply Forall_forall. intros t Ht.
      apply list_elem_of_fmap in Ht as (n & -> & _). apply execute_role_async_mute.
    - apply gather_quiet. apply Forall_forall. intros t Ht.
      apply list_elem_of_fmap in Ht as (n & -> & _). apply execute_role_async_quiet.
    - intros results Hres. apply emits_bind; [|intros _; apply emits_ret].
      apply publish_results_quiet. apply Forall_forall. intros [n x] Hin. simpl.
      apply elem_of_zip_r in Hin. by eapply (proj1 (Forall_forall _ _) Hres). }
  unfold run_round. destruct ready as [|node [|node' rest]]; [exact Hpar| |exact Hpar].
  destruct (round_mode plan completed [node]) eqn:E; [|done|].
  - apply emits_bind; [apply silent_node_quiet | intros _; apply emits_ret].
  - unfold round_mode in E. by destruct (_ && _).
Qed.

End RoundFacts.

(** *** Scheduling *)

Section ScheduleFacts.
Import Client Tools Intent Engine.

Variable w : World.

Lemma filter_none {A} (f : A -> bool) (l : list A) :
  (forall x, x ∈ l -> f x = false) -> List.filter f l = [].
Proof.
  induction l as [|a l IH]; intros H; simpl; [done|].
  rewrite (H a) by apply list_elem_of_here. apply IH.
  intros x Hx. by apply H, list_elem_of_further.
Qed.

Lemma filter_split_length {A} (f : A -> bool) (l : list A) :
  length (List.filter f l) + length (List.filter (fun x => negb (f x)) l) = length l.
Proof. induction l as [|a l IH]; simpl; [done|]. destruct (f a); simpl; lia. Qed.

Lemma ready_nodes_elem plan completed n :
  n ∈ get_ready_nodes plan completed -> n ∈ nodes plan /\ role_id n ∉ completed.
Proof.
  unfold get_ready_nodes. intros Hn. apply list_elem_of_In, filter_In in Hn as [Hn Hr].
  split; [by apply list_elem_of_In|]. unfold is_ready in Hr.
  apply andb_true_iff in Hr as [Hr _]. apply negb_true_iff in Hr.
  by apply bool_decide_eq_false in Hr.
Qed.

Lemma ready_nodes_done plan completed :
  (forall n, n ∈ nodes plan -> role_id n ∈ completed) ->
  get_ready_nodes plan completed = [].
Proof.
  intros H. apply filter_none. intros n Hn. unfold is_ready.
  by rewrite (bool_decide_eq_true_2 _ (H n Hn)).
Qed.

(** The ready node of a round run live is the only node left: the next
    ready list is empty. *)
Lemma live_round_is_last plan completed node :
  completed ⊆ plan_ids (nodes plan) ->
  get_ready_nodes plan completed = [node] ->
  round_mode plan completed [node] = Live ->
  get_ready_nodes plan (completed ∪ {[ role_id node ]}) = [].
Proof.
  intros Hsub Hready Hlive. apply ready_nodes_done.
  assert (Hnode : node ∈ nodes plan /\ role_id node ∉ completed).
  { apply ready_nodes_elem. rewrite Hready. apply list_elem_of_here. }
  destruct Hnode as [Hnode Hnc].
  assert (Hall : forall n, n ∈ nodes plan -> role_id n ∈ completed \/ n = node).
  { unfold round_mode in Hlive.
    destruct (Nat.ltb 1 (length (nodes plan))) eqn:Hmulti; simpl in Hlive.
    - destruct (Nat.eqb (size completed + 1) (length (nodes plan))) eqn:Hlast;
        [|discriminate Hlive].
      apply Nat.eqb_eq in Hlast.
      set (f := fun n => bool_decide (role_id n ∈ completed)).
      pose proof (filter_split_length f (nodes plan)) as Hlen.
      assert (HA : size completed <= length (List.filter f (nodes plan))).
      { rewrite <- (length_map role_id).
        etrans; [|apply size_list_to_set_le]. apply subseteq_size.
        intros x Hx. apply elem_of_list_to_set.
        pose proof (Hsub x Hx) as HxI. apply elem_of_list_to_set in HxI.
        apply list_elem_of_fmap in HxI as (n & -> & Hn).
        apply list_elem_of_fmap. exists n. split; [done|].
        apply list_elem_of_In, filter_In. split; [by apply list_elem_of_In|].
        unfold f. by apply bool_decide_eq_true_2. }
      assert (HB : node ∈ List.filter (fun x => negb (f x)) (nodes plan)).
      { apply list_elem_of_In, filter_In. split; [by apply list_elem_of_In|].
        unfold f. by rewrite bool_decide_eq_false_2. }
      destruct (List.filter (fun x => negb (f x)) (nodes plan)) as [|b [|b' B]] eqn:EB.
      + by apply not_elem_of_nil in HB.
      + apply list_elem_of_singleton in HB as <-.
        intros n Hn. destruct (decide (role_id n ∈ completed)) as [?|Hnot]; [by left|].
        right. assert (n ∈ [node]) as Hin.
        { rewrite <- EB. apply list_elem_of_In, filter_In.
          split; [by apply list_elem_of_In|]. unfold f. by rewrite bool_decide_eq_false_2. }
        by apply list_elem_of_singleton in Hin.
      + simpl in Hlen. lia.
    - apply Nat.ltb_ge in Hmulti. intros n Hn. right.
      destruct (nodes plan) as [|a [|b l]]; simpl in Hmulti; [|by set_solver|lia].
      by apply not_elem_of_nil in Hn. }
  intros n Hn. destruct (Hall n Hn) as [?| ->]; set_solver.
Qed.

Lemma round_mode_live_single plan completed ready :
  round_mode plan completed ready = Live -> exists node, ready = [node].
Proof. unfold round_mode. destruct ready as [|n [|n' r]]; try done. by exists n. Qed.

Lemma run_round_completed plan user_input completed ready :
  returns (fun c => c = completed ∪ list_to_set (map role_id ready))
          (run_round w plan user_input completed ready).
Proof.
  assert (Hpar : returns (fun c => c = completed ∪ list_to_set (map role_id ready))
            (_ ← yield_all (dispatch_events w ready);
             results ← gather (map (fun node => _execute_role_async w node user_input) ready);
             _ ← publish_results (zip ready results);
             mret (completed ∪ list_to_set (map role_id ready)))).
  { eapply returns_bind; [apply returns_True|]. intros _ _.
    eapply returns_bind; [apply returns_True|]. intros results _.
    eapply returns_bind; [apply returns_True|]. intros _ _. by apply returns_ret. }
  unfold run_round. destruct ready as [|node [|node' rest]]; [exact Hpar| |exact Hpar].
  eapply returns_bind; [apply returns_True|]. intros _ _. apply returns_ret.
  simpl. set_solver.
Qed.

Lemma dag_rounds_done fuel plan user_input completed s :
  get_ready_nodes plan completed = [] ->
  dag_rounds w fuel plan user_input completed s = ([], s, Ret tt).
Proof. intros H. destruct fuel; simpl; by rewrite H. Qed.

Lemma dag_rounds_step fuel plan user_input completed s :
  dag_rounds w (S fuel) plan user_input completed s =
  match get_ready_nodes plan completed with
  | [] => ([], s, Ret tt)
  | ready_nodes =>
      let kind := round_mode plan completed ready_nodes in
      match run_round w plan user_input completed ready_nodes s with
      | (evs, s1, Ret completed') =>
          match dag_rounds w fuel plan user_input completed' s1 with
          | (rs, s2, o) => (mkRound ready_nodes kind evs :: rs, s2, o)
          end
      | (evs, s1, Raise e) => ([mkRound ready_nodes kind evs], s1, Raise e)
      | (evs, s1, Diverge) => ([mkRound ready_nodes kind evs], s1, Diverge)
      end
  end.
Proof. simpl. by destruct (get_ready_nodes plan completed). Qed.

(** Of the rounds of a run, only the last can be run live, and the events
    of the others hold no content increment. *)
Lemma dag_rounds_live_last fuel plan user_input : forall completed s rounds s' o,
  completed ⊆ plan_ids (nodes plan) ->
  dag_rounds w fuel plan user_input completed s = (rounds, s', o) ->
  forall i r, rounds !! i = Some r ->
    (round_kind r = Live -> S i = length rounds)
    /\ (round_kind r ≠ Live -> Forall quiet (round_events r)).
Proof.
  induction fuel as [|fuel IH]; intros completed s rounds s' o Hsub Hrun i r Hi.
  - simpl in Hrun. destruct (get_ready_nodes plan completed); injection Hrun as <- <- <-; done.
  - rewrite dag_rounds_step in Hrun.
    destruct (get_ready_nodes plan completed) as [|n0 ready0] eqn:Hready.
    { injection Hrun as <- <- <-. done. }
    cbv beta iota zeta in Hrun. set (ready := n0 :: ready0) in *.
    pose proof (round_quiet w plan user_input completed ready) as Hquiet.
    pose proof (run_round_completed plan user_input completed ready s) as Hcomp.
    specialize (fun H => Hquiet H s).
    destruct (run_round w plan user_input completed ready s) as [[evs s1] [c'| e |]] eqn:Hround.
    + specialize (Hcomp c' eq_refl). cbv beta in Hcomp.
      destruct (dag_rounds w fuel plan user_input c' s1) as [[rs s2] o2] eqn:Hrec.
      apply pair_equal_spec in Hrun as [Hrun <-].
      apply pair_equal_spec in Hrun as [<- <-]. destruct i as [|i].
      * pose proof (Some_inj _ _ (Hi : Some _ = Some r)) as <-. unfold round_kind, round_events; cbv beta iota.
        split; [|by intros H; apply Hquiet].
        intros Hlive. destruct (round_mode_live_single _ _ _ Hlive) as [node Hnode].
        rewrite Hnode in *.
        assert (c' = completed ∪ {[ role_id node ]}) as ->
          by (rewrite Hcomp; simpl; set_solver).
        rewrite dag_rounds_done in Hrec by (by apply live_round_is_last).
        by injection Hrec as <- _ _.
      * pose proof (Hi : rs !! i = Some r) as Hr.
        assert (Hsub' : c' ⊆ plan_ids (nodes plan)).
        { rewrite Hcomp. intros x Hx. apply elem_of_union in Hx as [Hx|Hx]; [by apply Hsub|].
          apply elem_of_list_to_set, list_elem_of_fmap in Hx as (n & -> & Hn).
          apply elem_of_list_to_set, list_elem_of_fmap. exists n. split; [done|].
          rewrite <- Hready in Hn. by apply ready_nodes_elem in Hn as [? _]. }
        destruct (IH c' s1 rs s2 o2 Hsub' Hrec i r Hr) as [H1 H2].
        split; [|done]. intros Hl. cbn [length]. f_equal. by apply H1.
    + apply pair_equal_spec in Hrun as [Hrun <-].
      apply pair_equal_spec in Hrun as [<- <-]. destruct i as [|i]; [|by destruct i].
      pose proof (Some_inj _ _ (Hi : Some _ = Some r)) as <-. unfold round_kind, round_events; cbv beta iota.
      split; [done | by intros H; apply Hquiet].
    + apply pair_equal_spec in Hrun as [Hrun <-].
      apply pair_equal_spec in Hrun as [<- <-]. destruct i as [|i]; [|by destruct i].
      pose proof (Some_inj _ _ (Hi : Some _ = Some r)) as <-. unfold round_kind, round_events; cbv beta iota.
      split; [done | by intros H; apply Hquiet].
Qed.

End ScheduleFacts.

(** *** What each round of a run is *)

Section RoundsFacts.
Import Client Tools Intent Engine.

Variable w : World.

(** The role ids of the nodes a list of rounds has run. *)
Definition ran (rounds : list Round) : gset string :=
  list_to_set (flat_map (fun r => map role_id (round_nodes r)) rounds).

Lemma ran_cons r rounds :
  ran (r :: rounds) = list_to_set (map role_id (round_nodes r)) ∪ ran rounds.
Proof. unfold ran. simpl. by rewrite list_to_set_app_L. Qed.

(** A round of a run is the run of [run_round] on the ready list of some
    completed set, in the mode [round_mode] gives it. *)
Definition is_round_of (plan : ExecutionPlan) (user_input : string) (r : Round) : Prop :=
  exists completed s0,
    round_nodes r = get_ready_nodes plan completed
    /\ round_nodes r ≠ []
    /\ round_kind r = round_mode plan completed (round_nodes r)
    /\ round_events r
       = events_of (run_round w plan user_input completed (round_nodes r) s0).

Lemma dag_rounds_rounds fuel plan user_input : forall completed s r,
  r ∈ (dag_rounds w fuel plan user_input completed s).1.1 ->
  is_round_of plan user_input r.
Proof.
  induction fuel as [|fuel IH]; intros completed s r.
  - simpl. destruct (get_ready_nodes plan completed); simpl; by intros ?%not_elem_of_nil.
  - rewrite dag_rounds_step.
    destruct (get_ready_nodes plan completed) as [|n0 ready0] eqn:Hready.
    { simpl. by intros ?%not_elem_of_nil. }
    cbv beta iota zeta. set (ready := n0 :: ready0) in *.
    assert (Hhere : is_round_of plan user_input
              (mkRound ready (round_mode plan completed ready)
                 (events_of (run_round w plan user_input completed ready s)))).
    { exists completed, s. unfold round_nodes, round_kind, round_events. by rewrite Hready. }
    destruct (run_round w plan user_input completed ready s) as [[evs s1] [c'| e |]] eqn:Hround.
    + specialize (IH c' s1 r).
      destruct (dag_rounds w fuel plan user_input c' s1) as [[rs s2] o2].
      unfold fst. intros [->|Hr]%elem_of_cons; [exact Hhere | by apply IH].
    + unfold fst. by intros ->%list_elem_of_singleton.
    + unfold fst. by intros ->%list_elem_of_singleton.
Qed.

Lemma events_bind_ret {A B} (m : Gen A) (b : B) s :
  events_of ((_ ← m; mret b) s) = events_of (m s).
Proof.
  rewrite run_bind. destruct (outcome_of (m s)); rewrite events_of_run; [|done..].
  unfold mret, gen_ret. by rewrite events_of_run, app_nil_r.
Qed.

(** Every round of a one-node plan is run live. *)
Lemma single_node_round_live plan user_input r :
  length (nodes plan) = 1 -> is_round_of plan user_input r -> round_kind r = Live.
Proof.
  intros Hone (completed & s0 & Hready & Hne & Hkind & _).
  rewrite Hkind. unfold round_mode. rewrite Hone. simpl.
  assert (Hlen : length (round_nodes r) <= 1).
  { rewrite Hready, <- Hone. unfold get_ready_nodes. apply filter_length_le. }
  destruct (round_nodes r) as [|n [|n' l]]; simpl in Hlen; [done|done|lia].
Qed.

(** The text the model streams for a role is sent on as content
    increments, first of all events of the role's run. *)
Lemma role_stream_starts_with_deltas role user_input s :
  let req := mkRequest (_build_role_messages w role user_input (ctx s))
                       (tools_of w role) true in
  let chunks := (chat_stream (w_llm_stream w (length (calls s)) req)).1 in
  exists rest,
    events_of (_execute_role_stream w role user_input s)
    = deltas_events (id role) false chunks ++ rest.
Proof.
  intros req chunks. unfold _execute_role_stream.
  rewrite run_bind_get_ctx. cbv zeta. rewrite run_bind_stream_call.
  rewrite run_bind_yield_all, events_of_run. by eexists.
Qed.

Lemma filter_relayed_deltas relay role_id after chunks :
  List.filter (relayed relay) (deltas_events role_id after chunks)
  = if relay then deltas_events role_id after chunks else [].
Proof.
  unfold deltas_events. induction (content_deltas chunks) as [|d l IH]; simpl.
  - by destruct relay.
  - unfold relayed at 1. simpl. destruct relay; simpl; by rewrite IH.
Qed.

End RoundsFacts.

(** *** The rounds of a plan *)

Section PlanRoundsFacts.
Import Client Tools Intent Engine.

Variable w : World.

(** The nodes of a plan not yet completed. *)
Definition pending (plan : ExecutionPlan) (completed : gset string) : nat :=
  length (List.filter (fun n => negb (bool_decide (role_id n ∈ completed))) (nodes plan)).

Lemma filter_length_lt {A} (f g : A -> bool) (l : list A) x :
  (forall y, g y = true -> f y = true) ->
  x ∈ l -> f x = true -> g x = false ->
  length (List.filter g l) < length (List.filter f l).
Proof.
  intros Hgf Hx Hfx Hgx.
  assert (Hle : forall l', length (List.filter g l') <= length (List.filter f l')).
  { induction l' as [|a l' IH]; simpl; [done|].
    destruct (g a) eqn:Hg; [rewrite (Hgf a Hg); simpl; lia|].
    destruct (f a); simpl; lia. }
  induction l as [|a l IH]; [by apply not_elem_of_nil in Hx|].
  apply elem_of_cons in Hx as [<-|Hx]; simpl.
  - rewrite Hfx, Hgx. simpl. specialize (Hle l). lia.
  - specialize (IH Hx). destruct (g a) eqn:Hg; [rewrite (Hgf a Hg); simpl; lia|].
    destruct (f a); simpl; lia.
Qed.

Lemma pending_decreases plan completed n0 ready0 :
  get_ready_nodes plan completed = n0 :: ready0 ->
  pending plan (completed ∪ list_to_set (map role_id (n0 :: ready0)))
  < pending plan completed.
Proof.
  intros Hready. unfold pending.
  assert (Hn0 : n0 ∈ nodes plan /\ role_id n0 ∉ completed).
  { apply ready_nodes_elem. rewrite Hready. apply list_elem_of_here. }
  destruct Hn0 as [Hin Hnot].
  apply (filter_length_lt _ _ _ n0); [|done| |].
  - intros y Hy. apply negb_true_iff, bool_decide_eq_false in Hy.
    apply negb_true_iff, bool_decide_eq_false. set_solver.
  - by apply negb_true_iff, bool_decide_eq_false.
  - apply negb_false_iff, bool_decide_eq_true. simpl. set_solver.
Qed.

(** Fuel beyond the number of pending nodes is never used: the loop of
    [_process_dag_mode] ends by itself. *)
Lemma dag_rounds_fuel plan user_input : forall fuel fuel' completed s,
  pending plan completed < fuel -> pending plan completed < fuel' ->
  dag_rounds w fuel plan user_input completed s
  = dag_rounds w fuel' plan user_input completed s.
Proof.
  induction fuel as [|fuel IH]; intros fuel' completed s Hf Hf'; [lia|].
  destruct fuel' as [|fuel']; [lia|]. rewrite !dag_rounds_step.
  destruct (get_ready_nodes plan completed) as [|n0 ready0] eqn:Hready; [done|].
  cbv beta iota zeta.
  pose proof (run_round_completed w plan user_input completed (n0 :: ready0) s) as Hc.
  destruct (run_round w plan user_input completed (n0 :: ready0) s)
    as [[evs s1] [c'| e |]]; [|done..].
  specialize (Hc c' eq_refl). cbv beta in Hc.
  pose proof (pending_decreases plan completed n0 ready0 Hready) as Hlt.
  rewrite <- Hc in Hlt.
  by rewrite (IH fuel' c' s1) by lia.
Qed.

Lemma plan_rounds_fuel plan user_input s extra :
  dag_rounds w (S (length (nodes plan)) + extra) plan user_input ∅ s
  = plan_rounds w plan user_input s.
Proof.
  unfold plan_rounds.
  assert (pending plan ∅ <= length (nodes plan)) by apply filter_length_le.
  apply dag_rounds_fuel; lia.
Qed.

End PlanRoundsFacts.

(** C3, counterexample.  Two specialists without dependencies are run in
    one round, the final one, in parallel: each is asked for a one-shot
    reply, whose whole text is sent in [role_result]; the round sends no
    content increment. *)
Lemma final_parallel_round_is_not_streamed :
  let plan := Samples.independent_plan in
  let run := Engine.plan_rounds (Samples.world Samples.steady) plan "q" Samples.fresh in
  1 < length (Intent.nodes plan)
  /\ run.2 = Ret tt
  /\ run.1.1 =
     [ Engine.mkRound (Intent.nodes plan) Engine.Parallel
         [ Engine.role_start "policy_expert" "政策专家" "" false;
           Engine.thinking_step "role_dispatch" "政策专家正在分析..." (Some "policy_expert");
           Engine.role_start "financial_advisor" "财务顾问" "" false;
           Engine.thinking_step "role_dispatch" "财务顾问正在分析..."
                                (Some "financial_advisor");
           Engine.role_result "policy_expert" (Some "whole") false;
           Engine.role_result "financial_advisor" (Some "whole") false ] ]
  /\ List.filter Engine.is_content_delta (concat (map Engine.round_events run.1.1)) = [].
Proof. vm_compute. repeat split; lia. Qed.

(** The same model asked for a chain of two specialists: the first round
    is silent, the second and last one is live. *)
Example chain_plan_rounds :
  (Engine.plan_rounds (Samples.world Samples.steady) Samples.chain_plan "q" Samples.fresh).1.1
  = [ Engine.mkRound [Intent.mkNode "policy_expert" []] Engine.Silent
        [ Engine.thinking_step "role_dispatch" "政策专家正在分析..." (Some "policy_expert");
          Engine.thinking_step "role_complete" "政策专家分析完成" (Some "policy_expert") ];
      Engine.mkRound [Intent.mkNode "financial_advisor" ["policy_expert"]] Engine.Live
        [ Engine.role_start "financial_advisor" "财务顾问" "" false;
          Engine.thinking_step "role_dispatch" "财务顾问正在分析..."
                               (Some "financial_advisor");
          Engine.content_delta "financial_advisor" "par" false;
          Engine.content_delta "financial_advisor" "tial" false;
          Engine.role_result "financial_advisor" (Some "partial") false ] ].
Proof. by vm_compute. Qed.

(** *** Synthesis and the persisted answer *)

Section SynthesisFacts.
Import Client Tools Intent Engine.

Variable w : World.

Lemma consume_summary_deltas role_id chunks tail : forall acc s,
  consume keep_summary acc (deltas_events role_id false chunks ++ tail) s
  = (deltas_events role_id false chunks ++ events_of (consume keep_summary acc tail s),
     state_of (consume keep_summary acc tail s),
     outcome_of (consume keep_summary acc tail s)).
Proof.
  unfold deltas_events. induction (content_deltas chunks) as [|d ds IH]; intros acc s.
  - simpl. symmetry. apply run_eta.
  - simpl. rewrite run_bind, run_bind_yield. unfold mret at 1 2 3, gen_ret.
    rewrite !outcome_of_run, !events_of_run, !state_of_run.
    rewrite IH. by rewrite !outcome_of_run, !events_of_run, !state_of_run.
Qed.

(** The request of [_synthesize_results]: the synthesizer's prompt and a
    rendering of every result, without tools, streamed. *)
Definition synthesis_request (user_input : string) (s : St) (consultant : Role) : Request :=
  mkRequest [ plain_message "system" (system_prompt consultant);
              plain_message "user"
                (synthesis_prompt user_input (render_results w (role_results (ctx s)))) ]
            None true.

(** The run of [_synthesize_results]: one streaming request, the
    increments received, and the whole text unless the exchange fails. *)
Lemma synthesize_results_run user_input s consultant :
  w_get_role w "purchase_consultant" = Some consultant ->
  let req := synthesis_request user_input s consultant in
  let r := chat_stream (w_llm_stream w (length (calls s)) req) in
  _synthesize_results w user_input s
  = (deltas_events (id consultant) false r.1
     ++ match r.2 with
        | None => [content_complete (id consultant) (String.concat "" (content_deltas r.1))]
        | Some _ => []
        end,
     mkSt (ctx s) (calls s ++ [req]),
     match r.2 with
     | None => Ret tt
     | Some e => Raise (ExcLLM e)
     end).
Proof.
  intros Hrole req r. unfold _synthesize_results. rewrite run_bind_get_ctx. cbv zeta.
  rewrite Hrole. rewrite run_bind_stream_call, run_bind_yield_all.
  fold (synthesis_request user_input s consultant). fold req. fold r.
  destruct r.2 as [err|]; unfold raise, yield;
    by rewrite !outcome_of_run, !events_of_run, !state_of_run.
Qed.

Lemma final_result_synthesized (rr : dict string Text) v :
  final_result (dict_set rr "purchase_consultant" v) = Some v.
Proof.
  unfold final_result. rewrite dict_get_set_eq.
  by destruct rr as [|[k x] rr]; simpl; [|destruct (decide _)].
Qed.

Lemma final_result_single (rr : dict string Text) :
  Nat.ltb 1 (length rr) && negb (dict_mem rr "purchase_consultant") = false ->
  match rr with
  | [] => final_result rr = None
  | _ =>
      match dict_get rr "purchase_consultant" with
      | Some r => final_result rr = Some r
      | None => exists k v, rr = [(k, v)] /\ final_result rr = Some v
      end
  end.
Proof.
  intros Hcond. destruct rr as [|[k v] rr]; [done|].
  unfold final_result, dict_mem in *.
  destruct (dict_get ((k, v) :: rr) "purchase_consultant") as [r|] eqn:Hget; [done|].
  rewrite andb_false_iff in Hcond. destruct Hcond as [Hlen|?]; [|done].
  apply Nat.ltb_ge in Hlen. destruct rr; simpl in Hlen; [|lia]. by exists k, v.
Qed.

(** The run of the synthesis step. *)
Lemma synthesize_if_needed_run user_input s consultant :
  w_get_role w "purchase_consultant" = Some consultant ->
  let rr := role_results (ctx s) in
  if Nat.ltb 1 (length rr) && negb (dict_mem rr "purchase_consultant")
  then
      let req := synthesis_request user_input s consultant in
      let r := chat_stream (w_llm_stream w (length (calls s)) req) in
      let text := String.concat "" (content_deltas r.1) in
      synthesize_if_needed w user_input s
      = ([ thinking_step "synthesizing" "正在整合各专家意见，生成综合建议..." None;
           role_start (id consultant) (name consultant) (icon consultant) true ]
         ++ deltas_events (id consultant) false r.1
         ++ match r.2 with
            | None => [role_result (id consultant) (Some text) true]
            | Some _ => []
            end,
         match r.2 with
         | None => mkSt (set_role_result (ctx s) "purchase_consultant" (Some text))
                        (calls s ++ [req])
         | Some _ => mkSt (ctx s) (calls s ++ [req])
         end,
         match r.2 with
         | None => Ret tt
         | Some e => Raise (ExcLLM e)
         end)
  else synthesize_if_needed w user_input s = ([], s, Ret tt).
Proof.
  intros Hrole rr. unfold synthesize_if_needed. rewrite run_bind_get_ctx. fold rr.
  destruct (Nat.ltb 1 (length rr) && negb (dict_mem rr "purchase_consultant")); [|done].
  pose proof (synthesize_results_run user_input s consultant Hrole) as Hrun.
  cbv zeta in *. rewrite Hrole.
  rewrite run_bind_yield, run_bind_yield, run_bind.
  rewrite run_for_events. cbv zeta. rewrite Hrun.
  rewrite !outcome_of_run, !events_of_run, !state_of_run.
  rewrite consume_summary_deltas.
  rewrite !outcome_of_run, !events_of_run, !state_of_run.
  destruct (chat_stream _).2 as [err|]; simpl;
    rewrite ?outcome_of_run, ?events_of_run, ?state_of_run; [by rewrite ?app_nil_r|].
  rewrite run_bind_modify_ctx, run_bind_ret. unfold yield, mret, gen_ret.
  rewrite ?outcome_of_run, ?events_of_run, ?state_of_run. simpl.
  by rewrite app_nil_r.
Qed.

Lemma save_final_result_run s :
  save_final_result s
  = ([], match final_result (role_results (ctx s)) with
         | Some r => mkSt (add_message (ctx s) "assistant" r) (calls s)
         | None => s
         end, Ret tt).
Proof.
  unfold save_final_result. rewrite run_bind_get_ctx.
  destruct (final_result _); [|done]. unfold modify_ctx. done.
Qed.

(** C2.  [_process_dag_mode] once its scheduling loop has ended, with
    the result map [rr] the loop leaves.  If [rr] holds more than one
    result and none for [purchase_consultant], exactly one more request
    is sent to the model, the synthesis request (the synthesizer's
    prompt and a rendering of every result, streamed); when that
    exchange ends without error its text is written to the result map
    under [purchase_consultant] and appended to the history as the
    assistant's message, and when it fails the error is raised and
    nothing is saved.  Otherwise no request is sent and the message
    appended is the entry of [purchase_consultant] if there is one, else
    the value of the only entry; nothing is appended for an empty map. *)
Theorem synthesis_and_persisted_answer
  (user_input : string) (plan : ExecutionPlan) (s : St) (consultant : Role) :
  w_get_role w "purchase_consultant" = Some consultant ->
  let loop := dag_loop w plan user_input (mkSt (set_role_results (ctx s) []) (calls s)) in
  outcome_of loop = Ret tt ->
  let s1 := state_of loop in
  let rr := role_results (ctx s1) in
  let final := _process_dag_mode w user_input plan s in
  if Nat.ltb 1 (length rr) && negb (dict_mem rr "purchase_consultant")
  then
    let req := synthesis_request user_input s1 consultant in
    let r := chat_stream (w_llm_stream w (length (calls s1)) req) in
    let text := String.concat "" (content_deltas r.1) in
    calls (state_of final) = calls s1 ++ [req]
    /\ match r.2 with
       | None =>
           outcome_of final = Ret tt
           /\ history (ctx (state_of final))
              = history (ctx s1) ++ [mkMessage "assistant" (Some text) None None]
           /\ role_results (ctx (state_of final))
              = dict_set rr "purchase_consultant" (Some text)
           /\ events_of final
              = events_of loop
                ++ [ thinking_step "synthesizing" "正在整合各专家意见，生成综合建议..." None;
                     role_start (id consultant) (name consultant) (icon consultant) true ]
                ++ deltas_events (id consultant) false r.1
                ++ [role_result (id consultant) (Some text) true]
       | Some e =>
           outcome_of final = Raise (ExcLLM e) /\ ctx (state_of final) = ctx s1
       end
  else
    calls (state_of final) = calls s1
    /\ outcome_of final = Ret tt
    /\ events_of final = events_of loop
    /\ role_results (ctx (state_of final)) = rr
    /\ match rr with
       | [] => history (ctx (state_of final)) = history (ctx s1)
       | _ =>
           match dict_get rr "purchase_consultant" with
           | Some answer =>
               history (ctx (state_of final))
               = history (ctx s1) ++ [mkMessage "assistant" answer None None]
           | None =>
               exists k answer,
                 rr = [(k, answer)]
                 /\ history (ctx (state_of final))
                    = history (ctx s1) ++ [mkMessage "assistant" answer None None]
           end
       end.
Proof.
  intros Hrole loop Hloop s1 rr final.
  assert (Hfinal : final
            = (events_of loop
               ++ events_of ((_ ← synthesize_if_needed w user_input; save_final_result) s1),
               state_of ((_ ← synthesize_if_needed w user_input; save_final_result) s1),
               outcome_of ((_ ← synthesize_if_needed w user_input; save_final_result) s1))).
  { unfold final, _process_dag_mode. rewrite run_bind_modify_ctx, run_bind.
    fold loop. by rewrite Hloop. }
  rewrite Hfinal. clear Hfinal. rewrite run_bind.
  pose proof (synthesize_if_needed_run user_input s1 consultant Hrole) as Hsyn.
  cbv zeta in Hsyn. fold rr in Hsyn.
  destruct (Nat.ltb 1 (length rr) && negb (dict_mem rr "purchase_consultant")) eqn:Hcond.
  - cbv zeta. rewrite Hsyn.
    destruct (chat_stream _).2 as [err|];
      rewrite ?outcome_of_run, ?events_of_run, ?state_of_run; [done|].
    rewrite save_final_result_run.
    rewrite ?outcome_of_run, ?events_of_run, ?state_of_run.
    do 3 (cbn [ctx calls add_message history role_results set_role_result
               set_role_results];
          fold rr; rewrite ?final_result_synthesized).
    rewrite app_nil_r. by rewrite <- ?app_assoc.
  - rewrite Hsyn. rewrite ?outcome_of_run, ?events_of_run, ?state_of_run.
    rewrite save_final_result_run.
    rewrite ?outcome_of_run, ?events_of_run, ?state_of_run. fold rr.
    pose proof (final_result_single rr Hcond) as Hsingle.
    assert (Hshape : forall a : unit, calls (match final_result rr with
                                      | Some r => mkSt (add_message (ctx s1) "assistant" r) (calls s1)
                                      | None => s1 end) = calls s1
                     /\ role_results (ctx (match final_result rr with
                                      | Some r => mkSt (add_message (ctx s1) "assistant" r) (calls s1)
                                      | None => s1 end)) = rr)
      by (intros _; by destruct (final_result rr)).
    destruct (Hshape tt) as [Hc Hr]. rewrite app_nil_r.
    split; [done|]. split; [done|]. split; [done|]. split; [done|].
    destruct rr as [|p rr'] eqn:Hrr; [by rewrite Hsingle|].
    destruct (dict_get (p :: rr') "purchase_consultant") as [answer|].
    + by rewrite Hsingle.
    + destruct Hsingle as (k & answer & Hone & ->). by exists k, answer.
Qed.

End SynthesisFacts.

(** C2, witness: two specialists run in parallel, then the synthesis
    request, whose text is the message saved. *)
Lemma synthesis_and_persisted_answer_witness :
  let final := Engine._process_dag_mode (Samples.world Samples.steady) "q"
                 Samples.independent_plan Samples.fresh in
  length (Engine.calls (state_of final)) = 3
  /\ Engine.history (Engine.ctx (state_of final))
     = [mkMessage "assistant" (Some "partial") None None].
Proof.
  pose proof (synthesis_and_persisted_answer (Samples.world Samples.steady) "q"
                Samples.independent_plan Samples.fresh
                (mkRole "purchase_consultant" "购房顾问" "" "" [] [])
                eq_refl eq_refl) as H.
  vm_compute in H. destruct H as (Hcalls & _ & Hhistory & _).
  split; [by vm_compute | exact Hhistory].
Defined.

(** *** Failing nodes *)

Section FailureFacts.
Import Client Tools Intent Engine.

Variable w : World.

Local Abbreviation get_role := (w_get_role w).

(** A computation leaves the conversation context as it was. *)
Definition keeps {A} (m : Gen A) : Prop :=
  forall s, ctx (state_of (m s)) = ctx s.

Lemma keeps_bind {A B} (m : Gen A) (k : A -> Gen B) :
  keeps m -> (forall a, keeps (k a)) -> keeps (m ≫= k).
Proof.
  intros Hm Hk s. rewrite run_bind. specialize (Hm s).
  destruct (outcome_of (m s)) as [a| |]; rewrite state_of_run; [|done..].
  by rewrite Hk.
Qed.

Lemma keeps_ret {A} (a : A) : keeps (mret a).
Proof. done. Qed.
Lemma keeps_yield e : keeps (yield e).
Proof. done. Qed.
Lemma keeps_yield_all es : keeps (yield_all es).
Proof. done. Qed.
Lemma keeps_raise {A} e : keeps (raise (A := A) e).
Proof. done. Qed.
Lemma keeps_diverge {A} : keeps (diverge (A := A)).
Proof. done. Qed.
Lemma keeps_get_ctx : keeps get_ctx.
Proof. done. Qed.
Lemma keeps_stream_call req : keeps (stream_call w req).
Proof. done. Qed.

Lemma keeps_consume {L} (h : L -> Event -> Gen L) evs : forall acc,
  (forall acc e, e ∈ evs -> keeps (h acc e)) -> keeps (consume h acc evs).
Proof.
  induction evs as [|e evs IH]; intros acc Hh; simpl; [apply keeps_ret|].
  apply keeps_bind; [apply Hh, list_elem_of_here|]. intros acc'. apply IH.
  intros acc0 e0 He0. by apply Hh, list_elem_of_further.
Qed.

Lemma state_of_for_events {L} (m : Gen unit) (h : L -> Event -> Gen L) acc s :
  state_of (for_events m h acc s)
  = state_of (consume h acc (events_of (m s)) (state_of (m s))).
Proof.
  rewrite run_for_events. cbv zeta.
  by destruct (outcome_of (consume h acc (events_of (m s)) (state_of (m s)))).
Qed.

Lemma keeps_for_events {L} (m : Gen unit) (h : L -> Event -> Gen L) acc :
  keeps m -> (forall acc e, keeps (h acc e)) -> keeps (for_events m h acc).
Proof.
  intros Hm Hh s. rewrite state_of_for_events, <- (Hm s).
  apply keeps_consume. intros; apply Hh.
Qed.

(** Not the completion event of a role's run. *)
Definition unfinished (e : Event) : Prop :=
  match e with
  | content_complete _ _ => False
  | _ => True
  end.

Lemma emits_for_events_of (P' P : Event -> Prop) {L} (m : Gen unit)
  (h : L -> Event -> Gen L) acc :
  emits P' m -> (forall acc e, P' e -> emits P (h acc e)) ->
  emits P (for_events m h acc).
Proof.
  intros Hm Hh s. rewrite run_for_events. cbv zeta.
  assert (Hc : forall evs acc s0, Forall P' evs -> Forall P (events_of (consume h acc evs s0))).
  { induction evs as [|e evs IH]; intros acc0 s0 Hevs; simpl; [apply Forall_nil_2|].
    apply Forall_cons in Hevs as [He Hevs].
    apply emits_bind; [by apply Hh|]. intros acc' s1. by apply IH. }
  specialize (Hc (events_of (m s)) acc (state_of (m s)) (Hm s)).
  by destruct (outcome_of (consume h acc (events_of (m s)) (state_of (m s)))).
Qed.

Lemma tool_events_unfinished rid tcs : Forall unfinished (flat_map (tool_events w rid) tcs).
Proof.
  induction tcs as [|tc tcs IH]; simpl; [apply Forall_nil_2|].
  apply Forall_cons. split; [done|].
  apply Forall_app. split; [|done].
  destruct (run_tool w tc).2; by repeat constructor.
Qed.

Lemma deltas_events_unfinished rid after chunks :
  Forall unfinished (deltas_events rid after chunks).
Proof. unfold deltas_events. apply Forall_forall. by intros e (d & -> & _)%list_elem_of_fmap. Qed.

Lemma handle_stream_unfinished fuel : forall tcs role messages text,
  emits unfinished (_handle_tool_calls_stream w fuel tcs role messages text).
Proof.
  induction fuel as [|fuel IH]; intros tcs role messages text.
  - apply emits_diverge.
  - unfold _handle_tool_calls_stream; fold _handle_tool_calls_stream. cbv zeta.
    apply emits_bind.
    { apply emits_yield_all. rewrite run_tools_events. apply tool_events_unfinished. }
    intros _. apply emits_bind; [apply emits_stream_call|]. intros r.
    apply emits_bind; [apply emits_yield_all, deltas_events_unfinished|]. intros _.
    destruct r.2; [apply emits_raise|].
    destruct (tool_calls _); [by apply emits_yield|].
    apply emits_bind; [|intros _; apply IH].
    destruct (String.eqb _ _); [apply emits_ret | by apply emits_yield].
Qed.

Lemma handle_stream_keeps fuel : forall tcs role messages text,
  keeps (_handle_tool_calls_stream w fuel tcs role messages text).
Proof.
  induction fuel as [|fuel IH]; intros tcs role messages text.
  - apply keeps_diverge.
  - unfold _handle_tool_calls_stream; fold _handle_tool_calls_stream. cbv zeta.
    apply keeps_bind; [apply keeps_yield_all|]. intros _.
    apply keeps_bind; [apply keeps_stream_call|]. intros r.
    apply keeps_bind; [apply keeps_yield_all|]. intros _.
    destruct r.2; [apply keeps_raise|].
    destruct (tool_calls _); [apply keeps_yield|].
    apply keeps_bind; [|intros _; apply IH].
    destruct (String.eqb _ _); [apply keeps_ret | apply keeps_yield].
Qed.

Lemma keep_tool_content_keeps acc e : keeps (keep_tool_content acc e).
Proof. by destruct e. Qed.

Lemma keep_tool_content_unfinished acc e :
  unfinished e -> emits unfinished (keep_tool_content acc e).
Proof.
  intros He. destruct e; simpl; try apply emits_ret;
    (apply emits_bind; [by apply emits_yield | intros _; apply emits_ret]).
Qed.

(** The run of a role only reads the context. *)
Lemma execute_role_stream_keeps role user_input :
  keeps (_execute_role_stream w role user_input).
Proof.
  unfold _execute_role_stream. apply keeps_bind; [apply keeps_get_ctx|]. intros c.
  cbv zeta. apply keeps_bind; [apply keeps_stream_call|]. intros r.
  apply keeps_bind; [apply keeps_yield_all|]. intros _.
  destruct r.2; [apply keeps_raise|].
  apply keeps_bind; [|intros full; apply keeps_yield].
  destruct (tool_calls _); [apply keeps_ret|].
  apply keeps_bind.
  { destruct (String.eqb _ _); [apply keeps_ret | apply keeps_yield]. }
  intros _. apply keeps_for_events; [apply handle_stream_keeps | apply keep_tool_content_keeps].
Qed.

(** The completion event is the last event of a role's run: a run that
    does not return has not sent it. *)
Lemma execute_role_stream_unfinished role user_input s :
  (forall a, outcome_of (_execute_role_stream w role user_input s) ≠ Ret a) ->
  Forall unfinished (events_of (_execute_role_stream w role user_input s)).
Proof.
  unfold _execute_role_stream. rewrite run_bind_get_ctx. cbv zeta.
  rewrite run_bind_stream_call, run_bind_yield_all.
  rewrite outcome_of_run, events_of_run.
  set (r := chat_stream _). set (s1 := mkSt _ _).
  intros Hout. apply Forall_app. split; [apply deltas_events_unfinished|].
  destruct r.2 as [err|]; [apply Forall_nil_2|].
  revert Hout. rewrite run_bind.
  set (inner := match tool_calls _ with [] => _ | _ => _ end).
  assert (Hinner : emits unfinished inner).
  { unfold inner. destruct (tool_calls _); [apply emits_ret|].
    apply emits_bind.
    { destruct (String.eqb _ _); [apply emits_ret | by apply emits_yield]. }
    intros _. eapply emits_for_events_of; [apply handle_stream_unfinished|].
    apply keep_tool_content_unfinished. }
  specialize (Hinner s1).
  destruct (outcome_of (inner s1)) as [full| |]; rewrite outcome_of_run, events_of_run;
    [|done..].
  intros Hout. by destruct (Hout tt).
Qed.

Lemma relay_event_keeps relay role acc e : unfinished e -> keeps (relay_event relay role acc e).
Proof. by destruct e, relay. Qed.

(** A serial node whose role fails: the failure is reported in the
    stream and the node ends normally, with the context, and so the
    result map, as it was before the node. *)
Lemma failed_serial_node_keeps_context node role user_input s e :
  get_role (role_id node) = Some role ->
  outcome_of (_execute_role_stream w role user_input s) = Raise e ->
  (outcome_of (_execute_node w node user_input s) = Ret tt
   /\ ctx (state_of (_execute_node w node user_input s)) = ctx s)
  /\ (outcome_of (_execute_node_silent w node user_input s) = Ret tt
      /\ ctx (state_of (_execute_node_silent w node user_input s)) = ctx s).
Proof.
  intros Hrole Hfail.
  assert (Hrelay : forall relay,
    outcome_of (for_events (_execute_role_stream w role user_input)
                  (relay_event relay role) "" s) = Raise e
    /\ ctx (state_of (for_events (_execute_role_stream w role user_input)
                        (relay_event relay role) "" s)) = ctx s).
  { intros relay. split.
    - destruct (run_relay relay role (_execute_role_stream w role user_input) s)
        as (full & s' & _ & ->). by rewrite outcome_of_run, Hfail.
    - rewrite state_of_for_events.
      etrans; [|apply (execute_role_stream_keeps role user_input s)].
      apply keeps_consume. intros acc e0 He0. apply relay_event_keeps.
      assert (Hun := execute_role_stream_unfinished role user_input s).
      rewrite Hfail in Hun. specialize (Hun ltac:(done)).
      rewrite Forall_forall in Hun. by apply Hun. }
  split.
  - unfold _execute_node. rewrite Hrole.
    rewrite run_bind_yield, run_bind_yield, run_try_gen, run_bind.
    destruct (Hrelay true) as [-> Hctx].
    by rewrite !outcome_of_run, !state_of_run.
  - unfold _execute_node_silent. rewrite Hrole.
    rewrite run_bind_yield, run_try_gen, run_bind.
    destruct (Hrelay false) as [-> Hctx].
    by rewrite !outcome_of_run, !state_of_run.
Qed.

(** The result [_execute_role_async] returns for a node: the text of
    the role's run, or the failure text when the run raises. *)
Definition node_result (user_input : string) (node : ExecutionNode) (res : RoleResult)
  : Prop :=
  match get_role (role_id node) with
  | None => rr_content res = Some "角色不存在" /\ rr_success res = false
  | Some role =>
      exists s0,
        match outcome_of (_execute_role w role user_input true s0) with
        | Ret r => rr_content res = r.1 /\ rr_success res = true
        | Raise e =>
            rr_content res = Some ("执行出错: " +:+ str_exc e) /\ rr_success res = false
        | Diverge => False
        end
  end.

Lemma execute_role_async_result node user_input s res evs :
  outcome_of (_execute_role_async w node user_input s) = Ret (res, evs) ->
  node_result user_input node res.
Proof.
  unfold _execute_role_async, node_result.
  destruct (get_role (role_id node)) as [role|].
  2:{ unfold mret, gen_ret. rewrite outcome_of_run. by intros [= <- _]. }
  rewrite run_try_gen, run_bind. intros Hout. exists s.
  destruct (outcome_of (_execute_role w role user_input true s)) as [r|e|];
    rewrite ?outcome_of_run in Hout; unfold mret, gen_ret in Hout;
    rewrite ?outcome_of_run in Hout; [|by injection Hout as <- _|done].
  by injection Hout as <- _.
Qed.

Lemma run_gather_cons {A} (t : Gen A) tasks s :
  gather (t :: tasks) s
  = match outcome_of (t s) with
    | Ret a =>
        let g := gather tasks (state_of (t s)) in
        (events_of (t s) ++ events_of g, state_of g,
         match outcome_of g with
         | Ret xs => Ret (inl a :: xs)
         | Raise e => Raise e
         | Diverge => Diverge
         end)
    | Raise e =>
        let g := gather tasks (state_of (t s)) in
        (events_of (t s) ++ events_of g, state_of g,
         match outcome_of g with
         | Ret xs => Ret (inr e :: xs)
         | Raise e' => Raise e'
         | Diverge => Diverge
         end)
    | Diverge => (events_of (t s), state_of (t s), Diverge)
    end.
Proof.
  change (gather (t :: tasks) s)
    with ((try_gen (t ≫= fun a => mret (inl a)) (fun e => mret (inr e))
           ≫= fun x => gather tasks ≫= fun xs => mret (x :: xs)) s).
  unfold mbind, gen_bind, try_gen, mret, gen_ret, events_of, state_of, outcome_of.
  destruct (t s) as [[ev s1] [a|e|]]; simpl; [| |done];
    destruct (gather tasks s1) as [[ev2 s2] [xs|e'|]]; simpl; by rewrite ?app_nil_r.
Qed.

(** Every task of a parallel round is run, and each hands back a result,
    never an exception. *)
Lemma gather_async user_input ready : forall s results,
  outcome_of (gather (map (fun node => _execute_role_async w node user_input) ready) s)
  = Ret results ->
  Forall2 (fun node x => exists res evs, x = inl (res, evs)
                                         /\ node_result user_input node res)
          ready results.
Proof.
  induction ready as [|node ready IH]; intros s results.
  { simpl. intros [= <-]. constructor. }
  change (map (fun node => _execute_role_async w node user_input) (node :: ready))
    with (_execute_role_async w node user_input
          :: map (fun node => _execute_role_async w node user_input) ready).
  rewrite run_gather_cons.
  pose proof (execute_role_async_result node user_input s) as Hres.
  pose proof (execute_role_async_no_raise w node user_input s) as Hno.
  destruct (outcome_of (_execute_role_async w node user_input s)) as [[res evs]|e|];
    [|by destruct (Hno e)|by rewrite outcome_of_run].
  cbv zeta. rewrite outcome_of_run.
  set (s1 := state_of (_execute_role_async w node user_input s)).
  specialize (IH s1).
  destruct (outcome_of (gather _ s1)) as [xs| |]; [|done..].
  intros [= <-].
  constructor; [|by apply IH]. exists res, evs. split; [done|]. exact (Hres res evs eq_refl).
Qed.

(** The result map after the results of a parallel round are sent. *)
Definition published (pairs : list (ExecutionNode * ((RoleResult * list Event) + Exc)))
  (d : dict string Text) : dict string Text :=
  fold_left (fun d p =>
               match p.2 with
               | inl (res, _) => dict_set d (role_id p.1) (rr_content res)
               | inr _ => d
               end) pairs d.

Lemma publish_results_run pairs : forall s,
  outcome_of (publish_results pairs s) = Ret tt
  /\ role_results (ctx (state_of (publish_results pairs s)))
     = published pairs (role_results (ctx s)).
Proof.
  induction pairs as [|[node result] pairs IH]; intros s; simpl; [done|].
  rewrite run_bind. destruct result as [[res events]|e].
  - rewrite run_bind_modify_ctx, run_bind_yield_all. unfold yield.
    rewrite !outcome_of_run, !state_of_run. apply IH.
  - unfold yield. rewrite !outcome_of_run, !state_of_run. apply IH.
Qed.

Lemma published_other pairs k : forall d,
  k ∉ map (fun p => role_id p.1) pairs -> dict_get (published pairs d) k = dict_get d k.
Proof.
  induction pairs as [|[node result] pairs IH]; intros d Hk; simpl; [done|].
  apply not_elem_of_cons in Hk as [Hne Hk]. rewrite IH by done.
  destruct result as [[res evs]|e]; simpl; [|done].
  by rewrite dict_get_set_ne.
Qed.

Lemma published_entry pairs node res evs : forall d,
  NoDup (map (fun p => role_id p.1) pairs) ->
  (node, inl (res, evs)) ∈ pairs ->
  dict_get (published pairs d) (role_id node) = Some (rr_content res).
Proof.
  induction pairs as [|[node' result] pairs IH]; intros d Hnd Hin.
  { by apply not_elem_of_nil in Hin. }
  apply NoDup_cons in Hnd as [Hnot Hnd]. apply elem_of_cons in Hin as [Heq|Hin].
  - injection Heq as <- <-. simpl. rewrite published_other by done.
    apply dict_get_set_eq.
  - simpl. by apply IH.
Qed.

(** A parallel round: every ready node gets its entry in the result
    map, the text [_execute_role_async] returned for it. *)
Lemma parallel_round_entries plan user_input completed ready s c' :
  length ready ≠ 1 ->
  NoDup (map role_id ready) ->
  outcome_of (run_round w plan user_input completed ready s) = Ret c' ->
  forall node, node ∈ ready ->
    exists res,
      dict_get (role_results (ctx (state_of (run_round w plan user_input completed ready s))))
               (role_id node) = Some (rr_content res)
      /\ node_result user_input node res.
Proof.
  intros Hlen Hnd.
  assert (Hrun : run_round w plan user_input completed ready
            = (_ ← yield_all (dispatch_events w ready);
               results ← gather (map (fun node => _execute_role_async w node user_input) ready);
               _ ← publish_results (zip ready results);
               mret (completed ∪ list_to_set (map role_id ready)))).
  { unfold run_round. by destruct ready as [|? [|? ?]]. }
  rewrite Hrun. clear Hrun. rewrite run_bind_yield_all.
  rewrite outcome_of_run, state_of_run, run_bind.
  pose proof (gather_async user_input ready s) as Hg.
  destruct (outcome_of (gather _ s)) as [results| |]; rewrite ?outcome_of_run; [|done..].
  specialize (Hg results eq_refl). rewrite state_of_run, run_bind.
  set (s1 := state_of (gather _ s)).
  destruct (publish_results_run (zip ready results) s1) as [-> Hmap].
  unfold mret, gen_ret. rewrite !outcome_of_run, !state_of_run. rewrite Hmap.
  intros _ node Hnode.
  assert (Hpair : exists res evs, (node, inl (res, evs)) ∈ zip ready results
                                  /\ node_result user_input node res).
  { clear -Hg Hnode. induction Hg as [|n x ready results (res & evs & -> & Hres) Hg IH].
    - by apply not_elem_of_nil in Hnode.
    - apply elem_of_cons in Hnode as [->|Hnode].
      + exists res, evs. split; [apply list_elem_of_here | done].
      + destruct (IH Hnode) as (res' & evs' & Hin & Hr). exists res', evs'.
        split; [by apply list_elem_of_further | done]. }
  destruct Hpair as (res & evs & Hin & Hres). exists res. split; [|done].
  apply (published_entry _ _ _ evs); [|done].
  assert (Hfst : map (fun p : ExecutionNode * _ => role_id p.1) (zip ready results)
                 = map role_id ready).
  { clear -Hg. induction Hg; simpl; by f_equal. }
  by rewrite Hfst.
Qed.

Lemma gather_no_raise {A} (tasks : list (Gen A)) : no_raise (gather tasks).
Proof.
  induction tasks as [|t tasks IH]; simpl; [apply no_raise_ret|].
  apply no_raise_bind; [apply no_raise_try; intros e; apply no_raise_ret|].
  intros x. apply no_raise_bind; [done|]. intros xs. apply no_raise_ret.
Qed.

Lemma publish_results_no_raise pairs : no_raise (publish_results pairs).
Proof.
  intros s e. by destruct (publish_results_run pairs s) as [-> _].
Qed.

(** A round never ends with an exception, whatever its nodes do. *)
Lemma run_round_no_raise plan user_input completed ready :
  no_raise (run_round w plan user_input completed ready).
Proof.
  assert (Hpar : no_raise
            (_ ← yield_all (dispatch_events w ready);
             results ← gather (map (fun node => _execute_role_async w node user_input) ready);
             _ ← publish_results (zip ready results);
             mret (completed ∪ list_to_set (map role_id ready)))).
  { apply no_raise_bind; [apply no_raise_yield_all|]. intros _.
    apply no_raise_bind; [apply gather_no_raise|]. intros results.
    apply no_raise_bind; [apply publish_results_no_raise|]. intros _. apply no_raise_ret. }
  unfold run_round. destruct ready as [|node [|node' rest]]; [exact Hpar| |exact Hpar].
  apply no_raise_bind; [|intros _; apply no_raise_ret].
  assert (Hnode : no_raise (_execute_node w node user_input)
                  /\ no_raise (_execute_node_silent w node user_input)).
  { unfold _execute_node, _execute_node_silent.
    destruct (get_role (role_id node)) as [role|]; [|split; apply no_raise_ret].
    split.
    - apply no_raise_bind; [apply no_raise_yield|]. intros _.
      apply no_raise_bind; [apply no_raise_yield|]. intros _.
      apply no_raise_try. intros e. apply no_raise_yield.
    - apply no_raise_bind; [apply no_raise_yield|]. intros _.
      apply no_raise_try. intros e. apply no_raise_yield. }
  destruct (round_mode plan completed [node]); apply Hnode.
Qed.

End FailureFacts.

Section NodeFailure.
Import Client Tools Intent Engine.

Variable w : World.

(** C9.  No round ends with an exception, whatever happens in its
    nodes.  In a round of several nodes every node gets its entry in the
    result map: the text of its run, or the failure text when the run
    raised.  A node run alone whose run raises ends normally with the
    failure reported in the event stream, and the conversation context,
    so also the result map, is left as it was before the node: no entry
    is written for it. *)
Theorem node_failure_is_contained (plan : ExecutionPlan) (user_input : string)
  (completed : gset string) (ready : list ExecutionNode) (s : St) :
  (forall e, outcome_of (run_round w plan user_input completed ready s) ≠ Raise e)
  /\ (length ready ≠ 1 -> NoDup (map role_id ready) ->
      forall c', outcome_of (run_round w plan user_input completed ready s) = Ret c' ->
      forall node, node ∈ ready ->
        exists res,
          dict_get (role_results
                      (ctx (state_of (run_round w plan user_input completed ready s))))
                   (role_id node) = Some (rr_content res)
          /\ node_result w user_input node res)
  /\ (forall node role e,
        ready = [node] ->
        w_get_role w (role_id node) = Some role ->
        outcome_of (_execute_role_stream w role user_input s) = Raise e ->
        outcome_of (run_round w plan user_input completed ready s)
        = Ret (completed ∪ {[ role_id node ]})
        /\ ctx (state_of (run_round w plan user_input completed ready s)) = ctx s).
Proof.
  split; [apply run_round_no_raise|]. split.
  - intros Hlen Hnd c' Hret node Hnode.
    by apply (parallel_round_entries w plan user_input completed ready s c').
  - intros node role e -> Hrole Hfail.
    destruct (failed_serial_node_keeps_context w node role user_input s e Hrole Hfail)
      as [[Hlive Hctx] [Hsilent Hctx']].
    unfold run_round. rewrite run_bind.
    destruct (round_mode plan completed [node]).
    + by rewrite Hsilent, !outcome_of_run, !state_of_run.
    + by rewrite Hlive, !outcome_of_run, !state_of_run.
    + by rewrite Hlive, !outcome_of_run, !state_of_run.
Qed.

End NodeFailure.

(** C9, the serial path at a failing node.  The first specialist of a
    chain times out: the round reports it, the result map gets no entry
    for it, and the specialist that depends on it is asked with the
    messages built from an empty result map. *)
Example failed_serial_node_leaves_no_entry :
  let w := Samples.world Samples.first_times_out in
  let run := Engine.plan_rounds w Samples.chain_plan "q" Samples.fresh in
  run.2 = Ret tt
  /\ map Engine.round_events run.1.1
     = [ [ Engine.thinking_step "role_dispatch" "政策专家正在分析..." (Some "policy_expert");
           Engine.thinking_step "error" "政策专家分析出错: 服务响应超时，请稍后重试"
                                (Some "policy_expert") ];
         [ Engine.role_start "financial_advisor" "财务顾问" "" false;
           Engine.thinking_step "role_dispatch" "财务顾问正在分析..."
                                (Some "financial_advisor");
           Engine.content_delta "financial_advisor" "par" false;
           Engine.content_delta "financial_advisor" "tial" false;
           Engine.role_result "financial_advisor" (Some "partial") false ] ]
  /\ Engine.role_results (Engine.ctx run.1.2) = [("financial_advisor", Some "partial")]
  /\ dict_get (Engine.role_results (Engine.ctx run.1.2)) "policy_expert" = None
  /\ map Client.req_messages (Engine.calls run.1.2)
     = [ Engine._build_role_messages w (mkRole "policy_expert" "政策专家" "" "" [] []) "q"
           (Engine.ctx Samples.fresh);
         Engine._build_role_messages w (mkRole "financial_advisor" "财务顾问" "" "" [] []) "q"
           (Engine.ctx Samples.fresh) ].
Proof. by vm_compute. Qed.

(** The parallel path at a failing node: the first of two independent
    specialists times out, and its entry in the result map is the
    failure text. *)
Example failed_parallel_node_gets_entry :
  let w := Samples.world_with Samples.first_post_times_out Samples.steady in
  let run := Engine.plan_rounds w Samples.independent_plan "q" Samples.fresh in
  run.2 = Ret tt
  /\ Engine.role_results (Engine.ctx run.1.2)
     = [ ("policy_expert", Some "执行出错: 服务响应超时，请稍后重试");
         ("financial_advisor", Some "whole") ].
Proof. by vm_compute. Qed.

(** *** Which rounds stream their text *)

Section StreamedRounds.
Import Client Tools Intent Engine.

Variable w : World.

(** The state the scheduling loop has reached when it has run [i]
    rounds: the loop given fuel for [i] rounds only. *)
Definition state_before (plan : ExecutionPlan) (user_input : string) (s : St) (i : nat)
  : St :=
  (dag_rounds w i plan user_input ∅ s).1.2.

(** What a parallel round sends for one node once all have finished:
    the tool events and the whole text of its result, or the failure
    text. *)
Definition result_events (p : ExecutionNode * ((RoleResult * list Event) + Exc))
  : list Event :=
  match p.2 with
  | inl (res, events) => events ++ [role_result (rr_role_id res) (rr_content res) false]
  | inr e => [role_result (role_id p.1) (Some ("执行出错: " +:+ str_exc e)) false]
  end.

Lemma publish_results_events pairs : forall s,
  events_of (publish_results pairs s) = flat_map result_events pairs.
Proof.
  induction pairs as [|[node result] pairs IH]; intros s; [done|].
  change (flat_map result_events ((node, result) :: pairs))
    with (result_events (node, result) ++ flat_map result_events pairs).
  simpl. rewrite run_bind. destruct result as [[res events]|e].
  - rewrite run_bind_modify_ctx, run_bind_yield_all. unfold yield.
    rewrite !outcome_of_run, !events_of_run, !state_of_run. rewrite IH.
    unfold result_events. simpl. by rewrite <- app_assoc.
  - unfold yield. rewrite !outcome_of_run, !events_of_run, !state_of_run. by rewrite IH.
Qed.

(** The events of a round of several nodes: the dispatch notices, then
    the results in the order of the nodes. *)
Lemma parallel_round_events plan user_input completed ready s :
  length ready ≠ 1 ->
  events_of (run_round w plan user_input completed ready s)
  = dispatch_events w ready
    ++ match outcome_of (gather (map (fun node => _execute_role_async w node user_input)
                                     ready) s) with
       | Ret results => flat_map result_events (zip ready results)
       | _ => []
       end.
Proof.
  intros Hlen.
  assert (Hrun : run_round w plan user_input completed ready
            = (_ ← yield_all (dispatch_events w ready);
               results ← gather (map (fun node => _execute_role_async w node user_input) ready);
               _ ← publish_results (zip ready results);
               mret (completed ∪ list_to_set (map role_id ready)))).
  { unfold run_round. by destruct ready as [|? [|? ?]]. }
  rewrite Hrun. clear Hrun. rewrite run_bind_yield_all, events_of_run. f_equal.
  rewrite run_bind.
  assert (Hmute : events_of (gather (map (fun node => _execute_role_async w node user_input)
                                         ready) s) = []).
  { assert (mute (gather (map (fun node => _execute_role_async w node user_input) ready)))
      as Hm.
    { apply gather_mute. apply Forall_forall. intros t Ht.
      apply list_elem_of_fmap in Ht as (n & -> & _). apply execute_role_async_mute. }
    specialize (Hm s). destruct (events_of _) as [|e evs]; [done|].
    by apply Forall_cons in Hm as [[] _]. }
  destruct (outcome_of (gather _ s)) as [results| |];
    rewrite events_of_run, Hmute; [|done..].
  rewrite events_bind_ret. apply publish_results_events.
Qed.

(** The [i]-th round of a run: the ready list of the nodes run before
    it, run from the state the loop had reached. *)
Lemma dag_rounds_nth fuel plan user_input : forall completed s rounds s' o,
  dag_rounds w fuel plan user_input completed s = (rounds, s', o) ->
  forall i r, rounds !! i = Some r ->
    round_nodes r = get_ready_nodes plan (completed ∪ ran (take i rounds))
    /\ round_nodes r ≠ []
    /\ round_kind r = round_mode plan (completed ∪ ran (take i rounds)) (round_nodes r)
    /\ round_events r
       = events_of (run_round w plan user_input (completed ∪ ran (take i rounds))
                      (round_nodes r) (dag_rounds w i plan user_input completed s).1.2).
Proof.
  induction fuel as [|fuel IH]; intros completed s rounds s' o Hrun i r Hi.
  { simpl in Hrun. destruct (get_ready_nodes plan completed);
      apply pair_equal_spec in Hrun as [Hrun _];
      apply pair_equal_spec in Hrun as [<- _]; by rewrite lookup_nil in Hi. }
  rewrite dag_rounds_step in Hrun.
  destruct (get_ready_nodes plan completed) as [|n0 ready0] eqn:Hready.
  { apply pair_equal_spec in Hrun as [Hrun _].
    apply pair_equal_spec in Hrun as [<- _]. by rewrite lookup_nil in Hi. }
  cbv beta iota zeta in Hrun. set (ready := n0 :: ready0) in *.
  assert (Hzero : (dag_rounds w 0 plan user_input completed s).1.2 = s).
  { simpl. by destruct (get_ready_nodes plan completed). }
  assert (Hhead : forall rs,
            let r0 := mkRound ready (round_mode plan completed ready)
                        (events_of (run_round w plan user_input completed ready s)) in
            round_nodes r0 = get_ready_nodes plan (completed ∪ ran (take 0 (r0 :: rs)))
            /\ round_nodes r0 ≠ []
            /\ round_kind r0
               = round_mode plan (completed ∪ ran (take 0 (r0 :: rs))) (round_nodes r0)
            /\ round_events r0
               = events_of (run_round w plan user_input
                              (completed ∪ ran (take 0 (r0 :: rs))) (round_nodes r0)
                              (dag_rounds w 0 plan user_input completed s).1.2)).
  { intros rs r0. rewrite Hzero. unfold r0, round_nodes, round_kind, round_events.
    change (take 0 _) with (@nil Round). unfold ran. simpl flat_map.
    rewrite list_to_set_nil, (right_id_L ∅ (∪)). by rewrite Hready. }
  pose proof (run_round_completed w plan user_input completed ready s) as Hcomp.
  destruct (run_round w plan user_input completed ready s) as [[evs s1] [c'| e |]] eqn:Hround.
  - specialize (Hcomp c' eq_refl). cbv beta in Hcomp.
    destruct (dag_rounds w fuel plan user_input c' s1) as [[rs s2] o2] eqn:Hrec.
    apply pair_equal_spec in Hrun as [Hrun _].
    apply pair_equal_spec in Hrun as [<- _].
    destruct i as [|i].
    + pose proof (Some_inj _ _ (Hi : Some _ = Some r)) as <-. apply (Hhead rs).
    + pose proof (Hi : rs !! i = Some r) as Hr.
      destruct (IH c' s1 rs s2 o2 Hrec i r Hr) as (H1 & H2 & H3 & H4).
      assert (Hshift : c' ∪ ran (take i rs)
                = completed ∪ ran (take (S i)
                    (mkRound ready (round_mode plan completed ready) evs :: rs))).
      { change (take (S i) (?x :: rs)) with (x :: take i rs).
        rewrite ran_cons, Hcomp. unfold round_nodes. by rewrite (assoc_L (∪)). }
      assert (Hstate : (dag_rounds w (S i) plan user_input completed s).1.2
                       = (dag_rounds w i plan user_input c' s1).1.2).
      { rewrite dag_rounds_step. unfold ready in Hready. rewrite Hready.
        cbv beta iota zeta. fold ready. rewrite Hround.
        by destruct (dag_rounds w i plan user_input c' s1) as [[? ?] ?]. }
      rewrite <- Hshift, Hstate. done.
  - apply pair_equal_spec in Hrun as [Hrun _].
    apply pair_equal_spec in Hrun as [<- _]. destruct i as [|i]; [|by destruct i].
    pose proof (Some_inj _ _ (Hi : Some _ = Some r)) as <-. apply (Hhead []).
  - apply pair_equal_spec in Hrun as [Hrun _].
    apply pair_equal_spec in Hrun as [<- _]. destruct i as [|i]; [|by destruct i].
    pose proof (Some_inj _ _ (Hi : Some _ = Some r)) as <-. apply (Hhead []).
Qed.

(** The events of a turn in DAG mode whose scheduling loop ends
    normally: those of the rounds, then those of the synthesis step. *)
Lemma process_dag_mode_events user_input plan s :
  let cleared := mkSt (set_role_results (ctx s) []) (calls s) in
  let loop := dag_loop w plan user_input cleared in
  outcome_of loop = Ret tt ->
  events_of (_process_dag_mode w user_input plan s)
  = events_of loop ++ events_of (synthesize_if_needed w user_input (state_of loop)).
Proof.
  intros cleared loop Hloop. unfold _process_dag_mode.
  rewrite run_bind_modify_ctx, run_bind. fold cleared. fold loop. rewrite Hloop.
  rewrite events_of_run. f_equal. rewrite run_bind.
  destruct (outcome_of (synthesize_if_needed w user_input (state_of loop)));
    rewrite events_of_run; [|done..].
  by rewrite save_final_result_run, events_of_run, app_nil_r.
Qed.

(** C3, as amended.  The rounds of the scheduling loop of
    [_process_dag_mode], run from any state, with [completed] the role
    ids run before a round.  A content increment is only ever sent by
    the last round, run live, and a round run live is the last.  A round
    with exactly one ready node is run silently when the plan has more
    than one node and [completed] plus one differs from the number of
    nodes: its events are those of [_execute_node_silent]; every other
    round with exactly one ready node is run live: its events are those
    of [_execute_node].  A round with several ready nodes is run in
    parallel wherever it occurs: it sends no content increment, and its
    events are the dispatch notices followed, node by node, by the tool
    events and one [role_result] holding the whole text of the node's
    run, or its failure text.  Every round of a one-node plan is run
    live.  A node run silently sends its dispatch notice, the tool
    events of the role's run and a closing notice; a node run live also
    sends on the increments the model streams, first among the events
    of the role's run.  After the rounds of a turn, the synthesis step,
    when it is taken, sends the increments of the synthesis stream as
    content increments of the synthesizer. *)
Theorem content_is_streamed_by_a_live_last_round_only
  (plan : ExecutionPlan) (user_input : string) (s : St) :
  let rounds := (plan_rounds w plan user_input s).1.1 in
  let total_nodes := length (nodes plan) in
  (forall i r, rounds !! i = Some r ->
     (round_kind r = Live -> S i = length rounds)
     /\ (forall e, e ∈ round_events r -> is_content_delta e = true ->
           S i = length rounds /\ round_kind r = Live))
  /\ (forall i r, rounds !! i = Some r ->
        let completed := ran (take i rounds) in
        let s_i := state_before plan user_input s i in
        round_nodes r = get_ready_nodes plan completed
        /\ match round_nodes r with
           | [] => False
           | [node] =>
               if Nat.ltb 1 total_nodes && negb (Nat.eqb (size completed + 1) total_nodes)
               then round_kind r = Silent
                    /\ round_events r
                       = events_of (_execute_node_silent w node user_input s_i)
               else round_kind r = Live
                    /\ round_events r = events_of (_execute_node w node user_input s_i)
           | _ =>
               round_kind r = Parallel
               /\ Forall quiet (round_events r)
               /\ match outcome_of
                          (gather (map (fun node => _execute_role_async w node user_input)
                                       (round_nodes r)) s_i) with
                  | Ret results =>
                      round_events r
                      = dispatch_events w (round_nodes r)
                        ++ flat_map result_events (zip (round_nodes r) results)
                      /\ Forall2 (fun node x =>
                                    exists res evs, x = inl (res, evs)
                                                    /\ node_result w user_input node res)
                                 (round_nodes r) results
                  | _ => round_events r = dispatch_events w (round_nodes r)
                  end
           end)
  /\ (length (nodes plan) = 1 -> forall r, r ∈ rounds -> round_kind r = Live)
  /\ (forall node role s0, w_get_role w (role_id node) = Some role ->
        let run := _execute_role_stream w role user_input s0 in
        let req := mkRequest (_build_role_messages w role user_input (ctx s0))
                             (tools_of w role) true in
        let chunks := (chat_stream (w_llm_stream w (length (calls s0)) req)).1 in
        Forall quiet (events_of (_execute_node_silent w node user_input s0))
        /\ events_of (_execute_node_silent w node user_input s0)
           = thinking_step "role_dispatch" (name role +:+ "正在分析...") (Some (id role))
             :: List.filter (relayed false) (events_of run)
             ++ match outcome_of run with
                | Ret _ => [thinking_step "role_complete" (name role +:+ "分析完成")
                                          (Some (id role))]
                | Raise e => [thinking_step "error"
                                (name role +:+ "分析出错: " +:+ str_exc e) (Some (id role))]
                | Diverge => []
                end
        /\ exists full rest,
             events_of run = deltas_events (id role) false chunks ++ rest
             /\ events_of (_execute_node w node user_input s0)
                = role_start (id role) (name role) (icon role) false
                  :: thinking_step "role_dispatch" (name role +:+ "正在分析...")
                                   (Some (id role))
                  :: deltas_events (id role) false chunks
                  ++ List.filter (relayed true) rest
                  ++ match outcome_of run with
                     | Ret _ => [role_result (id role) (Some full) false]
                     | Raise e =>
                         [role_result (id role) (Some ("执行出错: " +:+ str_exc e)) false]
                     | Diverge => []
                     end)
  /\ (forall consultant, w_get_role w "purchase_consultant" = Some consultant ->
        let cleared := mkSt (set_role_results (ctx s) []) (calls s) in
        let loop := plan_rounds w plan user_input cleared in
        loop.2 = Ret tt ->
        let rr := role_results (ctx loop.1.2) in
        let req := synthesis_request w user_input loop.1.2 consultant in
        let r := chat_stream (w_llm_stream w (length (calls loop.1.2)) req) in
        events_of (_process_dag_mode w user_input plan s)
        = concat (map round_events loop.1.1)
          ++ if Nat.ltb 1 (length rr) && negb (dict_mem rr "purchase_consultant")
             then [ thinking_step "synthesizing" "正在整合各专家意见，生成综合建议..." None;
                    role_start (id consultant) (name consultant) (icon consultant) true ]
                  ++ deltas_events (id consultant) false r.1
                  ++ match r.2 with
                     | None => [role_result (id consultant)
                                  (Some (String.concat "" (content_deltas r.1))) true]
                     | Some _ => []
                     end
             else []).
Proof.
  intros rounds total_nodes.
  assert (Hrun : exists s' o,
            dag_rounds w (S (length (nodes plan))) plan user_input ∅ s = (rounds, s', o)).
  { unfold rounds, plan_rounds.
    destruct (dag_rounds w (S (length (nodes plan))) plan user_input ∅ s) as [[? ?] ?].
    eauto. }
  destruct Hrun as (s' & o & Hrun). clearbody rounds. subst total_nodes.
  assert (Hrounds : forall r, r ∈ rounds -> is_round_of w plan user_input r).
  { intros r Hr. apply (dag_rounds_rounds w (S (length (nodes plan))) plan user_input ∅ s).
    by rewrite Hrun. }
  split; [|split; [|split; [|split]]].
  - intros i r Hi.
    assert (Hsub : (∅ : gset string) ⊆ plan_ids (nodes plan)) by set_solver.
    destruct (dag_rounds_live_last w _ plan user_input ∅ s rounds s' o Hsub Hrun i r Hi)
      as [Hlive Hquiet].
    split; [done|]. intros e He Hdelta.
    assert (Hk : round_kind r = Live \/ round_kind r ≠ Live)
      by (destruct (round_kind r); auto).
    destruct Hk as [Hk|Hk]; [by split; [apply Hlive|]|].
    specialize (Hquiet Hk). rewrite Forall_forall in Hquiet.
    specialize (Hquiet e He). unfold quiet in Hquiet. congruence.
  - intros i r Hi. cbv zeta. unfold state_before.
    destruct (dag_rounds_nth _ _ _ _ _ _ _ _ Hrun i r Hi) as (Hready & Hne & Hkind & Hevs).
    rewrite (left_id_L ∅ (∪)) in Hready, Hkind, Hevs.
    set (completed := ran (take i rounds)) in *.
    set (s_i := (dag_rounds w i plan user_input ∅ s).1.2) in *.
    split; [done|].
    destruct (round_nodes r) as [|node [|node' rest]] eqn:Hnodes; [done| |].
    + unfold round_mode in Hkind. cbn [length] in Hkind.
      unfold run_round in Hevs.
      destruct (Nat.ltb 1 (length (nodes plan))
                && negb (Nat.eqb (size completed + 1) (length (nodes plan)))) eqn:Hcond.
      * split; [done|]. rewrite Hevs. unfold round_mode. cbn [length]. rewrite Hcond.
        apply events_bind_ret.
      * split; [done|]. rewrite Hevs. unfold round_mode. cbn [length]. rewrite Hcond.
        apply events_bind_ret.
    + assert (Hlen : length (node :: node' :: rest) ≠ 1) by (simpl; lia).
      split; [by rewrite Hkind|]. split.
      * rewrite Hevs. apply round_quiet. done.
      * rewrite Hevs, (parallel_round_events _ _ _ _ _ Hlen).
        pose proof (gather_async w user_input (node :: node' :: rest) s_i) as Hg.
        destruct (outcome_of (gather _ s_i)) as [results| |];
          [|by rewrite app_nil_r..].
        split; [done|]. by apply Hg.
  - intros Hone r Hr. by eapply single_node_round_live, Hrounds.
  - intros node role s0 Hrole. split; [|split].
    + by apply silent_node_quiet.
    + by apply silent_node_events.
    + destruct (live_node_events w node user_input s0 role Hrole) as [full Hlive].
      destruct (role_stream_starts_with_deltas w role user_input s0) as [rest Hrest].
      exists full, rest. split; [exact Hrest|].
      rewrite Hlive. f_equal. f_equal. rewrite app_assoc. f_equal.
      by rewrite Hrest, List.filter_app, filter_relayed_deltas.
  - intros consultant Hrole cleared loop Hloop rr req r.
    pose proof (process_dag_mode_events user_input plan s) as Hev. cbv zeta in Hev.
    fold cleared in Hev.
    assert (Hdag : dag_loop w plan user_input cleared
                   = (concat (map round_events loop.1.1), loop.1.2, loop.2)).
    { unfold dag_loop. fold loop. by destruct loop as [[? ?] ?]. }
    rewrite Hdag in Hev. rewrite outcome_of_run, events_of_run, state_of_run in Hev.
    rewrite (Hev Hloop). f_equal.
    pose proof (synthesize_if_needed_run w user_input loop.1.2 consultant Hrole) as Hsyn.
    cbv zeta in Hsyn. fold rr in Hsyn.
    destruct (Nat.ltb 1 (length rr) && negb (dict_mem rr "purchase_consultant"));
      rewrite Hsyn, events_of_run; done.
Qed.

End StreamedRounds.

(** The whole turn of the two independent specialists: the only content
    increments are those of the synthesis, sent for the synthesizer. *)
Example independent_plan_turn :
  List.filter Engine.is_content_delta
    (events_of (Engine._process_dag_mode (Samples.world Samples.steady) "q"
                  Samples.independent_plan Samples.fresh))
  = [ Engine.content_delta "purchase_consultant" "par" false;
      Engine.content_delta "purchase_consultant" "tial" false ].
Proof. by vm_compute. Qed.

(* ================================================================== *)
(** * Further properties *)
(* ================================================================== *)

(** ** The order in which a plan is run *)

Section OrderFacts.
Import Client Tools Intent Engine.

Variable w : World.

Lemma ready_nodes_deps plan completed n d :
  n ∈ get_ready_nodes plan completed -> d ∈ depends_on n -> d ∈ completed.
Proof.
  unfold get_ready_nodes. intros Hn Hd. apply list_elem_of_In, filter_In in Hn as [_ Hr].
  unfold is_ready in Hr. apply andb_true_iff in Hr as [_ Hr].
  rewrite forallb_forall in Hr. apply list_elem_of_In in Hd.
  specialize (Hr d Hd). by apply bool_decide_eq_true in Hr.
Qed.

(** The loop of [_process_dag_mode] from a completed set: a node is run
    in a round only when it is a node of the plan that has not been run
    before and whose dependencies have all been run before; and when the
    loop ends normally no node is ready any more. *)
Lemma dag_rounds_order fuel plan user_input : forall completed s rounds s' o,
  dag_rounds w fuel plan user_input completed s = (rounds, s', o) ->
  (forall i r n, rounds !! i = Some r -> n ∈ round_nodes r ->
     n ∈ nodes plan
     /\ (role_id n ∉ (completed ∪ ran (take i rounds)))
     /\ forall d, d ∈ depends_on n -> d ∈ (completed ∪ ran (take i rounds)))
  /\ (o = Ret tt -> get_ready_nodes plan (completed ∪ ran rounds) = []).
Proof.
  induction fuel as [|fuel IH]; intros completed s rounds s' o Hrun.
  - simpl in Hrun. destruct (get_ready_nodes plan completed) eqn:Hready.
    + apply pair_equal_spec in Hrun as [Hrun <-].
      apply pair_equal_spec in Hrun as [<- <-].
      split; [intros i r n Hi; by rewrite lookup_nil in Hi|]. intros _.
      unfold ran. simpl. by rewrite (right_id_L ∅ (∪)).
    + apply pair_equal_spec in Hrun as [Hrun <-].
      apply pair_equal_spec in Hrun as [<- <-].
      split; [intros i r n Hi; by rewrite lookup_nil in Hi | done].
  - rewrite dag_rounds_step in Hrun.
    destruct (get_ready_nodes plan completed) as [|n0 ready0] eqn:Hready.
    { apply pair_equal_spec in Hrun as [Hrun <-].
      apply pair_equal_spec in Hrun as [<- <-].
      split; [intros i r n Hi; by rewrite lookup_nil in Hi|]. intros _.
      unfold ran. simpl. by rewrite (right_id_L ∅ (∪)). }
    cbv beta iota zeta in Hrun. set (ready := n0 :: ready0) in *.
    assert (Hhead : forall n, n ∈ ready ->
              n ∈ nodes plan /\ (role_id n ∉ (completed ∪ ran []))
              /\ forall d, d ∈ depends_on n -> d ∈ (completed ∪ ran [])).
    { intros n Hn. rewrite <- Hready in Hn. unfold ran. simpl.
      rewrite (right_id_L ∅ (∪)).
      destruct (ready_nodes_elem _ _ _ Hn) as [? ?]. split; [done|]. split; [done|].
      intros d Hd. by eapply ready_nodes_deps. }
    pose proof (run_round_completed w plan user_input completed ready s) as Hcomp.
    destruct (run_round w plan user_input completed ready s) as [[evs s1] [c'| e |]] eqn:Hround.
    + specialize (Hcomp c' eq_refl). cbv beta in Hcomp.
      destruct (dag_rounds w fuel plan user_input c' s1) as [[rs s2] o2] eqn:Hrec.
      apply pair_equal_spec in Hrun as [Hrun <-].
      apply pair_equal_spec in Hrun as [<- <-].
      destruct (IH c' s1 rs s2 o2 Hrec) as [Hord Hend].
      assert (Hshift : forall l, c' ∪ ran l
                = completed ∪ ran (mkRound ready (round_mode plan completed ready) evs :: l)).
      { intros l. rewrite ran_cons, Hcomp. unfold round_nodes.
        by rewrite (assoc_L (∪)). }
      split.
      * intros i r n Hi Hn. destruct i as [|i].
        -- pose proof (Some_inj _ _ (Hi : Some _ = Some r)) as <-. by apply Hhead.
        -- pose proof (Hi : rs !! i = Some r) as Hr.
           destruct (Hord i r n Hr Hn) as (H1 & H2 & H3).
           change (take (S i) (?x :: rs)) with (x :: take i rs).
           rewrite <- Hshift. done.
      * intros Ho. rewrite <- Hshift. by apply Hend.
    + apply pair_equal_spec in Hrun as [Hrun <-].
      apply pair_equal_spec in Hrun as [<- <-]. split; [|done].
      intros i r n Hi Hn. destruct i as [|i]; [|by destruct i].
      pose proof (Some_inj _ _ (Hi : Some _ = Some r)) as <-. by apply Hhead.
    + apply pair_equal_spec in Hrun as [Hrun <-].
      apply pair_equal_spec in Hrun as [<- <-]. split; [|done].
      intros i r n Hi Hn. destruct i as [|i]; [|by destruct i].
      pose proof (Some_inj _ _ (Hi : Some _ = Some r)) as <-. by apply Hhead.
Qed.

Lemma ran_take_subseteq i rounds : ran (take i rounds) ⊆ ran rounds.
Proof.
  revert i. induction rounds as [|r rounds IH]; intros [|i]; simpl; try done.
  rewrite !ran_cons. specialize (IH i). set_solver.
Qed.

Lemma plan_rounds_order plan user_input s :
  let rounds := (plan_rounds w plan user_input s).1.1 in
  (forall i r n, rounds !! i = Some r -> n ∈ round_nodes r ->
     n ∈ nodes plan
     /\ (role_id n ∉ ran (take i rounds))
     /\ forall d, d ∈ depends_on n -> d ∈ ran (take i rounds))
  /\ ((plan_rounds w plan user_input s).2 = Ret tt ->
      get_ready_nodes plan (ran rounds) = []).
Proof.
  intros rounds. subst rounds. unfold plan_rounds.
  destruct (dag_rounds w (S (length (nodes plan))) plan user_input ∅ s)
    as [[rounds s'] o] eqn:Hrun.
  destruct (dag_rounds_order _ _ _ _ _ _ _ _ Hrun) as [Hord Hend]. unfold fst, snd.
  split.
  - intros i r n Hi Hn. destruct (Hord i r n Hi Hn) as (H1 & H2 & H3).
    rewrite (left_id_L ∅ (∪)) in H2. split; [done|]. split; [done|].
    intros d Hd. specialize (H3 d Hd). by rewrite (left_id_L ∅ (∪)) in H3.
  - intros Ho. specialize (Hend Ho). by rewrite (left_id_L ∅ (∪)) in Hend.
Qed.

Lemma ran_plan_ids plan user_input s :
  ran (plan_rounds w plan user_input s).1.1 ⊆ plan_ids (nodes plan).
Proof.
  destruct (plan_rounds_order plan user_input s) as [Hord _]. cbv zeta in Hord.
  intros k Hk. unfold ran in Hk. apply elem_of_list_to_set in Hk.
  apply list_elem_of_In, in_flat_map in Hk as (r & Hr & Hk).
  apply list_elem_of_In in Hr, Hk. apply list_elem_of_lookup in Hr as [i Hi].
  apply list_elem_of_fmap in Hk as (n & -> & Hn).
  destruct (Hord i r n Hi Hn) as [Hin _].
  apply elem_of_list_to_set, list_elem_of_fmap. by exists n.
Qed.

(** X1.  In every run of the scheduling loop, a node is run in a round
    only if it is a node of the plan, no node with its role id was run
    in an earlier round, and every role it depends on was run in an
    earlier round.  So a node that lists a role without node in the
    plan is never run. *)
Theorem rounds_respect_dependencies (plan : ExecutionPlan) (user_input : string) (s : St) :
  let rounds := (plan_rounds w plan user_input s).1.1 in
  (forall i r n, rounds !! i = Some r -> n ∈ round_nodes r ->
     n ∈ nodes plan
     /\ (role_id n ∉ ran (take i rounds))
     /\ forall d, d ∈ depends_on n -> d ∈ ran (take i rounds))
  /\ (forall r n d, r ∈ rounds -> n ∈ round_nodes r ->
        d ∈ depends_on n -> d ∈ map role_id (nodes plan)).
Proof.
  intros rounds. destruct (plan_rounds_order plan user_input s) as [Hord _].
  split; [exact Hord|]. intros r n d Hr Hn Hd.
  apply list_elem_of_lookup in Hr as [i Hi].
  destruct (Hord i r n Hi Hn) as (_ & _ & Hdeps). specialize (Hdeps d Hd).
  apply ran_take_subseteq, ran_plan_ids in Hdeps.
  by apply elem_of_list_to_set in Hdeps.
Qed.

Lemma NoDup_fmap_eq {A B} `{EqDecision B} (f : A -> B) (l : list A) x y :
  NoDup (map f l) -> x ∈ l -> y ∈ l -> f x = f y -> x = y.
Proof.
  induction l as [|a l IH]; intros Hnd Hx Hy Hf; [by apply not_elem_of_nil in Hx|].
  simpl in Hnd. apply NoDup_cons in Hnd as [Ha Hnd].
  apply elem_of_cons in Hx as [->|Hx]; apply elem_of_cons in Hy as [->|Hy]; try done.
  - exfalso. apply Ha. rewrite Hf. apply list_elem_of_fmap. by exists y.
  - exfalso. apply Ha. rewrite <- Hf. apply list_elem_of_fmap. by exists x.
  - by apply IH.
Qed.

(** X2.  When the dependency graph of a plan has no cycle and every
    dependency names a node of the plan, a run of the scheduling loop
    that ends normally has run the role of every node of the plan; when
    moreover no role id occurs twice in the plan it has run every
    node. *)
Theorem closed_acyclic_plan_runs_every_node
  (plan : ExecutionPlan) (user_input : string) (s : St) :
  ~ has_cycle (nodes plan) ->
  (forall n d, n ∈ nodes plan -> d ∈ depends_on n -> d ∈ map role_id (nodes plan)) ->
  (plan_rounds w plan user_input s).2 = Ret tt ->
  forall n, n ∈ nodes plan ->
    role_id n ∈ ran (plan_rounds w plan user_input s).1.1
    /\ (NoDup (map role_id (nodes plan)) ->
        exists r, r ∈ (plan_rounds w plan user_input s).1.1 /\ n ∈ round_nodes r).
Proof.
  intros Hacyclic Hclosed Hret.
  destruct (plan_rounds_order plan user_input s) as [Hord Hend]. cbv zeta in Hord, Hend.
  specialize (Hend Hret).
  set (rounds := (plan_rounds w plan user_input s).1.1) in *.
  set (R := flip (depends_edge (nodes plan))).
  assert (Hirr : Irreflexive (tc R)).
  { intros x Hx. apply Hacyclic. exists x. by apply tc_flip in Hx. }
  assert (Hfin : forall k, pred_finite (tc R k)).
  { intros k. exists (map role_id (nodes plan)). intros y Hy.
    destruct (tc_last _ _ _ Hy) as (b & _ & Hb). unfold R, flip in Hb.
    by destruct Hb as (m & _ & _ & _ & ?). }
  assert (Hall : forall k, k ∈ map role_id (nodes plan) -> k ∈ ran rounds).
  { intros k. pose proof (tc_finite_sn k Hirr (Hfin k)) as Hsn.
    induction Hsn as [k _ IH]. intros Hk.
    destruct (decide (k ∈ ran rounds)) as [|Hnot]; [done|]. exfalso.
    apply list_elem_of_fmap in Hk as (n & -> & Hn).
    assert (Hready : n ∈ get_ready_nodes plan (ran rounds)).
    { unfold get_ready_nodes. apply list_elem_of_In, filter_In.
      split; [by apply list_elem_of_In|]. unfold is_ready.
      rewrite (bool_decide_eq_false_2 _ Hnot). simpl. apply forallb_forall.
      intros d Hd%list_elem_of_In. apply bool_decide_eq_true_2.
      pose proof (Hclosed n d Hn Hd) as HdI.
      apply IH; [|done]. unfold R, flip. by exists n. }
    rewrite Hend in Hready. by apply not_elem_of_nil in Hready. }
  intros n Hn.
  assert (Hk : role_id n ∈ ran rounds).
  { apply Hall, list_elem_of_fmap. by exists n. }
  split; [done|]. intros Hnd.
  unfold ran in Hk. apply elem_of_list_to_set in Hk.
  apply list_elem_of_In, in_flat_map in Hk as (r & Hr & Hk).
  apply list_elem_of_In in Hr, Hk.
  exists r. split; [done|].
  apply list_elem_of_fmap in Hk as (m & Hid & Hm).
  pose proof Hr as Hr'. apply list_elem_of_lookup in Hr' as [i Hi].
  destruct (Hord i r m Hi Hm) as (Hmn & _ & _).
  by rewrite (NoDup_fmap_eq role_id (nodes plan) n m Hnd Hn Hmn Hid).
Qed.

End OrderFacts.

(** ** The planner's reply *)

Section ReplyFacts.
Import Intent.

(** [c in s] for a character. *)
Fixpoint occurs (c : ascii) (s : string) : bool :=
  match s with
  | EmptyString => false
  | String a r => Ascii.eqb a c || occurs c r
  end.

Lemma append_cons a (s t : string) : String a s +:+ t = String a (s +:+ t).
Proof. reflexivity. Qed.

Lemma append_nil_l (t : string) : "" +:+ t = t.
Proof. reflexivity. Qed.

Lemma from_open_brace_app pre t :
  occurs "{" pre = false ->
  from_open_brace (pre +:+ String "{" t) = Some (String "{" t).
Proof.
  induction pre as [|a pre IH]; intros Hpre; [done|].
  simpl in Hpre. apply orb_false_iff in Hpre as [Ha Hpre].
  rewrite append_cons. simpl. rewrite Ha. by apply IH.
Qed.

Lemma from_open_brace_inv s t :
  from_open_brace s = Some t ->
  exists pre t', s = pre +:+ t /\ t = String "{" t' /\ occurs "{" pre = false.
Proof.
  induction s as [|a s IH]; [done|]. simpl.
  destruct (Ascii.eqb a "{") eqn:Ha.
  - intros [= <-]. apply Ascii.eqb_eq in Ha as ->. by exists "", s.
  - intros H. destruct (IH H) as (pre & t' & -> & -> & Hpre).
    exists (String a pre), t'. split; [done|]. split; [done|]. simpl. by rewrite Ha.
Qed.

Lemma to_last_close_brace_none post :
  occurs "}" post = false -> to_last_close_brace post = None.
Proof.
  induction post as [|a post IH]; [done|]. simpl. intros H.
  apply orb_false_iff in H as [Ha H]. by rewrite IH, Ha.
Qed.

Lemma to_last_close_brace_app s post :
  occurs "}" post = false ->
  to_last_close_brace (s +:+ String "}" post) = Some (s +:+ "}").
Proof.
  intros Hpost. induction s as [|a s IH].
  - rewrite !append_nil_l. simpl. by rewrite to_last_close_brace_none.
  - rewrite !append_cons. simpl. by rewrite IH.
Qed.

Lemma to_last_close_brace_inv s m :
  to_last_close_brace s = Some m ->
  exists m' post, s = m +:+ post /\ m = m' +:+ "}" /\ occurs "}" post = false.
Proof.
  revert m. induction s as [|a s IH]; intros m; [done|]. simpl.
  destruct (to_last_close_brace s) as [p|] eqn:Hs.
  - intros [= <-]. destruct (IH p eq_refl) as (m' & post & -> & -> & Hpost).
    by exists (String a m'), post.
  - destruct (Ascii.eqb a "}") eqn:Ha; [|done]. intros [= <-].
    apply Ascii.eqb_eq in Ha as ->. exists "", s. split; [done|]. split; [done|].
    clear IH. induction s as [|b s IH]; [done|]. simpl in Hs.
    destruct (to_last_close_brace s); [done|].
    destruct (Ascii.eqb b "}") eqn:Hb; [done|]. simpl. rewrite Hb. by apply IH.
Qed.

(** The text [re.search] extracts: from the first opening brace to the
    last closing brace after it. *)
Lemma re_search_json_spec s m :
  re_search_json s = Some m <->
  exists pre mid post,
    s = pre +:+ "{" +:+ mid +:+ "}" +:+ post
    /\ m = "{" +:+ mid +:+ "}"
    /\ occurs "{" pre = false /\ occurs "}" post = false.
Proof.
  unfold re_search_json. split.
  - destruct (from_open_brace s) as [t|] eqn:Ht; [|done]. intros Hm.
    destruct (from_open_brace_inv _ _ Ht) as (pre & t' & -> & -> & Hpre).
    destruct (to_last_close_brace_inv _ _ Hm) as (m' & post & Heq & -> & Hpost).
    destruct m' as [|c mid].
    + rewrite append_nil_l in Heq. change ("}" +:+ post) with (String "}" post) in Heq.
      discriminate Heq.
    + rewrite !append_cons in Heq. injection Heq as <- ->.
      exists pre, mid, post. split; [|done].
      change ("{" +:+ mid +:+ "}" +:+ post) with (String "{" (mid +:+ "}" +:+ post)).
      by rewrite string_app_assoc.
  - intros (pre & mid & post & -> & -> & Hpre & Hpost).
    change ("{" +:+ mid +:+ "}" +:+ post) with (String "{" (mid +:+ String "}" post)).
    rewrite from_open_brace_app by done.
    change (String "{" (mid +:+ String "}" post))
      with (String "{" mid +:+ String "}" post).
    by rewrite to_last_close_brace_app.
Qed.

End ReplyFacts.

Section ParsedPlanFacts.
Import Intent.

Variable get_role : string -> option Role.
Variable json_loads : string -> JVal + string.
Variable strip : string -> string.
Variable SYSTEM_PROMPT : string.
Variable chat : list Message -> Outcome JVal.

(** X3.  [_parse_plan_response] reads the reply from its first opening
    brace to the last closing brace after it: text before the object
    that holds no opening brace, and text after it that holds no closing
    brace, change nothing; a reply without an opening brace followed by
    a closing brace gives the default plan. *)
Theorem reply_is_read_between_braces :
  (forall s m,
     re_search_json s = Some m <->
     exists pre mid post,
       s = pre +:+ "{" +:+ mid +:+ "}" +:+ post
       /\ m = "{" +:+ mid +:+ "}"
       /\ occurs "{" pre = false /\ occurs "}" post = false)
  /\ (forall pre mid post,
        occurs "{" pre = false -> occurs "}" post = false ->
        _parse_plan_response get_role json_loads
          (JStr (pre +:+ "{" +:+ mid +:+ "}" +:+ post))
        = _parse_plan_response get_role json_loads (JStr ("{" +:+ mid +:+ "}")))
  /\ (forall s,
        re_search_json s = None ->
        _parse_plan_response get_role json_loads (JStr s)
        = Ret (default_plan "解析失败，使用默认角色: No JSON found in response")).
Proof.
  split; [apply re_search_json_spec|]. split.
  - intros pre mid post Hpre Hpost.
    assert (H1 : re_search_json (pre +:+ "{" +:+ mid +:+ "}" +:+ post)
                 = Some ("{" +:+ mid +:+ "}")).
    { apply re_search_json_spec. by exists pre, mid, post. }
    assert (H2 : re_search_json ("{" +:+ mid +:+ "}") = Some ("{" +:+ mid +:+ "}")).
    { apply re_search_json_spec. exists "", mid, "".
      split; [|done]. rewrite append_nil_l. by rewrite !string_app_nil_r. }
    unfold _parse_plan_response. by rewrite H1, H2.
  - intros s Hs. unfold _parse_plan_response. by rewrite Hs.
Qed.

Lemma validated_acyclic ns : _validate_dag ns = Ret true -> ~ has_cycle ns.
Proof.
  intros Hval Hcyc. destruct (cycle_count_lt ns Hcyc) as (v & Hv & Hlt).
  unfold _validate_dag in Hval. rewrite Hv in Hval. simpl in Hval.
  injection Hval as Hval. apply Nat.eqb_eq in Hval. lia.
Qed.

(** What the engine relies on in a plan. *)
Definition runnable_plan (plan : ExecutionPlan) : Prop :=
  nodes plan ≠ [] /\ ~ has_cycle (nodes plan).

Lemma default_plan_runnable why : runnable_plan (default_plan why).
Proof.
  split; [done|]. intros [x Hx].
  apply tc_last in Hx as (b & _ & n & Hn & _ & Hd & _).
  apply list_elem_of_singleton in Hn as ->. by apply not_elem_of_nil in Hd.
Qed.

Lemma parse_plan_data_runnable data plan :
  _parse_plan_data get_role data = Ret plan -> runnable_plan plan.
Proof.
  unfold _parse_plan_data.
  destruct (py_get data "nodes" (JArr [])) as [nodes_data| |]; simpl; try done.
  destruct (py_iter nodes_data) as [items| |]; simpl; try done.
  destruct (parse_nodes get_role items) as [ns| |]; simpl; try done.
  destruct ns as [|n0 ns0].
  { intros [= <-]. apply default_plan_runnable. }
  destruct (_validate_dag (n0 :: ns0)) as [[|]| |] eqn:Hval; simpl; try done.
  - destruct (py_get data "reason" (JStr "")) as [why| |]; simpl; try done.
    intros [= <-]. split; [done|]. by apply validated_acyclic.
  - destruct (py_get data "reason" (JStr "")) as [why| |]; simpl; try done.
    intros [= <-]. split; [done|]. intros [x Hx].
    apply tc_last in Hx as (b & _ & Hb).
    exact (clear_depends_no_edge (n0 :: ns0) _ _ Hb).
Qed.

Lemma parse_plan_response_runnable content plan :
  _parse_plan_response get_role json_loads content = Ret plan -> runnable_plan plan.
Proof.
  unfold _parse_plan_response. destruct content as [| | | |s| |]; try done.
  destruct (re_search_json s) as [m|].
  2:{ intros [= <-]. apply default_plan_runnable. }
  destruct (json_loads m) as [data|msg].
  2:{ intros [= <-]. apply default_plan_runnable. }
  destruct (_parse_plan_data get_role data) as [p|[]|] eqn:E; try done.
  - intros [= <-]. by eapply parse_plan_data_runnable.
  - intros [= <-]. apply default_plan_runnable.
  - intros [= <-]. apply default_plan_runnable.
Qed.

(** X4.  Every plan [plan_execution] returns has at least one node and a
    dependency graph without cycle. *)
Theorem planned_execution_is_runnable (user_input : string) (plan : ExecutionPlan) :
  plan_execution get_role json_loads strip SYSTEM_PROMPT chat user_input = Ret plan ->
  nodes plan ≠ [] /\ ~ has_cycle (nodes plan).
Proof.
  unfold plan_execution. destruct (String.eqb (strip user_input) "").
  { intros [= <-]. apply default_plan_runnable. }
  destruct (_plan_with_llm get_role json_loads SYSTEM_PROMPT chat (strip user_input))
    as [p|e|] eqn:E.
  - intros [= <-]. unfold _plan_with_llm in E.
    destruct (chat _) as [response| |]; simpl in E; try done.
    destruct (response_content response) as [content| |]; simpl in E; try done.
    by eapply parse_plan_response_runnable.
  - destruct e; intros [= <-]; apply default_plan_runnable.
  - done.
Qed.

End ParsedPlanFacts.

(** X2, witness: the chain of two specialists. *)
Lemma closed_acyclic_plan_runs_every_node_witness :
  let run := Engine.plan_rounds (Samples.world Samples.steady) Samples.chain_plan "q"
               Samples.fresh in
  "financial_advisor" ∈ ran run.1.1
  /\ (NoDup (map Intent.role_id (Intent.nodes Samples.chain_plan)) ->
      exists r, r ∈ run.1.1
                /\ Intent.mkNode "financial_advisor" ["policy_expert"] ∈ Engine.round_nodes r).
Proof.
  intros run.
  refine (closed_acyclic_plan_runs_every_node (Samples.world Samples.steady)
            Samples.chain_plan "q" Samples.fresh _ _ _
            (Intent.mkNode "financial_advisor" ["policy_expert"]) _).
  - apply validated_acyclic. reflexivity.
  - intros n d Hn Hd. simpl in Hn.
    apply elem_of_cons in Hn as [->|Hn]; [by apply not_elem_of_nil in Hd|].
    apply list_elem_of_singleton in Hn as ->. simpl in Hd.
    apply list_elem_of_singleton in Hd as ->. simpl. apply list_elem_of_here.
  - reflexivity.
  - simpl. apply list_elem_of_further, list_elem_of_here.
Defined.

(** A planner reply that names two specialists, the second depending on
    the first, as [json.loads] returns it. *)
Definition chain_reply : JVal :=
  JObj [("nodes",
         JArr [ JObj [("role_id", JStr "policy_expert")];
                JObj [("role_id", JStr "financial_advisor");
                      ("depends_on", JArr [JStr "policy_expert"])] ]);
        ("reason", JStr "policy first")].

(** X4, witness: the plan read from that reply. *)
Lemma planned_execution_is_runnable_witness :
  Intent.nodes (Intent.mkPlan (Intent.nodes Samples.chain_plan) (JStr "policy first")) ≠ []
  /\ ~ has_cycle
         (Intent.nodes (Intent.mkPlan (Intent.nodes Samples.chain_plan) (JStr "policy first"))).
Proof.
  apply (planned_execution_is_runnable Roles.get_role (fun _ => inl chain_reply)
           (fun t => t) "" (fun _ => Ret (Samples.reply "{}")) "q").
  reflexivity.
Defined.


(** ** The whole of a streamed reply *)

Section StreamFacts.
Import Client.

Lemma concat_cons (x : string) (xs : list string) :
  String.concat "" (x :: xs) = x +:+ String.concat "" xs.
Proof. destruct xs; simpl; [by rewrite string_app_nil_r | done]. Qed.

Lemma concat_snoc (xs : list string) (x : string) :
  String.concat "" (xs ++ [x]) = String.concat "" xs +:+ x.
Proof.
  induction xs as [|y xs IH]; [done|].
  change ((y :: xs) ++ [x]) with (y :: (xs ++ [x])).
  by rewrite !concat_cons, IH, string_app_assoc.
Qed.

(** The deltas of all chunks, in the order of arrival. *)
Definition all_deltas (chunks : list StreamChunk) : list ToolCallDelta :=
  flat_map (fun ch => match chunk_tool_calls ch with Some tcs => tcs | None => [] end)
           chunks.

(** The finish reasons that count for [if chunk.finish_reason]. *)
Definition finish_reasons (chunks : list StreamChunk) : list string :=
  List.filter (fun r => negb (String.eqb r ""))
              (omap chunk_finish_reason chunks).

Lemma collect_from chunks : forall c,
  c_content (fold_left add_chunk chunks c)
  = c_content c +:+ String.concat "" (content_deltas chunks)
  /\ c_tool_calls (fold_left add_chunk chunks c)
     = fold_left add_delta (all_deltas chunks) (c_tool_calls c)
  /\ c_finish_reason (fold_left add_chunk chunks c)
     = match last (finish_reasons chunks) with
       | Some r => r
       | None => c_finish_reason c
       end.
Proof.
  induction chunks as [|ch chunks IH]; intros c.
  { simpl. by rewrite string_app_nil_r. }
  change (fold_left add_chunk (ch :: chunks) c)
    with (fold_left add_chunk chunks (add_chunk c ch)).
  destruct (IH (add_chunk c ch)) as (Hc & Ht & Hf).
  rewrite Hc, Ht, Hf. clear IH Hc Ht Hf. split; [|split].
  - unfold content_deltas, add_chunk. cbn [c_content map List.filter].
    destruct (String.eqb (chunk_content ch) ""); cbn [negb]; [done|].
    by rewrite concat_cons, string_app_assoc.
  - unfold all_deltas, add_chunk. cbn [c_tool_calls flat_map].
    rewrite fold_left_app. by destruct (chunk_tool_calls ch).
  - unfold finish_reasons, add_chunk. cbn [c_finish_reason omap list_omap].
    destruct (chunk_finish_reason ch) as [r|]; [|done].
    cbn [List.filter]. destruct (String.eqb r "") eqn:Hr; cbn [negb]; [done|].
    change (r :: ?l) with ([r] ++ l). rewrite last_app.
    by destruct (last _).
Qed.

(** The indices the deltas name, each once, in the order in which they
    first occur. *)
Definition first_indices (ds : list ToolCallDelta) : list Z :=
  reverse (remove_dups (reverse (map delta_index ds))).

(** The deltas at one index. *)
Definition at_index (k : Z) (ds : list ToolCallDelta) : list ToolCallDelta :=
  List.filter (fun tc => Z.eqb (delta_index tc) k) ds.

(** The record the deltas at index [k] make up: identity, type and name
    from the first, the argument fragments of all of them in a row. *)
Definition assembled (ds : list ToolCallDelta) (k : Z) : ToolCall :=
  match at_index k ds with
  | [] => mkToolCall "" "function" "" ""
  | first :: _ =>
      mkToolCall (or_default (d_id first) "") (or_default (d_type first) "function")
                 (or_default (delta_name first) "")
                 (String.concat ""
                    (map (fun tc => or_default (delta_arguments tc) "") (at_index k ds)))
  end.

Lemma first_indices_snoc ds tc :
  first_indices (ds ++ [tc])
  = if decide (delta_index tc ∈ first_indices ds) then first_indices ds
    else first_indices ds ++ [delta_index tc].
Proof.
  unfold first_indices. rewrite map_app, reverse_app. simpl.
  destruct (decide_rel elem_of (delta_index tc) (reverse (map delta_index ds)))
    as [Hin|Hnot].
  - rewrite decide_True; [done|]. by rewrite elem_of_reverse, elem_of_remove_dups.
  - rewrite decide_False; [by rewrite reverse_cons|].
    by rewrite elem_of_reverse, elem_of_remove_dups.
Qed.

Lemma first_indices_elem ds k :
  k ∈ first_indices ds <-> exists tc, tc ∈ ds /\ delta_index tc = k.
Proof.
  unfold first_indices. rewrite elem_of_reverse, elem_of_remove_dups, elem_of_reverse.
  rewrite list_elem_of_fmap. naive_solver.
Qed.

Lemma first_indices_NoDup ds : NoDup (first_indices ds).
Proof.
  unfold first_indices. rewrite reverse_Permutation. apply NoDup_remove_dups.
Qed.

Lemma at_index_nil ds k : k ∉ first_indices ds -> at_index k ds = [].
Proof.
  intros Hk. apply filter_none. intros tc Htc. apply Z.eqb_neq. intros Heq.
  apply Hk, first_indices_elem. by exists tc.
Qed.

Lemma at_index_cons ds k : k ∈ first_indices ds -> at_index k ds ≠ [].
Proof.
  intros (tc & Htc & Hk)%first_indices_elem Hnil.
  assert (tc ∈ at_index k ds) as Hin.
  { apply list_elem_of_In, filter_In. split; [by apply list_elem_of_In|].
    by apply Z.eqb_eq. }
  rewrite Hnil in Hin. by apply not_elem_of_nil in Hin.
Qed.

Lemma at_index_snoc ds tc k :
  at_index k (ds ++ [tc])
  = at_index k ds ++ (if Z.eqb (delta_index tc) k then [tc] else []).
Proof. unfold at_index. by rewrite List.filter_app. Qed.

Lemma assembled_other ds tc k :
  k ≠ delta_index tc -> assembled (ds ++ [tc]) k = assembled ds k.
Proof.
  intros Hne. unfold assembled. rewrite at_index_snoc.
  assert (Z.eqb (delta_index tc) k = false) as -> by (apply Z.eqb_neq; congruence).
  by rewrite app_nil_r.
Qed.

Lemma assembled_later ds tc :
  delta_index tc ∈ first_indices ds ->
  assembled (ds ++ [tc]) (delta_index tc)
  = let call := assembled ds (delta_index tc) in
    mkToolCall (tc_id call) (tc_type call) (tc_name call)
               (tc_arguments call +:+ or_default (delta_arguments tc) "").
Proof.
  intros Hin%at_index_cons. unfold assembled. rewrite at_index_snoc, Z.eqb_refl.
  destruct (at_index (delta_index tc) ds) as [|first rest]; [done|].
  change ((first :: rest) ++ [tc]) with (first :: (rest ++ [tc])).
  cbv beta iota zeta. cbn [tc_id tc_type tc_name tc_arguments]. f_equal.
  rewrite <- concat_snoc. f_equal.
  change (first :: (rest ++ [tc])) with ((first :: rest) ++ [tc]). by rewrite map_app.
Qed.

Lemma assembled_first ds tc :
  delta_index tc ∉ first_indices ds ->
  assembled (ds ++ [tc]) (delta_index tc)
  = mkToolCall (or_default (d_id tc) "") (or_default (d_type tc) "function")
               (or_default (delta_name tc) "") (or_default (delta_arguments tc) "").
Proof.
  intros Hnot%at_index_nil. unfold assembled.
  by rewrite at_index_snoc, Hnot, Z.eqb_refl.
Qed.

Lemma dict_get_table {V} (f : Z -> V) (keys : list Z) k :
  dict_get (map (fun j => (j, f j)) keys) k
  = if decide (k ∈ keys) then Some (f k) else None.
Proof.
  induction keys as [|j keys IH].
  - destruct (decide (k ∈ [])) as [Hin|]; [by apply not_elem_of_nil in Hin | done].
  - change (dict_get (map (fun j => (j, f j)) (j :: keys)) k)
      with (if decide (k = j) then Some (f j)
            else dict_get (map (fun j => (j, f j)) keys) k).
    rewrite IH. destruct (decide (k = j)) as [->|Hne].
    + destruct (decide (j ∈ j :: keys)) as [|Hn]; [done|].
      destruct Hn. apply list_elem_of_here.
    + destruct (decide (k ∈ keys)) as [Hin|Hnot];
        destruct (decide (k ∈ j :: keys)) as [Hin'|Hnot']; try done.
      * destruct Hnot'. by apply list_elem_of_further.
      * apply elem_of_cons in Hin' as [?|?]; done.
Qed.

Lemma dict_set_table {V} (f : Z -> V) (keys : list Z) k v :
  k ∈ keys ->
  dict_set (map (fun j => (j, f j)) keys) k v
  = map (fun j => (j, if decide (j = k) then v else f j)) keys
    \/ ~ NoDup keys.
Proof.
  intros Hin. destruct (decide (NoDup keys)) as [Hnd|]; [left|by right].
  induction keys as [|j keys IH]; [by apply not_elem_of_nil in Hin|].
  apply NoDup_cons in Hnd as [Hj Hnd]. simpl.
  destruct (decide (k = j)) as [->|Hne].
  - rewrite decide_True by done. f_equal. apply map_ext_in. intros a Ha%list_elem_of_In.
    rewrite decide_False; [done|]. by intros ->.
  - rewrite decide_False by done. f_equal.
    apply IH; [|done]. by apply elem_of_cons in Hin as [?|?].
Qed.

(** The table the accumulator holds after the deltas [ds]. *)
Lemma fold_add_delta ds :
  fold_left add_delta ds []
  = map (fun k => (k, assembled ds k)) (first_indices ds).
Proof.
  induction ds as [|tc ds IH] using rev_ind; [done|].
  rewrite fold_left_app. simpl. rewrite IH, first_indices_snoc.
  set (k := delta_index tc). set (calls := map _ (first_indices ds)).
  assert (Hget : dict_get calls k
                 = if decide (k ∈ first_indices ds) then Some (assembled ds k) else None)
    by apply dict_get_table.
  destruct (decide (k ∈ first_indices ds)) as [Hin|Hnot].
  - pose proof (assembled_later ds tc Hin) as Hlater. cbv zeta in Hlater. fold k in Hlater.
    assert (Hgoal : forall v,
              v = assembled (ds ++ [tc]) k ->
              dict_set calls k v
              = map (fun j => (j, assembled (ds ++ [tc]) j)) (first_indices ds)).
    { intros v ->. unfold calls. destruct (dict_set_table (assembled ds) (first_indices ds) k
                               (assembled (ds ++ [tc]) k) Hin) as [->|Hbad].
      2:{ destruct Hbad. apply first_indices_NoDup. }
      apply map_ext. intros j. destruct (decide (j = k)) as [->|Hne]; [done|].
      by rewrite assembled_other. }
    assert (Hsame : or_default (delta_arguments tc) "" = "" ->
              calls = map (fun j => (j, assembled (ds ++ [tc]) j)) (first_indices ds)).
    { intros He. unfold calls. apply map_ext. intros j. f_equal.
      destruct (decide (j = k)) as [->|Hne]; [|symmetry; by apply assembled_other].
      rewrite Hlater, He, string_app_nil_r. by destruct (assembled ds k). }
    unfold add_delta. fold (delta_index tc). fold k. rewrite Hget.
    destruct (d_function tc) as [[n [frag|]]|] eqn:Hf.
    + apply Hgoal. rewrite Hlater. unfold delta_arguments. by rewrite Hf.
    + apply Hsame. unfold delta_arguments. by rewrite Hf.
    + apply Hsame. unfold delta_arguments. by rewrite Hf.
  - rewrite add_delta_first by (fold k; by rewrite Hget).
    fold k. rewrite dict_set_absent.
    2:{ apply dict_get_None_keys. by rewrite Hget. }
    rewrite map_app. simpl. f_equal.
    + apply map_ext_in. intros j Hj%list_elem_of_In. f_equal.
      symmetry. apply assembled_other. by intros ->.
    + f_equal. f_equal. symmetry. by apply assembled_first.
Qed.

(** X5.  Whatever chunks arrive, the result of the accumulator is: as
    content the text increments the stream handed on, in a row; as tool
    calls one record per index named by a delta, in the order in which
    the indices first occur, each with the id, type and name of the
    first delta at its index and the argument fragments of all deltas
    at that index in a row; as finish reason the last non-empty one, or
    the empty text. *)
Theorem collector_result_in_closed_form (chunks : list StreamChunk) :
  let result := get_result (collect chunks) in
  let ds := all_deltas chunks in
  content result = String.concat "" (content_deltas chunks)
  /\ tool_calls result = map (assembled ds) (first_indices ds)
  /\ finish_reason result = from_option (fun r => r) "" (last (finish_reasons chunks))
  /\ NoDup (first_indices ds)
  /\ (forall k, k ∈ first_indices ds <-> exists tc, tc ∈ ds /\ delta_index tc = k)
  /\ (forall ds' tc,
        first_indices (ds' ++ [tc])
        = if decide (delta_index tc ∈ first_indices ds') then first_indices ds'
          else first_indices ds' ++ [delta_index tc]).
Proof.
  intros result ds. unfold result, get_result, collect.
  destruct (collect_from chunks new_collector) as (Hc & Ht & Hf).
  split; [|split; [|split; [|split; [|split]]]].
  - exact Hc.
  - unfold tool_calls. rewrite Ht. simpl. fold ds. rewrite fold_add_delta.
    unfold dict_values. rewrite map_map. done.
  - unfold finish_reason. rewrite Hf. simpl. by destruct (last _).
  - apply first_indices_NoDup.
  - apply first_indices_elem.
  - apply first_indices_snoc.
Qed.

End StreamFacts.


(** ** Tools: registry, schema and validation *)

Section RegistryFacts.
Import Tools Registry.

(** A table filled by [register] only: every tool is kept under its own
    name. *)
Inductive registered : gmap string BaseTool -> Prop :=
| registered_new : registered ∅
| registered_clear reg : registered (clear reg)
| registered_register reg t : registered reg -> registered (register reg t).

Lemma registered_names reg :
  registered reg -> forall n t, reg !! n = Some t -> tool_name t = n.
Proof.
  induction 1 as [|reg|reg t0 _ IH]; intros n t.
  - by rewrite lookup_empty.
  - unfold clear. by rewrite lookup_empty.
  - unfold register. destruct (decide (tool_name t0 = n)) as [<-|Hne].
    + rewrite lookup_insert_eq. by intros [= <-].
    + rewrite lookup_insert_ne by done. apply IH.
Qed.

(** X6.  The registry: a registered tool is found under its name and
    replaces any tool of that name, other names are not affected, and
    nothing is found after [clear]; [exists] agrees with [get]; and in a
    registry filled by [register], [get_by_names] gives the tools of
    the names asked that are registered, in the order asked, the others
    being skipped, [get_schemas] giving their schemas. *)
Theorem registry_lookup_laws (reg : gmap string BaseTool) :
  (forall t, get (register reg t) (tool_name t) = Some t)
  /\ (forall t n, n ≠ tool_name t -> get (register reg t) n = get reg n)
  /\ (forall n, get (clear reg) n = None)
  /\ (forall n, exists_ reg n = true <-> exists t, get reg n = Some t)
  /\ (forall names,
        get_schemas reg names = map to_openai_schema (get_by_names reg names)
        /\ length (get_by_names reg names) <= length names
        /\ (forall t, t ∈ get_by_names reg names <->
                      exists n, n ∈ names /\ get reg n = Some t))
  /\ (registered reg ->
      forall names,
        map tool_name (get_by_names reg names) = List.filter (exists_ reg) names).
Proof.
  split; [|split; [|split; [|split; [|split]]]].
  - intros t. unfold get, register. apply lookup_insert_eq.
  - intros t n Hne. unfold get, register. by apply lookup_insert_ne.
  - intros n. unfold get, clear. apply lookup_empty.
  - intros n. unfold exists_, get. rewrite bool_decide_eq_true. by unfold is_Some.
  - intros names. split; [done|]. split.
    + unfold get_by_names. induction names as [|n names IH]; [done|].
      change (omap (fun n => reg !! n) (n :: names))
        with (match reg !! n with
              | Some t => t :: omap (fun n => reg !! n) names
              | None => omap (fun n => reg !! n) names
              end).
      destruct (reg !! n); cbn [length]; lia.
    + intros t. unfold get_by_names, get. rewrite list_elem_of_omap. naive_solver.
  - intros Hreg names. unfold get_by_names.
    induction names as [|n names IH]; [done|].
    change (omap (fun n => reg !! n) (n :: names))
      with (match reg !! n with
            | Some t => t :: omap (fun n => reg !! n) names
            | None => omap (fun n => reg !! n) names
            end).
    change (List.filter (exists_ reg) (n :: names))
      with (if exists_ reg n then n :: List.filter (exists_ reg) names
            else List.filter (exists_ reg) names).
    unfold exists_ at 1. destruct (reg !! n) as [t|] eqn:Hn.
    + rewrite bool_decide_eq_true_2 by eauto. cbn [map]. f_equal; [|done].
      by apply (registered_names reg Hreg).
    + rewrite bool_decide_eq_false_2; [done|]. by intros [? ?].
Qed.

End RegistryFacts.

Section SchemaFacts.
Import Tools.

Variable py_str : JVal -> string.

(** The ["properties"] and ["required"] members of [to_openai_schema]. *)
Definition schema_properties (t : BaseTool) : dict string JVal :=
  fold_left (fun d p => dict_set d (p_name p) (to_json_schema p)) (parameters t) [].

Definition schema_required (t : BaseTool) : list string :=
  map p_name (List.filter p_required (parameters t)).

Lemma to_openai_schema_members t :
  to_openai_schema t
  = JObj [("type", JStr "function");
          ("function", JObj [
             ("name", JStr (tool_name t));
             ("description", JStr (tool_description t));
             ("parameters", JObj [
                ("type", JStr "object");
                ("properties", JObj (schema_properties t));
                ("required", JArr (map JStr (schema_required t)))])])].
Proof. unfold to_openai_schema, schema_properties, schema_required. by rewrite map_map. Qed.

Lemma fold_properties_keys (ps : list ToolParameter) : forall d,
  forall k, k ∈ dict_keys (fold_left (fun d p => dict_set d (p_name p) (to_json_schema p)) ps d)
            <-> k ∈ dict_keys d \/ k ∈ map p_name ps.
Proof.
  induction ps as [|p ps IH]; intros d k; simpl.
  - split; [by left|]. intros [?|H]; [done|]. by apply not_elem_of_nil in H.
  - rewrite IH, dict_keys_set. rewrite elem_of_cons.
    destruct (decide (p_name p ∈ dict_keys d)) as [Hin|Hnot].
    + split; [naive_solver|]. intros [?|[->|?]]; auto.
    + rewrite elem_of_app, list_elem_of_singleton. naive_solver.
Qed.

Lemma validate_params_same (params : list ToolParameter) kw1 kw2 :
  (forall p, p ∈ params -> dict_get kw1 (p_name p) = dict_get kw2 (p_name p)) ->
  validate_params py_str params kw1 = validate_params py_str params kw2.
Proof.
  induction params as [|p params IH]; intros Hsame; simpl; [done|].
  assert (validate_param py_str kw1 p = validate_param py_str kw2 p) as ->.
  { unfold validate_param. by rewrite (Hsame p) by apply list_elem_of_here. }
  rewrite IH; [done|]. intros q Hq. by apply Hsame, list_elem_of_further.
Qed.

Lemma validate_params_required (params : list ToolParameter) kwargs p :
  validate_params py_str params kwargs = Ret tt ->
  p ∈ params -> p_required p = true -> dict_mem kwargs (p_name p) = true.
Proof.
  intros Hok Hp Hr. induction params as [|q ps IH]; [by apply not_elem_of_nil in Hp|].
  simpl in Hok. destruct (validate_param py_str kwargs q) as [[]| |] eqn:Hq; try done.
  apply elem_of_cons in Hp as [->|Hp]; [|by apply IH].
  unfold validate_param in Hq. unfold dict_mem.
  destruct (dict_get kwargs (p_name q)); [done|]. by rewrite Hr in Hq.
Qed.

(** X7.  The schema a tool advertises and the validation it runs agree:
    the schema has a property for every declared parameter name and for
    no other name, its required list holds the names of the parameters
    declared required, in declaration order, and arguments that
    [validate_params] accepts hold a value for every name of that list.
    Validation reads the declared names only: two argument maps that
    agree on them are treated alike, so an undeclared argument is never
    refused. *)
Theorem schema_and_validation_agree (t : BaseTool) :
  to_openai_schema t
  = JObj [("type", JStr "function");
          ("function", JObj [
             ("name", JStr (tool_name t));
             ("description", JStr (tool_description t));
             ("parameters", JObj [
                ("type", JStr "object");
                ("properties", JObj (schema_properties t));
                ("required", JArr (map JStr (schema_required t)))])])]
  /\ (forall name, name ∈ dict_keys (schema_properties t)
                <-> exists p, p ∈ parameters t /\ p_name p = name)
  /\ (forall name, name ∈ schema_required t
                   <-> exists p, p ∈ parameters t /\ p_name p = name /\ p_required p = true)
  /\ (forall name, name ∈ schema_required t -> name ∈ dict_keys (schema_properties t))
  /\ (forall kwargs,
        validate_params py_str (parameters t) kwargs = Ret tt ->
        forall name, name ∈ schema_required t -> dict_mem kwargs name = true)
  /\ (forall kw1 kw2,
        (forall p, p ∈ parameters t -> dict_get kw1 (p_name p) = dict_get kw2 (p_name p)) ->
        validate_params py_str (parameters t) kw1
        = validate_params py_str (parameters t) kw2)
  /\ (forall kwargs k v,
        (forall p, p ∈ parameters t -> p_name p ≠ k) ->
        validate_params py_str (parameters t) (dict_set kwargs k v)
        = validate_params py_str (parameters t) kwargs).
Proof.
  assert (Hprops : forall name, name ∈ dict_keys (schema_properties t)
                     <-> exists p, p ∈ parameters t /\ p_name p = name).
  { intros name. unfold schema_properties. rewrite fold_properties_keys.
    rewrite list_elem_of_fmap. split.
    - intros [H|(p & -> & Hp)]; [by apply not_elem_of_nil in H | by exists p].
    - intros (p & Hp & <-). right. by exists p. }
  assert (Hreq : forall name, name ∈ schema_required t
                   <-> exists p, p ∈ parameters t /\ p_name p = name /\ p_required p = true).
  { intros name. unfold schema_required. rewrite list_elem_of_fmap. split.
    - intros (p & -> & Hp). apply list_elem_of_In, filter_In in Hp as [Hp Hr].
      exists p. by rewrite list_elem_of_In.
    - intros (p & Hp & <- & Hr). exists p. split; [done|].
      apply list_elem_of_In, filter_In. by rewrite <- list_elem_of_In. }
  split; [apply to_openai_schema_members|].
  split; [exact Hprops|]. split; [exact Hreq|]. split; [|split; [|split]].
  - intros name (p & Hp & <- & _)%Hreq. apply Hprops. by exists p.
  - intros kwargs Hok name (p & Hp & <- & Hr)%Hreq.
    by apply (validate_params_required (parameters t)).
  - apply validate_params_same.
  - intros kwargs k v Hk. apply validate_params_same. intros p Hp.
    apply dict_get_set_ne. intros ->. by apply (Hk p).
Qed.

End SchemaFacts.


(** ** The messages sent for a role *)

Section MessageFacts.
Import Client Tools Intent Engine.

Variable w : World.

Lemma recent_history_suffix c n :
  exists dropped, history c = dropped ++ get_recent_history c n.
Proof.
  unfold get_recent_history. destruct (Nat.ltb _ _); [|by exists []].
  destruct (n * 2) as [|m]; [by exists []|].
  exists (take (length (history c) - S m) (history c)).
  by rewrite take_drop.
Qed.

Lemma recent_history_length c n :
  0 < n -> length (get_recent_history c n) = Nat.min (length (history c)) (2 * n).
Proof.
  intros Hn. unfold get_recent_history.
  destruct (Nat.ltb (n * 2) (length (history c))) eqn:Hlt.
  - apply Nat.ltb_lt in Hlt. destruct (n * 2) as [|m] eqn:Hm; [lia|].
    rewrite length_skipn. lia.
  - apply Nat.ltb_ge in Hlt. lia.
Qed.

(** X8.  [get_recent_history] returns an end of the history; for a
    positive [max_turns] it holds the last [2 * max_turns] messages, or
    the whole history when that is shorter; for [max_turns] zero it is
    the whole history, as [history[-0:]] is. *)
Theorem recent_history_is_a_bounded_suffix (c : ConversationContext) (max_turns : nat) :
  (exists dropped, history c = dropped ++ get_recent_history c max_turns)
  /\ (0 < max_turns ->
      length (get_recent_history c max_turns)
      = Nat.min (length (history c)) (2 * max_turns))
  /\ get_recent_history c 0 = history c.
Proof.
  split; [apply recent_history_suffix|]. split; [apply recent_history_length|].
  unfold get_recent_history. simpl. by destruct (Nat.ltb 0 (length (history c))).
Qed.

(** The results stored for known roles, in the order of the result
    map, each with its role; an entry under an id that [get_role] does
    not know is skipped. *)
Definition known_results (results : dict string Text) : list (Role * Text) :=
  omap (fun p : string * Text =>
          match w_get_role w p.1 with
          | Some other => Some (other, p.2)
          | None => None
          end) results.

(** One result as the prompt shows it. *)
Definition result_text (p : Role * Text) : string :=
  "【" +:+ name p.1 +:+ "的分析】" +:+ nl
  +:+ match p.2 with Some text => text | None => "None" end.

(** The text added to a role's prompt for the stored results. *)
Definition results_section (c : ConversationContext) : string :=
  match known_results (role_results c) with
  | [] => ""
  | known => nl +:+ nl +:+ "以下是其他专家的分析结果，请参考：" +:+ nl
             +:+ String.concat (nl +:+ nl) (map result_text known)
  end.

Lemma known_results_app r1 r2 :
  known_results (r1 ++ r2) = known_results r1 ++ known_results r2.
Proof.
  unfold known_results. induction r1 as [|p r1 IH]; [done|].
  change (omap ?f ((p :: r1) ++ r2))
    with (match f p with Some y => y :: omap f (r1 ++ r2) | None => omap f (r1 ++ r2) end).
  change (omap ?f (p :: r1))
    with (match f p with Some y => y :: omap f r1 | None => omap f r1 end).
  rewrite IH. by destruct (w_get_role w p.1).
Qed.

Lemma known_results_cons k v r :
  known_results ((k, v) :: r)
  = match w_get_role w k with
    | Some other => (other, v) :: known_results r
    | None => known_results r
    end.
Proof. unfold known_results. cbn [omap list_omap fst snd]. by destruct (w_get_role w k). Qed.

Lemma render_results_known results :
  render_results w results = map result_text (known_results results).
Proof.
  induction results as [|[k v] results IH]; [done|].
  rewrite known_results_cons. unfold render_results in *.
  change (omap ?f ((k, v) :: results))
    with (match f (k, v) with Some y => y :: omap f results | None => omap f results end).
  cbn [fst snd]. destruct (w_get_role w k) as [other|]; [|exact IH].
  cbn [map]. rewrite IH. reflexivity.
Qed.

Lemma known_results_nil results :
  known_results results = [] <-> forall k, k ∈ dict_keys results -> w_get_role w k = None.
Proof.
  induction results as [|[k v] results IH].
  - split; [|done]. intros _ k Hk. by apply not_elem_of_nil in Hk.
  - rewrite known_results_cons. unfold dict_keys in *. cbn [map fst]. split.
    + destruct (w_get_role w k) as [other|] eqn:Hk; [done|]. intros Hnil k' Hk'.
      apply elem_of_cons in Hk' as [->|Hk']; [done|]. by apply IH.
    + intros Hall. rewrite (Hall k) by apply list_elem_of_here.
      apply IH. intros k' Hk'. by apply Hall, list_elem_of_further.
Qed.

(** X9.  The messages built for a role: first the system message, made
    of the role's prompt, the stored results, and the format
    instructions; then the last ten messages of the history at most;
    then the user's input, unless the last of those messages already
    has it as content.  So the list has between two and twelve messages
    and its last message always has the user's input as content.  The
    stored results are shown under a fixed heading, one text per entry
    of the result map whose role id is known, in the order of the map,
    each made of the role's name and the stored text, separated by
    blank lines; an entry under an unknown role id is skipped wherever
    it stands, and when no entry has a known id nothing is added, not
    even the heading. *)
Theorem role_messages_end_with_the_input
  (role : Role) (user_input : string) (c : ConversationContext) :
  let messages := _build_role_messages w role user_input c in
  let recent := get_recent_history c 5 in
  (exists tail,
     messages
     = plain_message "system"
         (system_prompt role
          +:+ match known_results (role_results c) with
              | [] => ""
              | known =>
                  nl +:+ nl +:+ "以下是其他专家的分析结果，请参考：" +:+ nl
                  +:+ String.concat (nl +:+ nl)
                        (map (fun p : Role * Text =>
                                "【" +:+ name p.1 +:+ "的分析】" +:+ nl
                                +:+ match p.2 with Some text => text | None => "None" end)
                             known)
              end
          +:+ FORMAT_INSTRUCTIONS)
       :: recent ++ tail
     /\ (tail = [] \/ tail = [plain_message "user" user_input])
     /\ (tail = [] <-> exists m, last recent = Some m /\ msg_content m = Some user_input))
  /\ (exists m, last messages = Some m /\ msg_content m = Some user_input)
  /\ 2 <= length messages <= 12
  /\ known_results [] = []
  /\ (forall k v results,
        known_results ((k, v) :: results)
        = match w_get_role w k with
          | Some other => (other, v) :: known_results results
          | None => known_results results
          end)
  /\ (forall r1 r2, known_results (r1 ++ r2) = known_results r1 ++ known_results r2)
  /\ (known_results (role_results c) = []
      <-> forall k, k ∈ dict_keys (role_results c) -> w_get_role w k = None).
Proof.
  intros messages recent.
  assert (Hshape : exists tail,
     messages
     = plain_message "system"
         (system_prompt role +:+ results_section c +:+ FORMAT_INSTRUCTIONS)
       :: recent ++ tail
     /\ (tail = [] \/ tail = [plain_message "user" user_input])
     /\ (tail = [] <-> exists m, last recent = Some m /\ msg_content m = Some user_input)).
  { unfold messages, _build_role_messages. cbv zeta. fold recent.
    assert (Hsection :
              match render_results w (role_results c) with
              | [] => ""
              | _ => nl +:+ nl +:+ "以下是其他专家的分析结果，请参考：" +:+ nl
                     +:+ String.concat (nl +:+ nl) (render_results w (role_results c))
              end = results_section c).
    { unfold results_section. rewrite render_results_known.
      by destruct (known_results (role_results c)). }
    rewrite Hsection.
    destruct (last recent) as [m|] eqn:Hlast.
    - destruct (bool_decide (msg_content m = Some user_input)) eqn:Hm.
      + apply bool_decide_eq_true in Hm. exists []. split; [reflexivity|]. split; [by left|].
        split; [|done]. intros _. by exists m.
      + apply bool_decide_eq_false in Hm. eexists. split; [reflexivity|]. split; [by right|].
        split; [done|]. intros (m' & [= <-] & Hm'). done.
    - eexists. split; [reflexivity|]. split; [by right|]. split; [done|].
      by intros (m' & ? & _). }
  split; [exact Hshape|].
  destruct Hshape as (tail & -> & Htail & Hnil).
  pose proof (recent_history_length c 5 ltac:(lia)) as Hlen. fold recent in Hlen.
  split; [|split; [|split; [|split; [|split]]]].
  - destruct Htail as [->| ->].
    + destruct (proj1 Hnil eq_refl) as (m & Hlast & Hm). exists m. split; [|done].
      rewrite app_nil_r. destruct recent as [|r0 rs]; [done|].
      by rewrite last_cons, Hlast.
    + exists (plain_message "user" user_input). split; [|done].
      change (?x :: recent ++ [?u]) with ((x :: recent) ++ [u]). apply last_snoc.
  - cbn [length]. rewrite length_app.
    destruct Htail as [->| ->]; cbn [length].
    + destruct (proj1 Hnil eq_refl) as (m & Hlast & _).
      destruct recent as [|r0 rs]; [done|]. cbn [length] in *. lia.
    + lia.
  - done.
  - intros k v results. apply known_results_cons.
  - apply known_results_app.
  - apply known_results_nil.
Qed.

(** X10.  A role run without events ([emit_events] false, as
    [_process_llm_response] and the discussion mode run it) returns an
    empty event list, however many tool rounds it goes through. *)
Theorem quiet_role_run_returns_no_event :
  (forall fuel tcs role messages (text : Text),
      returns (fun r => r.2 = []) (_handle_tool_calls w fuel tcs role messages text false))
  /\ (forall response role messages,
        returns (fun r => r.2 = [])
                (_process_llm_response_with_events w response role messages false))
  /\ (forall role user_input,
        returns (fun r => r.2 = []) (_execute_role w role user_input false)).
Proof.
  assert (Hprocess : forall handle response role messages,
            (forall tcs role messages (text : Text),
                returns (fun r => r.2 = []) (handle tcs role messages text false)) ->
            returns (fun r : Text * list Event => r.2 = [])
                    (process_with handle response role messages false)).
  { intros handle response role messages Hh. unfold process_with.
    eapply returns_bind; [apply returns_True|]. intros d _.
    destruct d.1; [by apply returns_ret | apply Hh]. }
  assert (Hhandle : forall fuel tcs role messages (text : Text),
      returns (fun r => r.2 = []) (_handle_tool_calls w fuel tcs role messages text false)).
  { induction fuel as [|fuel IH]; intros tcs role messages text; [done|].
    unfold _handle_tool_calls; fold _handle_tool_calls. cbv zeta.
    eapply returns_bind; [apply returns_True|]. intros response _.
    eapply returns_bind; [by apply Hprocess|]. intros r Hr.
    apply returns_ret. cbn [snd]. rewrite Hr.
    destruct text as [t|]; [|done]. by rewrite andb_false_r. }
  split; [exact Hhandle|]. split.
  - intros response role messages. by apply Hprocess.
  - intros role user_input. unfold _execute_role.
    eapply returns_bind; [apply returns_True|]. intros c _. cbv zeta.
    eapply returns_bind; [apply returns_True|]. intros response _.
    by apply Hprocess.
Qed.

End MessageFacts.
